(** * Blue-green reconciliation of a rollout (controller/bluegreen.go)

    A shallow embedding of the blue-green reconciliation pass of the rollout
    controller, and the properties of its steps.

    The controller methods of bluegreen.go are embedded as computations in a
    small monad that threads the cluster the controller talks to and the
    sequence of calls it makes to its collaborators.  The collaborators
    (clients, listers, helper packages) are an interface: every theorem holds
    for all implementations of it. *)

From Stdlib Require Import ZArith Lia.
From stdpp Require Import base option list sorting gmap strings pretty.

Local Open Scope Z_scope.

(** ** Machine integers

    Counts are Go [int32]: arithmetic wraps around in two's complement. *)

Definition wrap32 (z : Z) : Z := (z + 2 ^ 31) `mod` 2 ^ 32 - 2 ^ 31.
Definition add32 (a b : Z) : Z := wrap32 (a + b).
Definition sub32 (a b : Z) : Z := wrap32 (a - b).
Definition int32_range (z : Z) : Prop := - 2 ^ 31 <= z < 2 ^ 31.

(** ** Data model *)

(** A Go [error]; [None] is [nil].  An error value is known by its message. *)
Definition error : Type := option string.

(** [appsv1.ReplicaSet], the fields the controller reads.  [Spec.Replicas] is
    a [*int32] that the API server always fills in; the record carries the
    value pointed to. *)
Record ReplicaSet : Type := {
  rsNamespace : string;
  rsName : string;
  CreationTimestamp : Z;
  SpecReplicas : Z;
  StatusAvailableReplicas : Z
}.

(** [corev1.Service]: [Spec.Selector] is a [map[string]string]. *)
Record Service : Type := {
  svcName : string;
  SpecSelector : gmap string string
}.

(** [v1alpha1.Rollout].  [Status.VerifyingPreview] is a [*bool] and
    [Spec.Replicas] a [*int32]; both may be nil. *)
Record Rollout : Type := {
  roNamespace : string;
  roName : string;
  roSpecReplicas : option Z;
  PreviewService : string;
  ActiveService : string;
  VerifyingPreview : option bool
}.

(** ** Calls to collaborators

    Every effect of a pass goes through one of the controller's collaborators;
    the sequence of these calls, each with its arguments and with what it
    returned, is what a pass does to the cluster. *)
Inductive Call : Type :=
| CallGetAllReplicaSetsAndSyncRevision
    (r : Rollout) (rsList : list ReplicaSet) (createIfNotExisted : bool)
    (returned : ReplicaSet * list ReplicaSet * error)
| CallGetPreviewAndActiveServices
    (r : Rollout) (returned : option Service * option Service * error)
| CallScaleReplicaSetAndRecordEvent
    (rs : ReplicaSet) (newScale : Z) (r : Rollout)
    (returned : bool * ReplicaSet * error)
| CallReconcilePreviewService
    (r : Rollout) (newRS : ReplicaSet) (previewSvc activeSvc : option Service)
    (returned : bool * error)
| CallReconcileActiveService
    (r : Rollout) (newRS : ReplicaSet) (previewSvc activeSvc : option Service)
    (returned : bool * error)
| CallCleanupRollouts (oldRSs : list ReplicaSet) (r : Rollout) (returned : error)
| CallSyncRolloutStatus
    (allRSs : list ReplicaSet) (newRS : ReplicaSet)
    (previewSvc activeSvc : option Service) (r : Rollout) (returned : error).

(** The error a call returned. *)
Definition callErr (c : Call) : error :=
  match c with
  | CallGetAllReplicaSetsAndSyncRevision _ _ _ (_, _, err) => err
  | CallGetPreviewAndActiveServices _ (_, _, err) => err
  | CallScaleReplicaSetAndRecordEvent _ _ _ (_, _, err) => err
  | CallReconcilePreviewService _ _ _ _ (_, err) => err
  | CallReconcileActiveService _ _ _ _ (_, err) => err
  | CallCleanupRollouts _ _ err => err
  | CallSyncRolloutStatus _ _ _ _ _ err => err
  end.

Definition isScale (c : Call) : bool :=
  match c with CallScaleReplicaSetAndRecordEvent _ _ _ _ => true | _ => false end.

Definition isPreviewCutover (c : Call) : bool :=
  match c with CallReconcilePreviewService _ _ _ _ _ => true | _ => false end.

Definition isActiveCutover (c : Call) : bool :=
  match c with CallReconcileActiveService _ _ _ _ _ => true | _ => false end.

Definition isCleanup (c : Call) : bool :=
  match c with CallCleanupRollouts _ _ _ => true | _ => false end.

Definition isSync (c : Call) : bool :=
  match c with CallSyncRolloutStatus _ _ _ _ _ _ => true | _ => false end.

(** The groups that scale calls were issued for, with the requested counts,
    in the order of the calls. *)
Fixpoint scaleCalls (cs : list Call) : list (ReplicaSet * Z) :=
  match cs with
  | [] => []
  | CallScaleReplicaSetAndRecordEvent rs n _ _ :: cs' => (rs, n) :: scaleCalls cs'
  | _ :: cs' => scaleCalls cs'
  end.

(** ** The collaborators

    [W] is the state of everything outside the pass (the cluster, the event
    recorder).  The helpers without [W] are pure functions of other packages. *)
Class Collaborators (W : Type) : Type := {
  (* the new group returned is not nil when the error is nil: the pass asks
     for its creation *)
  do_getAllReplicaSetsAndSyncRevision :
    Rollout -> list ReplicaSet -> bool ->
    W -> (ReplicaSet * list ReplicaSet * error) * W;
  do_getPreviewAndActiveServices :
    Rollout -> W -> (option Service * option Service * error) * W;
  do_scaleReplicaSetAndRecordEvent :
    ReplicaSet -> Z -> Rollout -> W -> (bool * ReplicaSet * error) * W;
  do_reconcilePreviewService :
    Rollout -> ReplicaSet -> option Service -> option Service ->
    W -> (bool * error) * W;
  do_reconcileActiveService :
    Rollout -> ReplicaSet -> option Service -> option Service ->
    W -> (bool * error) * W;
  do_cleanupRollouts : list ReplicaSet -> Rollout -> W -> error * W;
  do_syncRolloutStatus :
    list ReplicaSet -> ReplicaSet -> option Service -> option Service ->
    Rollout -> W -> error * W;
  (* replicasetutil.NewRSNewReplicas *)
  NewRSNewReplicas : Rollout -> list ReplicaSet -> ReplicaSet -> Z * error;
  (* annotations.IsSaturated *)
  IsSaturated : Rollout -> ReplicaSet -> bool;
  (* conditions.RolloutComplete *)
  RolloutComplete : Rollout -> bool;
  (* controller.FilterActiveReplicaSets; the slice returned is a new one, so
     that the sort and the updates in place of the eviction step do not reach
     the slices of rolloutBlueGreen *)
  FilterActiveReplicaSets : list ReplicaSet -> list ReplicaSet;
  (* defaults.GetRolloutReplicasOrDefault *)
  GetRolloutReplicasOrDefault : Rollout -> Z;
  (* v1alpha1.DefaultRolloutUniqueLabelKey *)
  DefaultRolloutUniqueLabelKey : string
}.

(** The order of [controller.ReplicaSetsByCreationTimestamp], up to what it
    does with groups created at the same instant. *)
Definition olderOrSame (a b : ReplicaSet) : Prop :=
  CreationTimestamp a <= CreationTimestamp b.

(** Modelled from the spec: controller.ReplicaSetsByCreationTimestamp is not
    part of the file; the spec has the old groups sorted by creation time,
    oldest first.  [sort.Sort] is not stable, so
    [sort.Sort(controller.ReplicaSetsByCreationTimestamp(l))] is some
    rearrangement of [l] in which creation timestamps never decrease; the
    order among groups created at the same instant is left open. *)
Class ByCreationTimestamp : Type := {
  sortByCreationTimestamp : list ReplicaSet -> list ReplicaSet;
  sortByCreationTimestamp_perm l : sortByCreationTimestamp l ≡ₚ l;
  sortByCreationTimestamp_sorted l : Sorted olderOrSame (sortByCreationTimestamp l)
}.

(** ** Scale accountant *)

(** Modelled from the spec: replicasetutil.GetReplicaCountForReplicaSets is
    not part of the file; the spec describes it as the total desired count of
    a collection of groups.  The total is an [int32]. *)
Definition GetReplicaCountForReplicaSets (replicaSets : list ReplicaSet) : Z :=
  fold_left (fun total rs => add32 total (SpecReplicas rs)) replicaSets 0.

(** Modelled from the spec: replicasetutil.GetAvailableReplicaCountForReplicaSets
    is not part of the file; the spec describes it as the total available
    count of a collection of groups.  The total is an [int32]. *)
Definition GetAvailableReplicaCountForReplicaSets
    (replicaSets : list ReplicaSet) : Z :=
  fold_left (fun total rs => add32 total (StatusAvailableReplicas rs))
            replicaSets 0.

(** ** The monad of a pass

    A computation runs on a state and either returns a value or panics
    ([None]: a nil pointer was dereferenced); either way it leaves a state. *)
Record State (W : Type) : Type := mkState {
  world : W;
  calls : list Call
}.
Arguments mkState {W} _ _.
Arguments world {W} _.
Arguments calls {W} _.

Definition M (W A : Type) : Type := State W -> option A * State W.

Definition ret {W A} (a : A) : M W A := fun st => (Some a, st).

Definition bind {W A B} (m : M W A) (k : A -> M W B) : M W B :=
  fun st =>
    match m st with
    | (Some a, st') => k a st'
    | (None, st') => (None, st')
    end.

(** Evaluation of an expression that may dereference nil. *)
Definition eval {W A} (o : option A) : M W A := fun st => (o, st).

(** A call to a collaborator: it is recorded, and the collaborator acts on
    the world. *)
Definition call {W A} (c : A -> Call) (f : W -> A * W) : M W A :=
  fun st =>
    let '(a, w') := f (world st) in
    (Some a, mkState w' (calls st ++ [c a])).

Notation "x <- m ;; k" := (bind m (fun x => k))
  (at level 20, m at level 99, k at level 200, only parsing).
Notation "' pat <- m ;; k" := (bind m (fun x => match x with pat => k end))
  (at level 20, pat pattern, m at level 99, k at level 200, only parsing).

(** What a computation adds to the record of calls. *)
Definition callsOf {W A} (m : M W A) (st : State W) : list Call :=
  drop (length (calls st)) (calls (snd (m st))).

(** ** The controller *)

Section Controller.
Context {W : Type} `{!Collaborators W} `{!ByCreationTimestamp}.

Local Abbreviation M := (M W).

Definition getAllReplicaSetsAndSyncRevision
    (r : Rollout) (rsList : list ReplicaSet) (createIfNotExisted : bool)
    : M (ReplicaSet * list ReplicaSet * error) :=
  call (CallGetAllReplicaSetsAndSyncRevision r rsList createIfNotExisted)
       (do_getAllReplicaSetsAndSyncRevision r rsList createIfNotExisted).

Definition getPreviewAndActiveServices (r : Rollout)
    : M (option Service * option Service * error) :=
  call (CallGetPreviewAndActiveServices r) (do_getPreviewAndActiveServices r).

Definition scaleReplicaSetAndRecordEvent
    (rs : ReplicaSet) (newScale : Z) (rollout : Rollout)
    : M (bool * ReplicaSet * error) :=
  call (CallScaleReplicaSetAndRecordEvent rs newScale rollout)
       (do_scaleReplicaSetAndRecordEvent rs newScale rollout).

Definition reconcilePreviewService
    (r : Rollout) (newRS : ReplicaSet) (previewSvc activeSvc : option Service)
    : M (bool * error) :=
  call (CallReconcilePreviewService r newRS previewSvc activeSvc)
       (do_reconcilePreviewService r newRS previewSvc activeSvc).

Definition reconcileActiveService
    (r : Rollout) (newRS : ReplicaSet) (previewSvc activeSvc : option Service)
    : M (bool * error) :=
  call (CallReconcileActiveService r newRS previewSvc activeSvc)
       (do_reconcileActiveService r newRS previewSvc activeSvc).

Definition cleanupRollouts (oldRSs : list ReplicaSet) (r : Rollout) : M error :=
  call (CallCleanupRollouts oldRSs r) (do_cleanupRollouts oldRSs r).

Definition syncRolloutStatus
    (allRSs : list ReplicaSet) (newRS : ReplicaSet)
    (previewSvc activeSvc : option Service) (r : Rollout) : M error :=
  call (CallSyncRolloutStatus allRSs newRS previewSvc activeSvc r)
       (do_syncRolloutStatus allRSs newRS previewSvc activeSvc r).

(** [reconcileVerifyingPreview]: [None] is the panic of reading
    [activeSvc.Spec] through a nil [activeSvc]. *)
Definition reconcileVerifyingPreview
    (activeSvc : option Service) (rollout : Rollout) : option bool :=
  if String.eqb (PreviewService rollout) "" then Some false
  else
    match activeSvc with
    | None => None
    | Some svc =>
        match SpecSelector svc !! DefaultRolloutUniqueLabelKey with
        | None => Some false
        | Some _ =>
            match VerifyingPreview rollout with
            | None => Some false
            | Some b => Some b
            end
        end
    end.

Definition reconcileNewReplicaSet
    (allRSs : list ReplicaSet) (newRS : ReplicaSet) (rollout : Rollout)
    : M (bool * error) :=
  let rolloutReplicas := GetRolloutReplicasOrDefault rollout in
  if SpecReplicas newRS =? rolloutReplicas then
    ret (false, None)
  else if SpecReplicas newRS >? rolloutReplicas then
    '(scaled, _, err) <- scaleReplicaSetAndRecordEvent newRS rolloutReplicas rollout ;;
    ret (scaled, err)
  else
    let '(newReplicasCount, err) := NewRSNewReplicas rollout allRSs newRS in
    match err with
    | Some _ => ret (false, err)
    | None =>
        '(scaled, _, err) <- scaleReplicaSetAndRecordEvent newRS newReplicasCount rollout ;;
        ret (scaled, err)
    end.

(** The message of the [fmt.Errorf] in [cleanupUnhealthyReplicas]. *)
Definition invalidScaleDownError (targetRS : ReplicaSet) (newReplicasCount : Z)
    : string :=
  "when cleaning up unhealthy replicas, got invalid request to scale down "
    +:+ rsNamespace targetRS +:+ "/" +:+ rsName targetRS +:+ " "
    +:+ pretty (SpecReplicas targetRS) +:+ " -> " +:+ pretty newReplicasCount.

(** The loop of [cleanupUnhealthyReplicas] over [oldRSs[i:]]: [done] is
    [oldRSs[:i]] as the earlier iterations left it. *)
Fixpoint cleanupUnhealthyReplicas_loop
    (rollout : Rollout) (done todo : list ReplicaSet) (totalScaledDown : Z)
    : M (list ReplicaSet * Z * error) :=
  match todo with
  | [] => ret (done, totalScaledDown, None)
  | targetRS :: todo' =>
      if SpecReplicas targetRS =? 0 then
        cleanupUnhealthyReplicas_loop rollout (done ++ [targetRS]) todo' totalScaledDown
      else if SpecReplicas targetRS =? StatusAvailableReplicas targetRS then
        cleanupUnhealthyReplicas_loop rollout (done ++ [targetRS]) todo' totalScaledDown
      else
        let scaledDownCount :=
          sub32 (SpecReplicas targetRS) (StatusAvailableReplicas targetRS) in
        let newReplicasCount := StatusAvailableReplicas targetRS in
        if newReplicasCount >? SpecReplicas targetRS then
          ret ([], 0, Some (invalidScaleDownError targetRS newReplicasCount))
        else
          '(_, updatedOldRS, err) <-
            scaleReplicaSetAndRecordEvent targetRS newReplicasCount rollout ;;
          match err with
          | Some _ => ret ([], totalScaledDown, err)
          | None =>
              cleanupUnhealthyReplicas_loop rollout (done ++ [updatedOldRS]) todo'
                (add32 totalScaledDown scaledDownCount)
          end
  end.

Definition cleanupUnhealthyReplicas
    (oldRSs : list ReplicaSet) (rollout : Rollout)
    : M (list ReplicaSet * Z * error) :=
  let oldRSs := sortByCreationTimestamp oldRSs in
  cleanupUnhealthyReplicas_loop rollout [] oldRSs 0.

(** The loop of [scaleDownOldReplicaSetsForBlueGreen]. *)
Fixpoint scaleDownOldReplicaSetsForBlueGreen_loop
    (rollout : Rollout) (todo : list ReplicaSet) (totalScaledDown : Z)
    : M (Z * error) :=
  match todo with
  | [] => ret (totalScaledDown, None)
  | targetRS :: todo' =>
      if SpecReplicas targetRS =? 0 then
        scaleDownOldReplicaSetsForBlueGreen_loop rollout todo' totalScaledDown
      else
        let scaleDownCount := SpecReplicas targetRS in
        let newReplicasCount := 0 in
        '(_, _, err) <-
          scaleReplicaSetAndRecordEvent targetRS newReplicasCount rollout ;;
        match err with
        | Some _ => ret (totalScaledDown, err)
        | None =>
            scaleDownOldReplicaSetsForBlueGreen_loop rollout todo'
              (add32 totalScaledDown scaleDownCount)
        end
  end.

Definition scaleDownOldReplicaSetsForBlueGreen
    (allRSs oldRSs : list ReplicaSet) (rollout : Rollout) : M (Z * error) :=
  let availablePodCount := GetAvailableReplicaCountForReplicaSets allRSs in
  if availablePodCount <=? GetRolloutReplicasOrDefault rollout then
    ret (0, None)
  else
    let oldRSs := sortByCreationTimestamp oldRSs in
    scaleDownOldReplicaSetsForBlueGreen_loop rollout oldRSs 0.

Definition reconcileOldReplicaSets
    (allRSs oldRSs : list ReplicaSet) (newRS : ReplicaSet) (rollout : Rollout)
    : M (bool * error) :=
  let oldPodsCount := GetReplicaCountForReplicaSets oldRSs in
  if oldPodsCount =? 0 then ret (false, None)
  else if negb (IsSaturated rollout newRS) then ret (false, None)
  else
    '(oldRSs, cleanupCount, err) <- cleanupUnhealthyReplicas oldRSs rollout ;;
    match err with
    | Some _ => ret (false, None)
    | None =>
        let allRSs := oldRSs ++ [newRS] in
        '(scaledDownCount, err) <-
          scaleDownOldReplicaSetsForBlueGreen allRSs oldRSs rollout ;;
        match err with
        | Some _ => ret (false, None)
        | None =>
            let totalScaledDown := add32 cleanupCount scaledDownCount in
            ret (totalScaledDown >? 0, None)
        end
    end.

Definition rolloutBlueGreen (r : Rollout) (rsList : list ReplicaSet) : M error :=
  '(newRS, oldRSs, err) <- getAllReplicaSetsAndSyncRevision r rsList true ;;
  match err with
  | Some _ => ret err
  | None =>
  '(previewSvc, activeSvc, err) <- getPreviewAndActiveServices r ;;
  match err with
  | Some _ => ret err
  | None =>
  let allRSs := oldRSs ++ [newRS] in
  '(scaledUp, err) <- reconcileNewReplicaSet allRSs newRS r ;;
  match err with
  | Some _ => ret err
  | None =>
  if scaledUp then syncRolloutStatus allRSs newRS previewSvc activeSvc r
  else
    (* from line 57 on *)
    let fromActiveService : M error :=
      '(switchActiveSvc, err) <- reconcileActiveService r newRS previewSvc activeSvc ;;
      match err with
      | Some _ => ret err
      | None =>
      if switchActiveSvc then syncRolloutStatus allRSs newRS previewSvc activeSvc r
      else
        '(scaledDown, err) <-
          reconcileOldReplicaSets allRSs (FilterActiveReplicaSets oldRSs) newRS r ;;
        match err with
        | Some _ => ret err
        | None =>
        if scaledDown then syncRolloutStatus allRSs newRS previewSvc activeSvc r
        else if RolloutComplete r then
          err <- cleanupRollouts oldRSs r ;;
          match err with
          | Some _ => ret err
          | None => syncRolloutStatus allRSs newRS previewSvc activeSvc r
          end
        else syncRolloutStatus allRSs newRS previewSvc activeSvc r
        end
      end
    in
    match previewSvc with
    | Some _ =>
        '(switchPreviewSvc, err) <- reconcilePreviewService r newRS previewSvc activeSvc ;;
        match err with
        | Some _ => ret err
        | None =>
        if switchPreviewSvc then syncRolloutStatus allRSs newRS previewSvc activeSvc r
        else
          verfyingPreview <- eval (reconcileVerifyingPreview activeSvc r) ;;
          if verfyingPreview then syncRolloutStatus allRSs newRS previewSvc activeSvc r
          else fromActiveService
        end
    | None => fromActiveService
    end
  end end end.

End Controller.

(** ** Vocabulary of the properties *)

Definition sumZ (l : list Z) : Z := foldr Z.add 0 l.

(** Groups the scale-down loop does not skip. *)
Definition nonzero (rs : ReplicaSet) : bool := negb (SpecReplicas rs =? 0).

(** Groups the eviction loop does not skip: the desired count is neither zero
    nor the available count. *)
Definition unhealthy (rs : ReplicaSet) : bool :=
  nonzero rs && negb (SpecReplicas rs =? StatusAvailableReplicas rs).

Definition older (a b : ReplicaSet) : Prop :=
  CreationTimestamp a < CreationTimestamp b.

(** What the scaler passes on of the collaborator's reply: the changed flag
    and the error. *)
Definition reported (reply : bool * ReplicaSet * error) : bool * error :=
  (reply.1.1, reply.2).

Section Vocabulary.
Context {W : Type} `{!Collaborators W} `{!ByCreationTimestamp}.

(** The three conditions of the gate, as the spec lists them. *)
Definition gateHeld (activeSvc : option Service) (rollout : Rollout) : Prop :=
  PreviewService rollout <> ""%string
  /\ (exists svc, activeSvc = Some svc
                  /\ is_Some (SpecSelector svc !! DefaultRolloutUniqueLabelKey))
  /\ VerifyingPreview rollout = Some true.

(** What one call of the scale-and-record collaborator leaves behind. *)
Definition afterScale (rs : ReplicaSet) (newScale : Z) (rollout : Rollout)
    (st : State W) : State W :=
  let out := do_scaleReplicaSetAndRecordEvent rs newScale rollout (world st) in
  mkState out.2
    (calls st ++ [CallScaleReplicaSetAndRecordEvent rs newScale rollout out.1]).

End Vocabulary.

(** The runs of the scale-down loop over [todo], starting from the running
    total [total]: the calls made, the total returned and the error returned. *)
Inductive ScaleDownRun (rollout : Rollout)
  : list ReplicaSet -> Z -> list Call -> Z -> error -> Prop :=
| ScaleDownRun_done total :
    ScaleDownRun rollout [] total [] total None
| ScaleDownRun_skip rs todo total cs n err :
    SpecReplicas rs = 0 ->
    ScaleDownRun rollout todo total cs n err ->
    ScaleDownRun rollout (rs :: todo) total cs n err
| ScaleDownRun_fail rs todo total changed updated e :
    SpecReplicas rs <> 0 ->
    ScaleDownRun rollout (rs :: todo) total
      [CallScaleReplicaSetAndRecordEvent rs 0 rollout (changed, updated, Some e)]
      total (Some e)
| ScaleDownRun_scale rs todo total changed updated cs n err :
    SpecReplicas rs <> 0 ->
    ScaleDownRun rollout todo (add32 total (SpecReplicas rs)) cs n err ->
    ScaleDownRun rollout (rs :: todo) total
      (CallScaleReplicaSetAndRecordEvent rs 0 rollout (changed, updated, None) :: cs)
      n err.

(** The runs of the eviction loop over [todo], with [done] the part of the
    collection already gone through and [total] the running total: the calls
    made and the triple returned. *)
Inductive EvictionRun (rollout : Rollout)
  : list ReplicaSet -> list ReplicaSet -> Z -> list Call
    -> list ReplicaSet * Z * error -> Prop :=
| EvictionRun_done done total :
    EvictionRun rollout done [] total [] (done, total, None)
| EvictionRun_skip done rs todo total cs out :
    unhealthy rs = false ->
    EvictionRun rollout (done ++ [rs]) todo total cs out ->
    EvictionRun rollout done (rs :: todo) total cs out
| EvictionRun_invalid done rs todo total :
    unhealthy rs = true ->
    SpecReplicas rs < StatusAvailableReplicas rs ->
    EvictionRun rollout done (rs :: todo) total []
      ([], 0, Some (invalidScaleDownError rs (StatusAvailableReplicas rs)))
| EvictionRun_fail done rs todo total changed updated e :
    unhealthy rs = true ->
    StatusAvailableReplicas rs <= SpecReplicas rs ->
    EvictionRun rollout done (rs :: todo) total
      [CallScaleReplicaSetAndRecordEvent rs (StatusAvailableReplicas rs) rollout
         (changed, updated, Some e)]
      ([], total, Some e)
| EvictionRun_evict done rs todo total changed updated cs out :
    unhealthy rs = true ->
    StatusAvailableReplicas rs <= SpecReplicas rs ->
    EvictionRun rollout (done ++ [updated]) todo
      (add32 total (sub32 (SpecReplicas rs) (StatusAvailableReplicas rs))) cs out ->
    EvictionRun rollout done (rs :: todo) total
      (CallScaleReplicaSetAndRecordEvent rs (StatusAvailableReplicas rs) rollout
         (changed, updated, None) :: cs)
      out.

(** A call that evicts the unhealthy units of one of the groups of [l]: it
    scales the group to its available count, which is not above its desired
    count. *)
Definition evicts (rollout : Rollout) (l : list ReplicaSet) (c : Call) : Prop :=
  exists rs reply,
    c = CallScaleReplicaSetAndRecordEvent rs (StatusAvailableReplicas rs) rollout reply
    /\ rs ∈ l
    /\ unhealthy rs = true
    /\ StatusAvailableReplicas rs <= SpecReplicas rs.

(** A group of the collection returned is the group given unless it was
    evicted. *)
Definition keptUnlessEvicted (rs rs' : ReplicaSet) : Prop :=
  unhealthy rs = false -> rs' = rs.

(** ** The pass as a linear state machine

    The orchestrator as the spec describes it, to be compared with
    [rolloutBlueGreen]. *)

(** What a step of the pass asks for: go on with the next step, sync the
    status and stop, or give up with an error. *)
Inductive Outcome : Type :=
| Continue
| SyncAndStop
| Abort (e : string).

(** A step that returns a changed flag and an error. *)
Definition verdict (reply : bool * error) : Outcome :=
  match reply.2 with
  | Some e => Abort e
  | None => if reply.1 then SyncAndStop else Continue
  end.

Section Machine.
Context {W : Type} `{!Collaborators W} `{!ByCreationTimestamp}.

(** The machine: the steps run in order; the first that does not ask to go
    on ends the pass, with a status sync unless it gave up; after the last
    step the status is synced. *)
Fixpoint runSteps (sync : M W error) (steps : list (M W Outcome)) : M W error :=
  match steps with
  | [] => sync
  | step :: steps' =>
      o <- step ;;
      match o with
      | Continue => runSteps sync steps'
      | SyncAndStop => sync
      | Abort e => ret (Some e)
      end
  end.

(** The state after [steps] when each of them asked to go on. *)
Fixpoint allContinue (steps : list (M W Outcome)) (st : State W)
    : option (State W) :=
  match steps with
  | [] => Some st
  | step :: steps' =>
      match step st with
      | (Some Continue, st') => allContinue steps' st'
      | _ => None
      end
  end.

(** The head of a pass: the groups and the two services are fetched, leaving
    the state [st1]. *)
Definition fetched (r : Rollout) (rsList : list ReplicaSet) (st : State W)
    (newRS : ReplicaSet) (oldRSs : list ReplicaSet)
    (previewSvc activeSvc : option Service) (st1 : State W) : Prop :=
  exists st0,
    getAllReplicaSetsAndSyncRevision r rsList true st
      = (Some (newRS, oldRSs, None), st0)
    /\ getPreviewAndActiveServices r st0
       = (Some (previewSvc, activeSvc, None), st1).

(** One of the two fetches returns the error [e], leaving the state [st']. *)
Definition fetchFailed (r : Rollout) (rsList : list ReplicaSet) (st : State W)
    (e : string) (st' : State W) : Prop :=
  (exists newRS oldRSs,
      getAllReplicaSetsAndSyncRevision r rsList true st
      = (Some (newRS, oldRSs, Some e), st'))
  \/ (exists newRS oldRSs st0 previewSvc activeSvc,
        getAllReplicaSetsAndSyncRevision r rsList true st
          = (Some (newRS, oldRSs, None), st0)
        /\ getPreviewAndActiveServices r st0
           = (Some (previewSvc, activeSvc, Some e), st')).

(** The steps of a pass, once the groups and the services are fetched. *)
Definition stepScaleNewUp (r : Rollout) (newRS : ReplicaSet)
    (oldRSs : list ReplicaSet) : M W Outcome :=
  reply <- reconcileNewReplicaSet (oldRSs ++ [newRS]) newRS r ;;
  ret (verdict reply).

Definition stepPreviewCutover (r : Rollout) (newRS : ReplicaSet)
    (previewSvc activeSvc : option Service) : M W Outcome :=
  match previewSvc with
  | None => ret Continue
  | Some _ =>
      reply <- reconcilePreviewService r newRS previewSvc activeSvc ;;
      ret (verdict reply)
  end.

Definition stepVerifyGate (r : Rollout)
    (previewSvc activeSvc : option Service) : M W Outcome :=
  match previewSvc with
  | None => ret Continue
  | Some _ =>
      held <- eval (reconcileVerifyingPreview activeSvc r) ;;
      ret (if held : bool then SyncAndStop else Continue)
  end.

Definition stepActiveCutover (r : Rollout) (newRS : ReplicaSet)
    (previewSvc activeSvc : option Service) : M W Outcome :=
  reply <- reconcileActiveService r newRS previewSvc activeSvc ;;
  ret (verdict reply).

Definition stepScaleOldDown (r : Rollout) (newRS : ReplicaSet)
    (oldRSs : list ReplicaSet) : M W Outcome :=
  reply <- reconcileOldReplicaSets (oldRSs ++ [newRS])
             (FilterActiveReplicaSets oldRSs) newRS r ;;
  ret (verdict reply).

Definition stepCleanup (r : Rollout) (oldRSs : list ReplicaSet) : M W Outcome :=
  if RolloutComplete r then
    err <- cleanupRollouts oldRSs r ;;
    ret (match err with Some e => Abort e | None => Continue end)
  else ret Continue.

Definition passSteps (r : Rollout) (newRS : ReplicaSet) (oldRSs : list ReplicaSet)
    (previewSvc activeSvc : option Service) : list (M W Outcome) :=
  [ stepScaleNewUp r newRS oldRSs;
    stepPreviewCutover r newRS previewSvc activeSvc;
    stepVerifyGate r previewSvc activeSvc;
    stepActiveCutover r newRS previewSvc activeSvc;
    stepScaleOldDown r newRS oldRSs;
    stepCleanup r oldRSs ].

(** Collaborators that report the changes they make: a reply without error
    and with a false changed flag leaves the cluster as it was. *)
Definition reportsChanges : Prop :=
  (forall rs n r w updated w',
      do_scaleReplicaSetAndRecordEvent rs n r w = ((false, updated, None), w') ->
      w' = w)
  /\ (forall r newRS p a w w',
      do_reconcilePreviewService r newRS p a w = ((false, None), w') -> w' = w)
  /\ (forall r newRS p a w w',
      do_reconcileActiveService r newRS p a w = ((false, None), w') -> w' = w).

End Machine.

(** ** Vocabulary of the loops and of the calls of a pass *)

(** The count the eviction step reports for the groups [l] it evicted: the
    int32 sum of desired minus available. *)
Definition evictedCount (l : list ReplicaSet) : Z :=
  wrap32 (sumZ ((fun rs => SpecReplicas rs - StatusAvailableReplicas rs) <$> l)).

(** A call that scales some group to zero for [rollout]. *)
Definition scalesToZero (rollout : Rollout) (c : Call) : Prop :=
  exists rs reply, c = CallScaleReplicaSetAndRecordEvent rs 0 rollout reply.

(** A call that scales one of the groups of [l], with a nonzero desired
    count, to zero. *)
Definition zeroes (rollout : Rollout) (l : list ReplicaSet) (c : Call) : Prop :=
  exists rs reply,
    c = CallScaleReplicaSetAndRecordEvent rs 0 rollout reply
    /\ rs ∈ l
    /\ SpecReplicas rs <> 0.

(** The place of a collaborator in a pass. *)
Definition phase (c : Call) : nat :=
  match c with
  | CallGetAllReplicaSetsAndSyncRevision _ _ _ _ => 0
  | CallGetPreviewAndActiveServices _ _ => 1
  | CallScaleReplicaSetAndRecordEvent _ _ _ _ => 2
  | CallReconcilePreviewService _ _ _ _ _ => 3
  | CallReconcileActiveService _ _ _ _ _ => 4
  | CallCleanupRollouts _ _ _ => 5
  | CallSyncRolloutStatus _ _ _ _ _ _ => 6
  end%nat.

Definition notScale (c : Call) : bool := negb (isScale c).

(** ** The shapes of a pass

    What a pass calls and what it returns, stage by stage from its end.  In
    each relation the list is the calls of the stage and of the stages after
    it, and the result is that of the pass ([None]: the pass panicked). *)

Section PassShape.
Context {W : Type} `{!Collaborators W}.
Variables (r : Rollout) (newRS : ReplicaSet) (oldRSs : list ReplicaSet)
  (previewSvc activeSvc : option Service).

(** The status sync, with the collections and services of the fetches. *)
Inductive SyncRun : list Call -> option error -> Prop :=
| SyncRun_intro err :
    SyncRun
      [CallSyncRolloutStatus (oldRSs ++ [newRS]) newRS previewSvc activeSvc r err]
      (Some err).

(** Lines 73-79: the cleanup of a complete rollout, then the status sync. *)
Inductive TailRun : list Call -> option error -> Prop :=
| TailRun_incomplete cs res :
    RolloutComplete r = false ->
    SyncRun cs res ->
    TailRun cs res
| TailRun_cleanup_failed e :
    RolloutComplete r = true ->
    TailRun [CallCleanupRollouts oldRSs r (Some e)] (Some (Some e))
| TailRun_cleanup cs res :
    RolloutComplete r = true ->
    SyncRun cs res ->
    TailRun (CallCleanupRollouts oldRSs r None :: cs) res.

(** The calls of the scale-down of the old groups: evictions, then scalings
    to zero. *)
Definition OldScaling (evictions scalings : list Call) : Prop :=
  Forall (evicts r (FilterActiveReplicaSets oldRSs)) evictions
  /\ Forall (scalesToZero r) scalings
  /\ (evictions ++ scalings <> [] ->
      IsSaturated r newRS = true
      /\ GetReplicaCountForReplicaSets (FilterActiveReplicaSets oldRSs) <> 0)
  /\ (scalings <> [] -> Forall (fun c => callErr c = None) evictions).

(** Lines 64-71: the scale-down of the old groups, from which the pass goes
    to the status sync when a scale-down is reported and to the cleanup
    otherwise. *)
Inductive OldRun : list Call -> option error -> Prop :=
| OldRun_scaled evictions scalings cs res :
    OldScaling evictions scalings ->
    evictions ++ scalings <> [] ->
    Forall (fun c => callErr c = None) (evictions ++ scalings) ->
    SyncRun cs res ->
    OldRun (evictions ++ scalings ++ cs) res
| OldRun_unscaled evictions scalings cs res :
    OldScaling evictions scalings ->
    TailRun cs res ->
    OldRun (evictions ++ scalings ++ cs) res.

(** Lines 57-63: the cutover of the active service. *)
Inductive ActiveRun : list Call -> option error -> Prop :=
| ActiveRun_failed switched e :
    ActiveRun
      [CallReconcileActiveService r newRS previewSvc activeSvc (switched, Some e)]
      (Some (Some e))
| ActiveRun_switched cs res :
    SyncRun cs res ->
    ActiveRun
      (CallReconcileActiveService r newRS previewSvc activeSvc (true, None) :: cs)
      res
| ActiveRun_kept cs res :
    OldRun cs res ->
    ActiveRun
      (CallReconcileActiveService r newRS previewSvc activeSvc (false, None) :: cs)
      res.

(** Lines 42-55: the cutover of the preview service and the gate, both
    skipped without a preview service. *)
Inductive PreviewRun : list Call -> option error -> Prop :=
| PreviewRun_none cs res :
    previewSvc = None ->
    ActiveRun cs res ->
    PreviewRun cs res
| PreviewRun_failed switched e :
    previewSvc <> None ->
    PreviewRun
      [CallReconcilePreviewService r newRS previewSvc activeSvc (switched, Some e)]
      (Some (Some e))
| PreviewRun_switched cs res :
    previewSvc <> None ->
    SyncRun cs res ->
    PreviewRun
      (CallReconcilePreviewService r newRS previewSvc activeSvc (true, None) :: cs)
      res
| PreviewRun_panic :
    previewSvc <> None ->
    reconcileVerifyingPreview activeSvc r = None ->
    PreviewRun
      [CallReconcilePreviewService r newRS previewSvc activeSvc (false, None)]
      None
| PreviewRun_held cs res :
    previewSvc <> None ->
    reconcileVerifyingPreview activeSvc r = Some true ->
    SyncRun cs res ->
    PreviewRun
      (CallReconcilePreviewService r newRS previewSvc activeSvc (false, None) :: cs)
      res
| PreviewRun_open cs res :
    previewSvc <> None ->
    reconcileVerifyingPreview activeSvc r = Some false ->
    ActiveRun cs res ->
    PreviewRun
      (CallReconcilePreviewService r newRS previewSvc activeSvc (false, None) :: cs)
      res.

(** Lines 33-40: the scaling of the new group. *)
Inductive NewRun : list Call -> option error -> Prop :=
| NewRun_settled cs res :
    SpecReplicas newRS = GetRolloutReplicasOrDefault r ->
    PreviewRun cs res ->
    NewRun cs res
| NewRun_ramp_failed count e :
    SpecReplicas newRS < GetRolloutReplicasOrDefault r ->
    NewRSNewReplicas r (oldRSs ++ [newRS]) newRS = (count, Some e) ->
    NewRun [] (Some (Some e))
| NewRun_scale_failed n changed updated e :
    SpecReplicas newRS <> GetRolloutReplicasOrDefault r ->
    NewRun [CallScaleReplicaSetAndRecordEvent newRS n r (changed, updated, Some e)]
      (Some (Some e))
| NewRun_scaled n updated cs res :
    SpecReplicas newRS <> GetRolloutReplicasOrDefault r ->
    SyncRun cs res ->
    NewRun (CallScaleReplicaSetAndRecordEvent newRS n r (true, updated, None) :: cs)
      res
| NewRun_unscaled n updated cs res :
    SpecReplicas newRS <> GetRolloutReplicasOrDefault r ->
    PreviewRun cs res ->
    NewRun (CallScaleReplicaSetAndRecordEvent newRS n r (false, updated, None) :: cs)
      res.

End PassShape.

(** Lines 23-31: the two fetches, then the stages on what they returned. *)
Inductive PassRun {W : Type} `{!Collaborators W}
    (r : Rollout) (rsList : list ReplicaSet)
  : list Call -> option error -> Prop :=
| PassRun_groups_failed newRS oldRSs e :
    PassRun r rsList
      [CallGetAllReplicaSetsAndSyncRevision r rsList true (newRS, oldRSs, Some e)]
      (Some (Some e))
| PassRun_services_failed newRS oldRSs previewSvc activeSvc e :
    PassRun r rsList
      [CallGetAllReplicaSetsAndSyncRevision r rsList true (newRS, oldRSs, None);
       CallGetPreviewAndActiveServices r (previewSvc, activeSvc, Some e)]
      (Some (Some e))
| PassRun_stages newRS oldRSs previewSvc activeSvc cs res :
    NewRun r newRS oldRSs previewSvc activeSvc cs res ->
    PassRun r rsList
      (CallGetAllReplicaSetsAndSyncRevision r rsList true (newRS, oldRSs, None)
       :: CallGetPreviewAndActiveServices r (previewSvc, activeSvc, None)
       :: cs)
      res.

(** The calls of a pass other than scale calls come in the order of their
    places, from [k] on, each at most once. *)
Definition ordered (k : nat) (cs : list Call) : Prop :=
  Forall (fun n => (k <= n)%nat) (phase <$> List.filter notScale cs)
  /\ StronglySorted lt (phase <$> List.filter notScale cs).

(** A call made after the fetches works on what they returned: the rollout,
    the new group, the old groups and the two services as fetched. *)
Definition onSnapshot {W : Type} `{!Collaborators W}
    (r : Rollout) (newRS : ReplicaSet) (oldRSs : list ReplicaSet)
    (previewSvc activeSvc : option Service) (c : Call) : Prop :=
  match c with
  | CallGetAllReplicaSetsAndSyncRevision _ _ _ _ => False
  | CallGetPreviewAndActiveServices _ _ => False
  | CallScaleReplicaSetAndRecordEvent _ _ r' _ => r' = r
  | CallReconcilePreviewService r' newRS' previewSvc' activeSvc' _ =>
      r' = r /\ newRS' = newRS /\ previewSvc' = previewSvc /\ activeSvc' = activeSvc
  | CallReconcileActiveService r' newRS' previewSvc' activeSvc' _ =>
      r' = r /\ newRS' = newRS /\ previewSvc' = previewSvc /\ activeSvc' = activeSvc
  | CallCleanupRollouts oldRSs' r' _ =>
      oldRSs' = oldRSs /\ r' = r /\ RolloutComplete r = true
  | CallSyncRolloutStatus allRSs' newRS' previewSvc' activeSvc' r' _ =>
      allRSs' = oldRSs ++ [newRS] /\ newRS' = newRS /\ previewSvc' = previewSvc
      /\ activeSvc' = activeSvc /\ r' = r
  end.

(** How a pass ends: with the status sync as its last call and its only
    sync, whose error it returns; or without any sync, and then not with a
    nil error. *)
Definition syncedLast (cs : list Call) (res : option error) : Prop :=
  (exists pre c,
      cs = pre ++ [c] /\ isSync c = true
      /\ Forall (fun c' => isSync c' = false) pre
      /\ res = Some (callErr c))
  \/ (Forall (fun c' => isSync c' = false) cs /\ res <> Some None).

(** An error returned is the error of the last call. *)
Definition blamesLast (cs : list Call) (res : option error) : Prop :=
  forall e, res = Some (Some e) ->
    exists c, last cs = Some c /\ callErr c = Some e.

(** A call that returns an error is the last call, and its error is
    returned, unless it is a scale call. *)
Definition stopsOnError (cs : list Call) (res : option error) : Prop :=
  forall pre c post,
    cs = pre ++ c :: post ->
    callErr c <> None ->
    (post = [] /\ res = Some (callErr c)) \/ isScale c = true.

(** The same, where the scale calls whose error is survived come after a
    cutover of the active service. *)
Definition stopsOnErrorBeforeOld (cs : list Call) (res : option error) : Prop :=
  forall pre c post,
    cs = pre ++ c :: post ->
    callErr c <> None ->
    (post = [] /\ res = Some (callErr c))
    \/ (isScale c = true /\ Exists (fun c' => isActiveCutover c' = true) pre).

(** The scale call [c], made after the calls [pre], belongs to the
    scale-down of the old groups: the active service was reconciled before
    it without a switch, the new group is saturated, and [c] evicts the
    unhealthy units of an old group or scales a group to zero. *)
Definition scalesOldDown {W : Type} `{!Collaborators W}
    (r : Rollout) (newRS : ReplicaSet) (oldRSs : list ReplicaSet)
    (previewSvc activeSvc : option Service)
    (pre : list Call) (c : Call) : Prop :=
  CallReconcileActiveService r newRS previewSvc activeSvc (false, None) ∈ pre
  /\ IsSaturated r newRS = true
  /\ (evicts r (FilterActiveReplicaSets oldRSs) c \/ scalesToZero r c).

(** ** An in-memory cluster

    One implementation of the collaborators: the cluster is a store of groups
    and the two services, and the API server rejects updates of the groups
    named in [rejected].  The examples run the controller against it. *)
Module InMemory.

Record Cluster : Type := {
  groups : list ReplicaSet;
  rejected : list string;
  preview : option Service;
  active : option Service
}.

Definition labelKey : string := "rollouts-pod-template-hash".

Definition replicasOrDefault (r : Rollout) : Z := default 1 (roSpecReplicas r).

Definition withReplicas (rs : ReplicaSet) (n : Z) : ReplicaSet :=
  {| rsNamespace := rsNamespace rs; rsName := rsName rs;
     CreationTimestamp := CreationTimestamp rs;
     SpecReplicas := n;
     StatusAvailableReplicas := StatusAvailableReplicas rs |}.

Definition stored (w : Cluster) (rs : ReplicaSet) : ReplicaSet :=
  default rs (List.find (fun g => String.eqb (rsName g) (rsName rs)) (groups w)).

Definition store (w : Cluster) (rs : ReplicaSet) : Cluster :=
  {| groups :=
       map (fun g => if String.eqb (rsName g) (rsName rs) then rs else g) (groups w);
     rejected := rejected w; preview := preview w; active := active w |}.

Definition scale (rs : ReplicaSet) (newScale : Z) (r : Rollout) (w : Cluster)
    : (bool * ReplicaSet * error) * Cluster :=
  if bool_decide (rsName rs ∈ rejected w) then
    ((false, rs, Some "the object has been modified"%string), w)
  else
    let current := stored w rs in
    if SpecReplicas current =? newScale then ((false, current, None), w)
    else
      let updated := withReplicas current newScale in
      ((true, updated, None), store w updated).

Definition pointsTo (svc : Service) (rs : ReplicaSet) : bool :=
  bool_decide (SpecSelector svc !! labelKey = Some (rsName rs)).

Definition repoint (svc : Service) (rs : ReplicaSet) : Service :=
  {| svcName := svcName svc;
     SpecSelector := <[labelKey := rsName rs]> (SpecSelector svc) |}.

Definition switchPreview (r : Rollout) (newRS : ReplicaSet)
    (previewSvc activeSvc : option Service) (w : Cluster)
    : (bool * error) * Cluster :=
  match previewSvc with
  | Some svc =>
      if pointsTo svc newRS then ((false, None), w)
      else ((true, None),
            {| groups := groups w; rejected := rejected w;
               preview := Some (repoint svc newRS); active := active w |})
  | None => ((false, None), w)
  end.

Definition switchActive (r : Rollout) (newRS : ReplicaSet)
    (previewSvc activeSvc : option Service) (w : Cluster)
    : (bool * error) * Cluster :=
  match activeSvc with
  | Some svc =>
      if pointsTo svc newRS then ((false, None), w)
      else ((true, None),
            {| groups := groups w; rejected := rejected w;
               preview := preview w; active := Some (repoint svc newRS) |})
  | None => ((false, Some "active service not found"%string), w)
  end.

Definition syncRevision (r : Rollout) (rsList : list ReplicaSet) (create : bool)
    (w : Cluster) : (ReplicaSet * list ReplicaSet * error) * Cluster :=
  match rsList with
  | newRS :: oldRSs => ((newRS, oldRSs, None), w)
  | [] =>
      let none := {| rsNamespace := roNamespace r; rsName := roName r;
                     CreationTimestamp := 0; SpecReplicas := 0;
                     StatusAvailableReplicas := 0 |} in
      ((none, [], Some "no replica set for the rollout"%string), w)
  end.

Definition collect (oldRSs : list ReplicaSet) (r : Rollout) (w : Cluster)
    : error * Cluster :=
  (None,
   {| groups := filter (fun g => SpecReplicas g ≠ 0) (groups w);
      rejected := rejected w; preview := preview w; active := active w |}).

#[export] Instance collaborators : Collaborators Cluster := {|
  do_getAllReplicaSetsAndSyncRevision := syncRevision;
  do_getPreviewAndActiveServices := fun r w => ((preview w, active w, None), w);
  do_scaleReplicaSetAndRecordEvent := scale;
  do_reconcilePreviewService := switchPreview;
  do_reconcileActiveService := switchActive;
  do_cleanupRollouts := collect;
  do_syncRolloutStatus := fun _ _ _ _ _ w => (None, w);
  NewRSNewReplicas := fun r _ _ => (replicasOrDefault r, None);
  IsSaturated := fun r newRS =>
    (SpecReplicas newRS =? replicasOrDefault r)
    && (StatusAvailableReplicas newRS =? replicasOrDefault r);
  RolloutComplete := fun _ => true;
  FilterActiveReplicaSets := filter (fun rs => 0 < SpecReplicas rs);
  GetRolloutReplicasOrDefault := replicasOrDefault;
  DefaultRolloutUniqueLabelKey := labelKey
|}.

#[export] Instance olderOrSame_dec a b : Decision (olderOrSame a b).
Proof. unfold olderOrSame. apply _. Defined.

#[export] Instance olderOrSame_total : Total olderOrSame.
Proof. intros a b. unfold olderOrSame. lia. Qed.

#[export] Instance byCreationTimestamp : ByCreationTimestamp := {|
  sortByCreationTimestamp := merge_sort olderOrSame;
  sortByCreationTimestamp_perm := merge_sort_Permutation olderOrSame;
  sortByCreationTimestamp_sorted := Sorted_merge_sort olderOrSame
|}.

(** Some objects. *)
Definition group (name : string) (created desired available : Z) : ReplicaSet :=
  {| rsNamespace := "default"; rsName := name; CreationTimestamp := created;
     SpecReplicas := desired; StatusAvailableReplicas := available |}.

Definition rollout (replicas : Z) (previewName : string) (verifying : option bool)
    : Rollout :=
  {| roNamespace := "default"; roName := "web"; roSpecReplicas := Some replicas;
     PreviewService := previewName; ActiveService := "active";
     VerifyingPreview := verifying |}.

Definition service (name : string) (target : option string) : Service :=
  {| svcName := name;
     SpecSelector :=
       match target with
       | Some t => {[ labelKey := t ]}
       | None => ∅
       end |}.

Definition cluster (gs : list ReplicaSet) (bad : list string)
    (p a : option Service) : State Cluster :=
  mkState {| groups := gs; rejected := bad; preview := p; active := a |} [].

End InMemory.

(** ** Sample objects

    Rollouts, groups and clusters that the examples run the controller on. *)
Module Samples.
Import InMemory.

Definition activeFor (target : string) : option Service :=
  Some (service "active" (Some target)).
Definition previewFor (target : string) : option Service :=
  Some (service "preview" (Some target)).

Definition modified : string := "the object has been modified".

(** One replica wanted; the new group runs it and is available; the old
    group still runs one available replica, and the API server rejects its
    update. *)
Definition staleOld : ReplicaSet := group "old" 1 1 1.
Definition readyNew : ReplicaSet := group "new" 2 1 1.
Definition oneReplica : Rollout := rollout 1 "" None.
Definition rejectingOld : State Cluster :=
  cluster [readyNew; staleOld] ["old"%string] None (activeFor "new").

Definition verifying : Rollout := rollout 2 "preview" (Some true).

(** Two replicas wanted, the new group has none yet and the API server
    rejects its update; the preview service points to the new group, the
    active one to the old group. *)
Definition freshNew : ReplicaSet := group "new" 2 0 0.
Definition servingOld : ReplicaSet := group "old" 1 2 2.
Definition rejectingNew : State Cluster :=
  cluster [freshNew; servingOld] ["new"%string] (previewFor "new") (activeFor "old").
Definition rejectingNew0 : State Cluster :=
  Eval vm_compute in
    (getAllReplicaSetsAndSyncRevision verifying [freshNew; servingOld] true
       rejectingNew).2.
Definition rejectingNew1 : State Cluster :=
  Eval vm_compute in (getPreviewAndActiveServices verifying rejectingNew0).2.

(** Four replicas wanted; the new group and the old group X both run four
    available replicas. *)
Definition fourReplicas : Rollout := rollout 4 "" None.
Definition fullNew : ReplicaSet := group "new" 2 4 4.
Definition groupX : ReplicaSet := group "x" 1 4 4.
Definition surplus : State Cluster :=
  cluster [fullNew; groupX] [] None (activeFor "new").

(** The old group still wants two replicas and has none available, nor has
    the new group: no surplus. *)
Definition downOld : ReplicaSet := group "old" 1 2 0.
Definition downNew : ReplicaSet := group "new" 2 4 0.
Definition noSurplus : State Cluster :=
  cluster [downNew; downOld] [] None (activeFor "new").

(** The ordering scenario of the spec: A is older, wants three replicas and
    has one available; B is healthy. *)
Definition groupA : ReplicaSet := group "a" 1 3 1.
Definition groupB : ReplicaSet := group "b" 2 2 2.
Definition twoOld : State Cluster :=
  cluster [fullNew; groupB; groupA] [] None (activeFor "new").

Definition twoReplicas : Rollout := rollout 2 "" None.
Definition overNew : ReplicaSet := group "new" 2 5 5.
Definition overProvisioned : State Cluster :=
  cluster [overNew] [] None (activeFor "new").

Definition surplus0 : State Cluster :=
  Eval vm_compute in
    (getAllReplicaSetsAndSyncRevision fourReplicas [fullNew; groupX] true surplus).2.
Definition surplus1 : State Cluster :=
  Eval vm_compute in (getPreviewAndActiveServices fourReplicas surplus0).2.

Definition surplus2 : State Cluster :=
  Eval vm_compute in
    (stepActiveCutover fourReplicas fullNew None (activeFor "new") surplus1).2.

End Samples.

(** ** More sample objects *)
Module MoreSamples.
Import InMemory Samples.

(** The API server rejects the update of the old group A, which has
    unhealthy replicas. *)
Definition rejectingA : State Cluster :=
  cluster [fullNew; groupB; groupA] ["a"%string] None (activeFor "new").

(** The API server rejects the update of the old group X. *)
Definition rejectingX : State Cluster :=
  cluster [fullNew; groupX] ["x"%string] None (activeFor "new").

(** An old group that is already at zero. *)
Definition idleOld : ReplicaSet := group "idle" 0 0 0.

(** The new group is at its count, the preview service points to it, and
    there is no active service. *)
Definition currentNew : ReplicaSet := group "new" 2 2 2.
Definition noActive : State Cluster :=
  cluster [currentNew] [] (previewFor "new") None.

(** The calls of the pass on [surplus]: before the scale call of the old
    group X, the call itself, and after it. *)
Definition surplusBefore : list Call :=
  [CallGetAllReplicaSetsAndSyncRevision fourReplicas [fullNew; groupX] true
     (fullNew, [groupX], None);
   CallGetPreviewAndActiveServices fourReplicas (None, activeFor "new", None);
   CallReconcileActiveService fourReplicas fullNew None (activeFor "new")
     (false, None)].
Definition surplusScale : Call :=
  CallScaleReplicaSetAndRecordEvent groupX 0 fourReplicas
    (true, group "x" 1 0 4, None).
Definition surplusAfter : list Call :=
  [CallSyncRolloutStatus [groupX; fullNew] fullNew None (activeFor "new")
     fourReplicas None].

(** The calls of the pass on [rejectingNew]: the fetches, and the rejected
    scale call of the new group. *)
Definition rejectingNewBefore : list Call :=
  [CallGetAllReplicaSetsAndSyncRevision verifying [freshNew; servingOld] true
     (freshNew, [servingOld], None);
   CallGetPreviewAndActiveServices verifying
     (previewFor "new", activeFor "old", None)].
Definition rejectedScale : Call :=
  CallScaleReplicaSetAndRecordEvent freshNew 2 verifying
    (false, freshNew, Some modified).

End MoreSamples.

(** * Properties *)

(** ** The monad *)

Section Monad.
Context {W : Type}.

Lemma call_run {A} (mk : A -> Call) (f : W -> A * W) (st : State W) :
  call mk f st
  = (Some (f (world st)).1,
     mkState (f (world st)).2 (calls st ++ [mk (f (world st)).1])).
Proof. unfold call. destruct (f (world st)); reflexivity. Qed.

Lemma callsOf_eq {A} (m : M W A) (st : State W) (cs : list Call) :
  calls (m st).2 = calls st ++ cs -> callsOf m st = cs.
Proof. unfold callsOf. intros ->. apply drop_app_length. Qed.

Lemma callsOf_nil {A} (m : M W A) (st : State W) :
  (m st).2 = st -> callsOf m st = [].
Proof. intros E. apply callsOf_eq. rewrite E, app_nil_r. reflexivity. Qed.

Lemma state_eta (st : State W) : mkState (world st) (calls st) = st.
Proof. destruct st; reflexivity. Qed.

Lemma call_inv {A} (mk : A -> Call) (f : W -> A * W) (st st' : State W) a :
  call mk f st = (Some a, st') ->
  calls st' = calls st ++ [mk a].
Proof. rewrite call_run. by intros [= <- <-]. Qed.

Lemma bind_eq {A B} (m : M W A) (k : A -> M W B) (st : State W) :
  bind m k st
  = match m st with
    | (Some a, st') => k a st'
    | (None, st') => (None, st')
    end.
Proof. reflexivity. Qed.
End Monad.

(** ** Preview verification gate *)

Section Gate.
Context {W : Type} `{!Collaborators W}.

Lemma reconcileVerifyingPreview_true activeSvc rollout :
  reconcileVerifyingPreview activeSvc rollout = Some true
  <-> gateHeld activeSvc rollout.
Proof.
  unfold reconcileVerifyingPreview, gateHeld.
  destruct (String.eqb (PreviewService rollout) "") eqn:En.
  - apply String.eqb_eq in En. split; [discriminate | tauto].
  - apply String.eqb_neq in En.
    destruct activeSvc as [svc|].
    + destruct (SpecSelector svc !! DefaultRolloutUniqueLabelKey) as [v|] eqn:Ek.
      * destruct (VerifyingPreview rollout) as [[]|]; split;
          try discriminate; try (intros (_ & _ & ?); congruence).
        intros _. split; [assumption|]. split; [|reflexivity].
        exists svc. rewrite Ek. eauto.
      * split; [discriminate|].
        intros (_ & (svc' & [= <-] & Hs) & _). rewrite Ek in Hs.
        destruct Hs; discriminate.
    + split; [discriminate|]. intros (_ & (svc' & ? & _) & _). discriminate.
Qed.

Lemma reconcileVerifyingPreview_defined activeSvc rollout :
  PreviewService rollout = ""%string \/ is_Some activeSvc ->
  is_Some (reconcileVerifyingPreview activeSvc rollout).
Proof.
  unfold reconcileVerifyingPreview. intros [En | [svc ->]].
  - rewrite En. simpl. eauto.
  - destruct (String.eqb _ _); [eauto|].
    destruct (_ !! _); [|eauto]. destruct (VerifyingPreview _); eauto.
Qed.

(** C9. The gate reads the selector map of the active service whenever the
    rollout names a preview service: with a nil active service the
    evaluation panics instead of returning false, so the gate is defined
    exactly when the active service is non-nil. *)
Theorem reconcileVerifyingPreview_nil_active (rollout : Rollout) :
  PreviewService rollout <> ""%string ->
  reconcileVerifyingPreview None rollout = None
  /\ reconcileVerifyingPreview None rollout <> Some false
  /\ forall activeSvc,
       is_Some (reconcileVerifyingPreview activeSvc rollout) <-> is_Some activeSvc.
Proof.
  intros Hn. apply String.eqb_neq in Hn.
  assert (Hnil : reconcileVerifyingPreview None rollout = None).
  { unfold reconcileVerifyingPreview. rewrite Hn. reflexivity. }
  split; [exact Hnil|]. split; [rewrite Hnil; discriminate|].
  intros [svc|]; split; intros Hs.
  - eauto.
  - apply reconcileVerifyingPreview_defined. right. exact Hs.
  - rewrite Hnil in Hs. destruct Hs; discriminate.
  - destruct Hs; discriminate.
Qed.

(** C5, as amended.  The gate returns true exactly when the rollout names
    a preview service, the selector map of the active service has the
    revision key and [VerifyingPreview] is set and true.  When a condition
    is missing it returns false provided the active service is non-nil or
    no preview service is named.  Running it changes nothing. *)
Theorem reconcileVerifyingPreview_spec activeSvc rollout (st : State W) :
  (reconcileVerifyingPreview activeSvc rollout = Some true
     <-> gateHeld activeSvc rollout)
  /\ (PreviewService rollout = ""%string \/ is_Some activeSvc ->
      ~ gateHeld activeSvc rollout ->
      reconcileVerifyingPreview activeSvc rollout = Some false)
  /\ (eval (reconcileVerifyingPreview activeSvc rollout) st).2 = st.
Proof.
  split; [apply reconcileVerifyingPreview_true|]. split; [|reflexivity].
  intros Hd Hng. apply reconcileVerifyingPreview_defined in Hd as [b Hb].
  destruct b; [|exact Hb].
  apply reconcileVerifyingPreview_true in Hb. contradiction.
Qed.
End Gate.

(** ** New group scaler *)

Section NewGroupScaler.
Context {W : Type} `{!Collaborators W}.

Lemma scaleReplicaSetAndRecordEvent_run rs newScale rollout (st : State W) :
  scaleReplicaSetAndRecordEvent rs newScale rollout st
  = (Some (do_scaleReplicaSetAndRecordEvent rs newScale rollout (world st)).1,
     afterScale rs newScale rollout st).
Proof. unfold scaleReplicaSetAndRecordEvent. rewrite call_run. reflexivity. Qed.

(** The scaler always returns, and makes at most one call, a scale of the
    new group, whose changed flag and error it returns. *)
Lemma reconcileNewReplicaSet_cases allRSs newRS rollout (st : State W) :
  (exists err, reconcileNewReplicaSet allRSs newRS rollout st
               = (Some (false, err), st))
  \/ exists n,
      reconcileNewReplicaSet allRSs newRS rollout st
      = (Some (reported (do_scaleReplicaSetAndRecordEvent newRS n rollout (world st)).1),
         afterScale newRS n rollout st).
Proof.
  unfold reconcileNewReplicaSet, reported.
  destruct (SpecReplicas newRS =? GetRolloutReplicasOrDefault rollout);
    [left; by exists None|].
  destruct (SpecReplicas newRS >? GetRolloutReplicasOrDefault rollout).
  - right. exists (GetRolloutReplicasOrDefault rollout).
    rewrite bind_eq, scaleReplicaSetAndRecordEvent_run.
    by destruct (do_scaleReplicaSetAndRecordEvent _ _ _ _) as [[[? ?] ?] ?].
  - destruct (NewRSNewReplicas rollout allRSs newRS) as [cnt [e|]];
      [left; by exists (Some e)|].
    right. exists cnt. rewrite bind_eq, scaleReplicaSetAndRecordEvent_run.
    by destruct (do_scaleReplicaSetAndRecordEvent _ _ _ _) as [[[? ?] ?] ?].
Qed.

(** C6. The new group scaler: nothing to do when the new group already has
    the rollout's replica count; a direct scale to that count when it has
    more; otherwise a scale to the count of the ramp function, or the ramp
    function's error with nothing applied.  The flag returned is the one the
    scale-and-record collaborator reported. *)
Theorem reconcileNewReplicaSet_trichotomy
    (allRSs : list ReplicaSet) (newRS : ReplicaSet) (rollout : Rollout)
    (st : State W) :
  let rolloutReplicas := GetRolloutReplicasOrDefault rollout in
  let scaleTo (n : Z) :=
    (Some (reported (do_scaleReplicaSetAndRecordEvent newRS n rollout (world st)).1),
     afterScale newRS n rollout st) in
  (SpecReplicas newRS = rolloutReplicas ->
     reconcileNewReplicaSet allRSs newRS rollout st = (Some (false, None), st))
  /\ (SpecReplicas newRS > rolloutReplicas ->
     reconcileNewReplicaSet allRSs newRS rollout st = scaleTo rolloutReplicas)
  /\ (SpecReplicas newRS < rolloutReplicas ->
     match NewRSNewReplicas rollout allRSs newRS with
     | (newReplicasCount, None) =>
         reconcileNewReplicaSet allRSs newRS rollout st = scaleTo newReplicasCount
     | (_, Some e) =>
         reconcileNewReplicaSet allRSs newRS rollout st = (Some (false, Some e), st)
     end).
Proof.
  cbv zeta. unfold reconcileNewReplicaSet, reported. repeat split.
  - intros ->. rewrite Z.eqb_refl. reflexivity.
  - intros Hgt.
    destruct (Z.eqb_spec (SpecReplicas newRS) (GetRolloutReplicasOrDefault rollout));
      [lia|].
    destruct (Z.gtb_spec (SpecReplicas newRS) (GetRolloutReplicasOrDefault rollout));
      [|lia].
    unfold bind. rewrite scaleReplicaSetAndRecordEvent_run.
    destruct (do_scaleReplicaSetAndRecordEvent _ _ _ _) as [[[scaled upd] err] w'].
    reflexivity.
  - intros Hlt.
    destruct (Z.eqb_spec (SpecReplicas newRS) (GetRolloutReplicasOrDefault rollout));
      [lia|].
    destruct (Z.gtb_spec (SpecReplicas newRS) (GetRolloutReplicasOrDefault rollout));
      [lia|].
    destruct (NewRSNewReplicas rollout allRSs newRS) as [cnt [e|]]; [reflexivity|].
    unfold bind. rewrite scaleReplicaSetAndRecordEvent_run.
    destruct (do_scaleReplicaSetAndRecordEvent _ _ _ _) as [[[scaled upd] err] w'].
    reflexivity.
Qed.
End NewGroupScaler.

(** ** int32 totals *)

Ltac int32 :=
  unfold int32_range, add32, sub32, wrap32 in *;
  change (2 ^ 31) with 2147483648 in *;
  change (2 ^ 32) with 4294967296 in *.

Lemma wrap32_idem z : wrap32 (wrap32 z) = wrap32 z.
Proof.
  int32.
  replace ((z + 2147483648) `mod` 4294967296 - 2147483648 + 2147483648)
    with ((z + 2147483648) `mod` 4294967296) by lia.
  rewrite Z.mod_mod by lia. reflexivity.
Qed.

Lemma wrap32_add_l a b : wrap32 (wrap32 a + b) = wrap32 (a + b).
Proof.
  int32. f_equal.
  replace ((a + 2147483648) `mod` 4294967296 - 2147483648 + b + 2147483648)
    with ((a + 2147483648) `mod` 4294967296 + b) by lia.
  rewrite Zplus_mod_idemp_l. f_equal. lia.
Qed.

Lemma wrap32_small z : int32_range z -> wrap32 z = z.
Proof. int32. intros Hr. rewrite Z.mod_small by lia. lia. Qed.

Lemma wrap32_range z : int32_range (wrap32 z).
Proof.
  int32.
  pose proof (Z.mod_pos_bound (z + 2147483648) 4294967296 ltac:(lia)). lia.
Qed.

Lemma fold_add32 {A} (f : A -> Z) (l : list A) (t : Z) :
  wrap32 (fold_left (fun total x => add32 total (f x)) l t)
  = wrap32 (t + sumZ (f <$> l)).
Proof.
  revert t. induction l as [|x l IH]; intros t; cbn [fold_left].
  - f_equal. unfold sumZ. simpl. lia.
  - rewrite IH, fmap_cons. unfold add32. rewrite wrap32_add_l. f_equal.
    unfold sumZ. cbn [foldr]. lia.
Qed.

Lemma fold_add32_range {A} (f : A -> Z) (l : list A) (t : Z) :
  int32_range t ->
  int32_range (fold_left (fun total x => add32 total (f x)) l t).
Proof.
  revert t. induction l as [|y l IH]; intros t Ht; cbn [fold_left]; [exact Ht|].
  apply IH, wrap32_range.
Qed.

Lemma fold_add32_0 {A} (f : A -> Z) (l : list A) :
  fold_left (fun total x => add32 total (f x)) l 0 = wrap32 (sumZ (f <$> l)).
Proof.
  change (sumZ (f <$> l)) with (0 + sumZ (f <$> l)).
  rewrite <- fold_add32. symmetry.
  apply wrap32_small, fold_add32_range. int32. lia.
Qed.

Lemma sumZ_Permutation (l1 l2 : list Z) : l1 ≡ₚ l2 -> sumZ l1 = sumZ l2.
Proof. unfold sumZ. induction 1; simpl; lia. Qed.

Lemma GetReplicaCountForReplicaSets_sum l :
  GetReplicaCountForReplicaSets l = wrap32 (sumZ (SpecReplicas <$> l)).
Proof. apply fold_add32_0. Qed.

Lemma GetAvailableReplicaCountForReplicaSets_sum l :
  GetAvailableReplicaCountForReplicaSets l
  = wrap32 (sumZ (StatusAvailableReplicas <$> l)).
Proof. apply fold_add32_0. Qed.

Lemma sumZ_filter_nonzero l :
  sumZ (SpecReplicas <$> List.filter nonzero l) = sumZ (SpecReplicas <$> l).
Proof.
  unfold sumZ. induction l as [|rs l IH]; [reflexivity|].
  cbn [List.filter]. unfold nonzero at 1.
  destruct (Z.eqb_spec (SpecReplicas rs) 0) as [E|E]; cbn [negb];
    rewrite !fmap_cons; cbn [foldr]; lia.
Qed.

Lemma filter_nonzero_skip rs l :
  SpecReplicas rs = 0 -> List.filter nonzero (rs :: l) = List.filter nonzero l.
Proof. intros E. cbn [List.filter]. unfold nonzero at 1. by rewrite E. Qed.

Lemma filter_nonzero_keep rs l :
  SpecReplicas rs <> 0 ->
  List.filter nonzero (rs :: l) = rs :: List.filter nonzero l.
Proof.
  intros E. cbn [List.filter]. unfold nonzero at 1.
  by destruct (Z.eqb_spec (SpecReplicas rs) 0).
Qed.

(** ** Safe scale-down step *)

Section ScaleDown.
Context {W : Type} `{!Collaborators W} `{!ByCreationTimestamp}.

Lemma scaleDownOldReplicaSetsForBlueGreen_loop_run rollout todo :
  forall total (st : State W),
  exists n err w cs,
    scaleDownOldReplicaSetsForBlueGreen_loop rollout todo total st
    = (Some (n, err), mkState w (calls st ++ cs))
    /\ ScaleDownRun rollout todo total cs n err.
Proof.
  induction todo as [|rs todo IH]; intros total st; cbn [scaleDownOldReplicaSetsForBlueGreen_loop].
  - exists total, None, (world st), []. rewrite app_nil_r, state_eta.
    split; [reflexivity | constructor].
  - destruct (Z.eqb_spec (SpecReplicas rs) 0) as [E|E].
    + destruct (IH total st) as (n & err & w & cs & Hrun & Htr).
      exists n, err, w, cs. split; [exact Hrun|]. by constructor.
    + unfold bind. rewrite scaleReplicaSetAndRecordEvent_run. unfold afterScale.
      destruct (do_scaleReplicaSetAndRecordEvent rs 0 rollout (world st))
        as [[[changed updated] [e|]] w1]; cbn [fst snd].
      * eexists total, (Some e), w1, [_]. split; [reflexivity|]. by constructor.
      * match goal with |- context [scaleDownOldReplicaSetsForBlueGreen_loop _ _ ?t ?s] =>
          destruct (IH t s) as (n & err & w & cs & Hrun & Htr) end.
        cbn [calls] in Hrun. rewrite <- app_assoc in Hrun.
        eexists n, err, w, (_ :: cs). split; [exact Hrun|]. by constructor.
Qed.

(** Facts read off a run. *)
Lemma ScaleDownRun_targets rollout todo total cs n err :
  ScaleDownRun rollout todo total cs n err ->
  Forall (fun c => isScale c = true) cs
  /\ Forall (fun p => p.2 = 0) (scaleCalls cs)
  /\ (scaleCalls cs).*1 `prefix_of` List.filter nonzero todo.
Proof.
  induction 1 as [total | rs todo total cs n err E _ IH
                 | rs todo total changed updated e E
                 | rs todo total changed updated cs n err E _ IH].
  - repeat split; try constructor. apply prefix_nil.
  - by rewrite filter_nonzero_skip.
  - rewrite filter_nonzero_keep by done. cbn.
    repeat split; repeat constructor. apply prefix_cons, prefix_nil.
  - rewrite filter_nonzero_keep by done. cbn.
    destruct IH as (? & ? & ?).
    repeat split; try (constructor; [reflexivity | assumption]).
    by apply prefix_cons.
Qed.

Lemma ScaleDownRun_total rollout todo total cs n err :
  ScaleDownRun rollout todo total cs n err ->
  (Forall (fun c => callErr c = None) cs <-> err = None)
  /\ (err = None ->
      (scaleCalls cs).*1 = List.filter nonzero todo
      /\ n = fold_left (fun t rs => add32 t (SpecReplicas rs))
               (List.filter nonzero todo) total).
Proof.
  induction 1 as [total | rs todo total cs n err E _ IH
                 | rs todo total changed updated e E
                 | rs todo total changed updated cs n err E _ IH].
  - split; [split; [reflexivity | constructor] | intros _; by split].
  - by rewrite filter_nonzero_skip.
  - split; [|discriminate].
    split; [|discriminate]. intros Hall. by apply Forall_inv in Hall.
  - rewrite filter_nonzero_keep by done. cbn.
    destruct IH as (Herr & Hsum). split.
    + rewrite <- Herr. split.
      * intros Hall. by apply Forall_inv_tail in Hall.
      * intros Hall. by constructor.
    + intros ->. destruct (Hsum eq_refl) as (-> & ->). by split.
Qed.

Lemma scaleDownOldReplicaSetsForBlueGreen_noop allRSs oldRSs rollout (st : State W) :
  GetAvailableReplicaCountForReplicaSets allRSs <= GetRolloutReplicasOrDefault rollout ->
  scaleDownOldReplicaSetsForBlueGreen allRSs oldRSs rollout st = (Some (0, None), st).
Proof.
  intros Hle. unfold scaleDownOldReplicaSetsForBlueGreen.
  destruct (Z.leb_spec (GetAvailableReplicaCountForReplicaSets allRSs)
                       (GetRolloutReplicasOrDefault rollout)); [reflexivity | lia].
Qed.

Lemma scaleDownOldReplicaSetsForBlueGreen_surplus allRSs oldRSs rollout (st : State W) :
  GetRolloutReplicasOrDefault rollout < GetAvailableReplicaCountForReplicaSets allRSs ->
  scaleDownOldReplicaSetsForBlueGreen allRSs oldRSs rollout st
  = scaleDownOldReplicaSetsForBlueGreen_loop rollout
      (sortByCreationTimestamp oldRSs) 0 st.
Proof.
  intros Hlt. unfold scaleDownOldReplicaSetsForBlueGreen.
  destruct (Z.leb_spec (GetAvailableReplicaCountForReplicaSets allRSs)
                       (GetRolloutReplicasOrDefault rollout)); [lia | reflexivity].
Qed.

(** The step always returns, and what it does is a run of the loop over the
    sorted old groups, or nothing. *)
Lemma scaleDownOldReplicaSetsForBlueGreen_run allRSs oldRSs rollout (st : State W) :
  exists n err w cs,
    scaleDownOldReplicaSetsForBlueGreen allRSs oldRSs rollout st
    = (Some (n, err), mkState w (calls st ++ cs))
    /\ ((cs = [] /\ n = 0 /\ err = None /\ w = world st)
        \/ (GetRolloutReplicasOrDefault rollout
              < GetAvailableReplicaCountForReplicaSets allRSs
            /\ ScaleDownRun rollout (sortByCreationTimestamp oldRSs) 0 cs n err)).
Proof.
  destruct (Z.le_gt_cases (GetAvailableReplicaCountForReplicaSets allRSs)
                          (GetRolloutReplicasOrDefault rollout)) as [Hle|Hgt].
  - exists 0, None, (world st), [].
    rewrite scaleDownOldReplicaSetsForBlueGreen_noop, app_nil_r, state_eta by exact Hle.
    split; [reflexivity | left; tauto].
  - rewrite scaleDownOldReplicaSetsForBlueGreen_surplus by exact Hgt.
    destruct (scaleDownOldReplicaSetsForBlueGreen_loop_run rollout
                (sortByCreationTimestamp oldRSs) 0 st) as (n & err & w & cs & Hrun & Htr).
    exists n, err, w, cs. split; [exact Hrun | right; by split].
Qed.

(** C1. Capacity safety of the safe scale-down step.  Unless the total
    available count of the full group set is strictly above the rollout's
    replica count, the step returns 0 and leaves the state as it was: no
    call, no change of the cluster.  The step never touches an available
    count, so whenever it does change the state the total available count
    of the full group set is at least (in fact above) the replica count. *)
Theorem scaleDownOldReplicaSetsForBlueGreen_capacity_safety
    (allRSs oldRSs : list ReplicaSet) (rollout : Rollout) (st : State W) :
  let available := GetAvailableReplicaCountForReplicaSets allRSs in
  let desired := GetRolloutReplicasOrDefault rollout in
  let out := scaleDownOldReplicaSetsForBlueGreen allRSs oldRSs rollout st in
  (~ desired < available -> out = (Some (0, None), st))
  /\ (out.2 = st \/ desired <= available)
  /\ (callsOf (scaleDownOldReplicaSetsForBlueGreen allRSs oldRSs rollout) st <> []
      -> desired < available).
Proof.
  cbv zeta. split; [|split].
  - intros Hn. apply scaleDownOldReplicaSetsForBlueGreen_noop. lia.
  - destruct (Z.le_gt_cases (GetAvailableReplicaCountForReplicaSets allRSs)
                            (GetRolloutReplicasOrDefault rollout)) as [Hle|Hgt].
    + left. by rewrite scaleDownOldReplicaSetsForBlueGreen_noop.
    + right. lia.
  - intros Hcalls.
    destruct (Z.le_gt_cases (GetAvailableReplicaCountForReplicaSets allRSs)
                            (GetRolloutReplicasOrDefault rollout)) as [Hle|Hgt];
      [|lia].
    exfalso. apply Hcalls, callsOf_nil.
    by rewrite scaleDownOldReplicaSetsForBlueGreen_noop.
Qed.

Lemma sum_sorted_nonzero oldRSs :
  sumZ (SpecReplicas <$> List.filter nonzero (sortByCreationTimestamp oldRSs))
  = sumZ (SpecReplicas <$> List.filter nonzero oldRSs).
Proof.
  rewrite !sumZ_filter_nonzero. apply sumZ_Permutation.
  apply fmap_Permutation, sortByCreationTimestamp_perm.
Qed.

(** C10, as amended.  When the surplus precondition holds, the step
    returns; it returns a nil error exactly when no call it made returned an
    error; and then it made one call for each old group with a nonzero
    desired count and returns the int32 sum of these desired counts,
    whatever the collaborator replied as changed flag. *)
Theorem scaleDownOldReplicaSetsForBlueGreen_accounting
    (allRSs oldRSs : list ReplicaSet) (rollout : Rollout) (st : State W) :
  GetRolloutReplicasOrDefault rollout
    < GetAvailableReplicaCountForReplicaSets allRSs ->
  exists n err st',
    scaleDownOldReplicaSetsForBlueGreen allRSs oldRSs rollout st
    = (Some (n, err), st')
    /\ (Forall (fun c => callErr c = None)
          (callsOf (scaleDownOldReplicaSetsForBlueGreen allRSs oldRSs rollout) st)
        <-> err = None)
    /\ (err = None ->
        n = wrap32 (sumZ (SpecReplicas <$> List.filter nonzero oldRSs))
        /\ n = GetReplicaCountForReplicaSets (List.filter nonzero oldRSs)
        /\ (scaleCalls
              (callsOf (scaleDownOldReplicaSetsForBlueGreen allRSs oldRSs rollout) st)).*1
           = List.filter nonzero (sortByCreationTimestamp oldRSs)).
Proof.
  intros Hgt.
  pose proof (scaleDownOldReplicaSetsForBlueGreen_surplus allRSs oldRSs rollout st Hgt)
    as Hloop.
  destruct (scaleDownOldReplicaSetsForBlueGreen_loop_run rollout
              (sortByCreationTimestamp oldRSs) 0 st)
    as (n & err & w & cs & Hrun & Htr).
  rewrite <- Hloop in Hrun.
  exists n, err, (mkState w (calls st ++ cs)).
  rewrite (callsOf_eq _ st cs) by (by rewrite Hrun).
  apply ScaleDownRun_total in Htr as (Herr & Hsum).
  split; [exact Hrun|]. split; [exact Herr|].
  intros ->. destruct (Hsum eq_refl) as (Htargets & ->).
  rewrite GetReplicaCountForReplicaSets_sum, fold_add32_0, sum_sorted_nonzero.
  by repeat split.
Qed.
End ScaleDown.

(** ** Unhealthy eviction step *)

Lemma unhealthy_true rs :
  unhealthy rs = true
  <-> SpecReplicas rs <> 0 /\ SpecReplicas rs <> StatusAvailableReplicas rs.
Proof.
  unfold unhealthy, nonzero.
  destruct (Z.eqb_spec (SpecReplicas rs) 0),
           (Z.eqb_spec (SpecReplicas rs) (StatusAvailableReplicas rs));
    cbn; intuition congruence.
Qed.

Lemma unhealthy_false rs :
  unhealthy rs = false
  <-> SpecReplicas rs = 0 \/ SpecReplicas rs = StatusAvailableReplicas rs.
Proof.
  unfold unhealthy, nonzero.
  destruct (Z.eqb_spec (SpecReplicas rs) 0),
           (Z.eqb_spec (SpecReplicas rs) (StatusAvailableReplicas rs));
    cbn; intuition congruence.
Qed.

Section Eviction.
Context {W : Type} `{!Collaborators W} `{!ByCreationTimestamp}.

Lemma cleanupUnhealthyReplicas_loop_run rollout todo :
  forall done total (st : State W),
  exists out w cs,
    cleanupUnhealthyReplicas_loop rollout done todo total st
    = (Some out, mkState w (calls st ++ cs))
    /\ EvictionRun rollout done todo total cs out.
Proof.
  induction todo as [|rs todo IH]; intros done total st;
    cbn [cleanupUnhealthyReplicas_loop].
  - exists (done, total, None), (world st), []. rewrite app_nil_r, state_eta.
    split; [reflexivity | constructor].
  - destruct (Z.eqb_spec (SpecReplicas rs) 0) as [E0|E0].
    { destruct (IH (done ++ [rs]) total st) as (out & w & cs & Hrun & Htr).
      exists out, w, cs. split; [exact Hrun|].
      apply EvictionRun_skip; [apply unhealthy_false; by left | exact Htr]. }
    destruct (Z.eqb_spec (SpecReplicas rs) (StatusAvailableReplicas rs)) as [Ea|Ea].
    { destruct (IH (done ++ [rs]) total st) as (out & w & cs & Hrun & Htr).
      exists out, w, cs. split; [exact Hrun|].
      apply EvictionRun_skip; [apply unhealthy_false; by right | exact Htr]. }
    assert (Hu : unhealthy rs = true) by (by apply unhealthy_true).
    destruct (Z.gtb_spec (StatusAvailableReplicas rs) (SpecReplicas rs)) as [Hgt|Hle].
    { eexists _, (world st), []. rewrite app_nil_r, state_eta.
      split; [reflexivity|]. by apply EvictionRun_invalid. }
    unfold bind. rewrite scaleReplicaSetAndRecordEvent_run. unfold afterScale.
    destruct (do_scaleReplicaSetAndRecordEvent rs (StatusAvailableReplicas rs)
                rollout (world st)) as [[[changed updated] [e|]] w1]; cbn [fst snd].
    + eexists _, w1, [_]. split; [reflexivity|]. by apply EvictionRun_fail.
    + match goal with
      | |- context [cleanupUnhealthyReplicas_loop _ ?d _ ?t ?s] =>
          destruct (IH d t s) as (out & w & cs & Hrun & Htr)
      end.
      cbn [calls] in Hrun. rewrite <- app_assoc in Hrun.
      eexists out, w, (_ :: cs). split; [exact Hrun|]. by apply EvictionRun_evict.
Qed.

Lemma evicts_cons rollout rs l c : evicts rollout l c -> evicts rollout (rs :: l) c.
Proof.
  intros (rs' & reply & -> & Hin & Hu & Hle).
  exists rs', reply. repeat split; try assumption. by apply list_elem_of_further.
Qed.

Lemma EvictionRun_calls rollout done todo total cs out :
  EvictionRun rollout done todo total cs out ->
  Forall (evicts rollout todo) cs.
Proof.
  induction 1 as [ | done rs todo total cs out Hu _ IH | | done rs todo total changed updated e Hu Hle
                 | done rs todo total changed updated cs out Hu Hle _ IH ].
  - constructor.
  - eapply Forall_impl; [exact IH | apply evicts_cons].
  - constructor.
  - constructor; [|constructor].
    exists rs, (changed, updated, Some e). repeat split; try assumption.
    apply list_elem_of_here.
  - constructor.
    + exists rs, (changed, updated, None). repeat split; try assumption.
      apply list_elem_of_here.
    + eapply Forall_impl; [exact IH | apply evicts_cons].
Qed.

Lemma EvictionRun_prefix rollout done todo total cs out :
  EvictionRun rollout done todo total cs out ->
  (scaleCalls cs).*1 `prefix_of` List.filter unhealthy todo.
Proof.
  induction 1 as [ | done rs todo total cs out Hu _ IH | done rs todo total Hu Hlt
                 | done rs todo total changed updated e Hu Hle
                 | done rs todo total changed updated cs out Hu Hle _ IH ];
    cbn [List.filter scaleCalls fmap list_fmap]; try rewrite Hu.
  - apply prefix_nil.
  - exact IH.
  - apply prefix_nil.
  - apply prefix_cons, prefix_nil.
  - by apply prefix_cons.
Qed.

Lemma EvictionRun_ok rollout done todo total cs out :
  EvictionRun rollout done todo total cs out ->
  out.2 = None ->
  Forall (fun c => callErr c = None) cs
  /\ scaleCalls cs
     = (fun rs => (rs, StatusAvailableReplicas rs)) <$> List.filter unhealthy todo
  /\ out.1.2
     = fold_left
         (fun t rs => add32 t (sub32 (SpecReplicas rs) (StatusAvailableReplicas rs)))
         (List.filter unhealthy todo) total
  /\ exists rss, out.1.1 = done ++ rss /\ Forall2 keptUnlessEvicted todo rss.
Proof.
  induction 1 as [ done total | done rs todo total cs out Hu _ IH | done rs todo total Hu Hlt
                 | done rs todo total changed updated e Hu Hle
                 | done rs todo total changed updated cs out Hu Hle _ IH ];
    cbn [List.filter scaleCalls fmap list_fmap fst snd]; try rewrite Hu;
    intros Hnone; try discriminate.
  - repeat split; try constructor. exists []. by rewrite app_nil_r.
  - destruct (IH Hnone) as (Hall & Hcalls & Hn & rss & Hrss & Hkept).
    repeat split; try assumption.
    exists (rs :: rss). split.
    + by rewrite Hrss, <- app_assoc.
    + constructor; [by intros _ | exact Hkept].
  - destruct (IH Hnone) as (Hall & Hcalls & Hn & rss & Hrss & Hkept).
    repeat split.
    + by constructor.
    + cbn [fold_left list_fmap]. by rewrite Hcalls.
    + exact Hn.
    + exists (updated :: rss). split.
      * by rewrite Hrss, <- app_assoc.
      * constructor; [|exact Hkept]. intros Hf. congruence.
Qed.

Lemma EvictionRun_error rollout done todo total cs out e :
  EvictionRun rollout done todo total cs out ->
  out.2 = Some e ->
  out.1.1 = []
  /\ ((exists c, c ∈ cs /\ callErr c = Some e)
      \/ (Forall (fun c => callErr c = None) cs
          /\ out.1.2 = 0
          /\ exists rs,
               rs ∈ todo /\ unhealthy rs = true
               /\ SpecReplicas rs < StatusAvailableReplicas rs
               /\ e = invalidScaleDownError rs (StatusAvailableReplicas rs))).
Proof.
  induction 1 as [ done total | done rs todo total cs out Hu _ IH | done rs todo total Hu Hlt
                 | done rs todo total changed updated e' Hu Hle
                 | done rs todo total changed updated cs out Hu Hle _ IH ];
    cbn [fst snd]; intros Herr; try discriminate.
  - destruct (IH Herr) as (Hnil & [Hcall | (Hall & H0 & rs' & Hin & Hrest)]);
      (split; [exact Hnil|]); [by left | right].
    repeat split; try assumption.
    exists rs'. split; [by apply list_elem_of_further | exact Hrest].
  - injection Herr as <-. split; [reflexivity|]. right.
    repeat split; [constructor|].
    exists rs. repeat split; try assumption. apply list_elem_of_here.
  - injection Herr as <-. split; [reflexivity|]. left.
    eexists. split; [apply list_elem_of_here | reflexivity].
  - destruct (IH Herr) as (Hnil & [(c & Hc & Hce) | (Hall & H0 & rs' & Hin & Hrest)]);
      (split; [exact Hnil|]); [left | right].
    + exists c. split; [by apply list_elem_of_further | exact Hce].
    + repeat split; try assumption; [by constructor|].
      exists rs'. split; [by apply list_elem_of_further | exact Hrest].
Qed.

(** If no error comes back, no group asked for more units than it had. *)
Lemma EvictionRun_ok_valid rollout done todo total cs out :
  EvictionRun rollout done todo total cs out ->
  out.2 = None ->
  Forall (fun rs => unhealthy rs = true ->
                    StatusAvailableReplicas rs <= SpecReplicas rs) todo.
Proof.
  induction 1 as [ done total | done rs todo total cs out Hu _ IH | done rs todo total Hu Hlt
                 | done rs todo total changed updated e' Hu Hle
                 | done rs todo total changed updated cs out Hu Hle _ IH ];
    cbn [fst snd]; intros Hnone; try discriminate.
  - constructor.
  - constructor; [congruence | by apply IH].
  - constructor; [by intros _ | by apply IH].
Qed.

Lemma cleanupUnhealthyReplicas_run oldRSs rollout (st : State W) :
  exists out w cs,
    cleanupUnhealthyReplicas oldRSs rollout st
    = (Some out, mkState w (calls st ++ cs))
    /\ EvictionRun rollout [] (sortByCreationTimestamp oldRSs) 0 cs out.
Proof. apply cleanupUnhealthyReplicas_loop_run. Qed.

Lemma scaleCalls_elem_of cs rs n :
  (rs, n) ∈ scaleCalls cs ->
  exists r reply, CallScaleReplicaSetAndRecordEvent rs n r reply ∈ cs.
Proof.
  induction cs as [|c cs IH]; cbn [scaleCalls]; [by intros ?%elem_of_nil|].
  destruct c; try (intros (r' & reply & Hin)%IH; exists r', reply;
                   by apply list_elem_of_further).
  intros [[= <- <-] | Hin]%elem_of_cons.
  - eexists _, _. apply list_elem_of_here.
  - destruct (IH Hin) as (r' & reply & Hin'). exists r', reply.
    by apply list_elem_of_further.
Qed.

(** C4. Monotonic eviction.  The step returns.  Every call it makes scales
    one of the old groups that has a nonzero desired count different from
    its available count down to that available count, which is not above
    the desired count; the other groups are skipped and stay in the
    collection as they are.  When it returns no error, it has done so for
    each such group, oldest first.  A group whose available count is above
    its desired count is never applied: the step returns an error, and when
    no call failed this is the invalid-request error of such a group,
    returned with an empty collection and a zero count. *)
Theorem cleanupUnhealthyReplicas_monotonic
    (oldRSs : list ReplicaSet) (rollout : Rollout) (st : State W) :
  exists rss total err st',
    cleanupUnhealthyReplicas oldRSs rollout st = (Some (rss, total, err), st')
    /\ let cs := callsOf (cleanupUnhealthyReplicas oldRSs rollout) st in
       Forall (evicts rollout oldRSs) cs
       /\ (err = None ->
           scaleCalls cs
           = (fun rs => (rs, StatusAvailableReplicas rs))
               <$> List.filter unhealthy (sortByCreationTimestamp oldRSs)
           /\ Forall2 keptUnlessEvicted (sortByCreationTimestamp oldRSs) rss)
       /\ (forall rs,
             rs ∈ oldRSs -> unhealthy rs = true ->
             SpecReplicas rs < StatusAvailableReplicas rs ->
             (rs ∉ (scaleCalls cs).*1)
             /\ err <> None
             /\ (Forall (fun c => callErr c = None) cs ->
                 rss = [] /\ total = 0
                 /\ exists bad,
                      bad ∈ oldRSs /\ unhealthy bad = true
                      /\ SpecReplicas bad < StatusAvailableReplicas bad
                      /\ err = Some (invalidScaleDownError bad
                                       (StatusAvailableReplicas bad)))).
Proof.
  destruct (cleanupUnhealthyReplicas_run oldRSs rollout st)
    as ([[rss total] err] & w & cs & Hrun & Htr).
  exists rss, total, err, (mkState w (calls st ++ cs)).
  split; [exact Hrun|]. cbv zeta.
  rewrite (callsOf_eq _ st cs) by (by rewrite Hrun).
  assert (Hcalls : Forall (evicts rollout oldRSs) cs).
  { eapply Forall_impl; [exact (EvictionRun_calls _ _ _ _ _ _ Htr)|].
    intros c (rs & reply & -> & Hin & Hu & Hle). exists rs, reply.
    repeat split; try assumption.
    by rewrite <- (sortByCreationTimestamp_perm oldRSs). }
  split; [exact Hcalls|]. split.
  - intros ->.
    destruct (EvictionRun_ok _ _ _ _ _ _ Htr eq_refl)
      as (_ & Hsc & _ & rss' & Hrss & Hkept).
    cbn in Hrss. subst rss'. by split.
  - intros rs Hin Hu Hlt. split; [|split].
    + intros ((rs' & n) & [= ->] & Hp)%list_elem_of_fmap.
      apply scaleCalls_elem_of in Hp as (r' & reply & Hc).
      rewrite Forall_forall in Hcalls.
      destruct (Hcalls _ Hc) as (rs'' & reply' & [= -> -> -> ->] & _ & _ & Hle).
      lia.
    + intros ->.
      pose proof (EvictionRun_ok_valid _ _ _ _ _ _ Htr eq_refl) as Hvalid.
      rewrite Forall_forall in Hvalid.
      rewrite <- (sortByCreationTimestamp_perm oldRSs) in Hin.
      specialize (Hvalid rs Hin Hu). lia.
    + intros Hall. destruct err as [e|].
      * destruct (EvictionRun_error _ _ _ _ _ _ e Htr eq_refl)
          as (Hnil & [(c & Hc & Hce) | (_ & H0 & bad & Hbin & Hbu & Hblt & ->)]).
        -- rewrite Forall_forall in Hall. rewrite (Hall c Hc) in Hce. discriminate.
        -- cbn in Hnil, H0. repeat split; try assumption.
           exists bad. repeat split; try assumption.
           by rewrite <- (sortByCreationTimestamp_perm oldRSs).
      * exfalso.
        pose proof (EvictionRun_ok_valid _ _ _ _ _ _ Htr eq_refl) as Hvalid.
        rewrite Forall_forall in Hvalid.
        rewrite <- (sortByCreationTimestamp_perm oldRSs) in Hin.
        specialize (Hvalid rs Hin Hu). lia.
Qed.
End Eviction.

(** ** Oldest first *)

Lemma StronglySorted_sublist {A} (R : relation A) (l1 l2 : list A) :
  l1 `sublist_of` l2 -> StronglySorted R l2 -> StronglySorted R l1.
Proof.
  induction 1 as [|x l1 l2 Hsub IH|x l1 l2 Hsub IH]; intros Hs.
  - constructor.
  - apply StronglySorted_inv in Hs as [Hs Hx]. constructor; [by apply IH|].
    rewrite Forall_forall in *. intros y Hy. apply Hx.
    by eapply elem_of_sublist.
  - apply StronglySorted_inv in Hs as [Hs _]. by apply IH.
Qed.

Lemma List_filter_sublist {A} (f : A -> bool) (l : list A) :
  List.filter f l `sublist_of` l.
Proof.
  induction l as [|x l IH]; cbn [List.filter]; [constructor|].
  destruct (f x); by constructor.
Qed.

Lemma prefix_filter_sublist {A} (f : A -> bool) (l1 l : list A) :
  l1 `prefix_of` List.filter f l -> l1 `sublist_of` l.
Proof.
  intros [k Hk]. transitivity (List.filter f l); [|apply List_filter_sublist].
  rewrite Hk. apply sublist_inserts_r. reflexivity.
Qed.

#[local] Instance olderOrSame_trans : Transitive olderOrSame.
Proof. intros a b c. unfold olderOrSame. lia. Qed.

Lemma Sorted_older (l : list ReplicaSet) :
  Sorted olderOrSame l -> NoDup (CreationTimestamp <$> l) -> StronglySorted older l.
Proof.
  intros Hs%Sorted_StronglySorted; [|apply _].
  induction Hs as [|x l Hs IH Hx]; intros Hnd; [constructor|].
  rewrite fmap_cons in Hnd. apply NoDup_cons in Hnd as [Hnin Hnd].
  constructor; [by apply IH|].
  rewrite Forall_forall in *. intros y Hy.
  specialize (Hx y Hy). unfold olderOrSame, older in *.
  assert (CreationTimestamp x <> CreationTimestamp y); [|lia].
  intros Heq. apply Hnin. rewrite Heq. by apply list_elem_of_fmap_2.
Qed.

Section Ordering.
Context {W : Type} `{!Collaborators W} `{!ByCreationTimestamp}.

Lemma sorted_strictly (oldRSs : list ReplicaSet) :
  NoDup (CreationTimestamp <$> oldRSs) ->
  StronglySorted older (sortByCreationTimestamp oldRSs).
Proof.
  intros Hnd. apply Sorted_older; [apply sortByCreationTimestamp_sorted|].
  by rewrite (sortByCreationTimestamp_perm oldRSs).
Qed.

(** C8. Oldest first.  When the old groups have distinct creation
    timestamps, the groups that the eviction step scales, in the order of
    its calls, and the groups that the scale-down step scales, in the order
    of its calls, are in strictly increasing order of creation timestamp. *)
Theorem old_groups_oldest_first
    (allRSs oldRSs : list ReplicaSet) (rollout : Rollout) (st : State W) :
  NoDup (CreationTimestamp <$> oldRSs) ->
  StronglySorted older
    (scaleCalls (callsOf (cleanupUnhealthyReplicas oldRSs rollout) st)).*1
  /\ StronglySorted older
       (scaleCalls
          (callsOf (scaleDownOldReplicaSetsForBlueGreen allRSs oldRSs rollout) st)).*1.
Proof.
  intros Hnd. pose proof (sorted_strictly oldRSs Hnd) as Hsorted. split.
  - destruct (cleanupUnhealthyReplicas_run oldRSs rollout st)
      as (out & w & cs & Hrun & Htr).
    rewrite (callsOf_eq _ st cs) by (by rewrite Hrun).
    eapply StronglySorted_sublist; [|exact Hsorted].
    eapply prefix_filter_sublist, EvictionRun_prefix, Htr.
  - destruct (scaleDownOldReplicaSetsForBlueGreen_run allRSs oldRSs rollout st)
      as (n & err & w & cs & Hrun & [(-> & _) | (_ & Htr)]).
    + rewrite (callsOf_eq _ st []) by (by rewrite Hrun). constructor.
    + rewrite (callsOf_eq _ st cs) by (by rewrite Hrun).
      eapply StronglySorted_sublist; [|exact Hsorted].
      eapply prefix_filter_sublist.
      apply (ScaleDownRun_targets _ _ _ _ _ _ Htr).
Qed.
End Ordering.


(** ** The pass as a linear state machine *)

Section MachineFacts.
Context {W : Type}.

Lemma runSteps_stop sync pre step post (st stk st' : State W) :
  allContinue pre st = Some stk ->
  step stk = (Some SyncAndStop, st') ->
  runSteps sync (pre ++ step :: post) st = sync st'.
Proof.
  revert st. induction pre as [|s pre IH]; intros st; cbn [allContinue app runSteps].
  - intros [= ->] Hs. unfold bind. by rewrite Hs.
  - unfold bind. destruct (s st) as [[[]|] st0]; try discriminate.
    intros Hc Hs. by apply IH.
Qed.

Lemma runSteps_abort sync pre step post (st stk st' : State W) e :
  allContinue pre st = Some stk ->
  step stk = (Some (Abort e), st') ->
  runSteps sync (pre ++ step :: post) st = (Some (Some e), st').
Proof.
  revert st. induction pre as [|s pre IH]; intros st; cbn [allContinue app runSteps].
  - intros [= ->] Hs. unfold bind. by rewrite Hs.
  - unfold bind. destruct (s st) as [[[]|] st0]; try discriminate.
    intros Hc Hs. by apply IH.
Qed.

Lemma runSteps_through sync steps (st st' : State W) :
  allContinue steps st = Some st' ->
  runSteps sync steps st = sync st'.
Proof.
  revert st. induction steps as [|s steps IH]; intros st; cbn [allContinue runSteps].
  - by intros [= ->].
  - unfold bind. destruct (s st) as [[[]|] st0]; try discriminate. apply IH.
Qed.
End MachineFacts.

Section Orchestrator.
Context {W : Type} `{!Collaborators W} `{!ByCreationTimestamp}.

Lemma rolloutBlueGreen_machine r rsList (st st0 st1 : State W)
    newRS oldRSs previewSvc activeSvc :
  getAllReplicaSetsAndSyncRevision r rsList true st
    = (Some (newRS, oldRSs, None), st0) ->
  getPreviewAndActiveServices r st0 = (Some (previewSvc, activeSvc, None), st1) ->
  rolloutBlueGreen r rsList st
  = runSteps (syncRolloutStatus (oldRSs ++ [newRS]) newRS previewSvc activeSvc r)
      (passSteps r newRS oldRSs previewSvc activeSvc) st1.
Proof.
  intros H0 H1. unfold rolloutBlueGreen, passSteps.
  rewrite bind_eq, H0, bind_eq, H1. cbn [runSteps].
  unfold stepScaleNewUp, stepPreviewCutover, stepVerifyGate, stepActiveCutover,
    stepScaleOldDown, stepCleanup.
  repeat first
    [ reflexivity
    | rewrite bind_eq
    | progress cbn [ret verdict fst snd eval]
    | match goal with
      | |- context [match ?x with _ => _ end] => destruct x
      end ].
Qed.

(** With collaborators that report their changes, a step of the first four
    that asks to go on has left the cluster as it was. *)
Lemma stepScaleNewUp_continue r newRS oldRSs (st st' : State W) :
  reportsChanges ->
  stepScaleNewUp r newRS oldRSs st = (Some Continue, st') ->
  world st' = world st.
Proof.
  intros (Hscale & _). unfold stepScaleNewUp. rewrite bind_eq.
  destruct (reconcileNewReplicaSet_cases (oldRSs ++ [newRS]) newRS r st)
    as [[err ->] | [n ->]]; cbn [ret].
  - by intros [= _ ->].
  - unfold reported, afterScale, verdict.
    destruct (do_scaleReplicaSetAndRecordEvent newRS n r (world st))
      as [[[changed updated] [e|]] w'] eqn:E; cbn [fst snd]; [discriminate|].
    destruct changed; [discriminate|]. intros [= <-]. cbn [world].
    by eapply Hscale.
Qed.

Lemma stepPreviewCutover_continue r newRS previewSvc activeSvc (st st' : State W) :
  reportsChanges ->
  stepPreviewCutover r newRS previewSvc activeSvc st = (Some Continue, st') ->
  world st' = world st.
Proof.
  intros (_ & Hpreview & _). unfold stepPreviewCutover.
  destruct previewSvc as [p|]; [|by intros [= ->]].
  rewrite bind_eq. unfold reconcilePreviewService. rewrite call_run. cbn [ret].
  unfold verdict.
  destruct (do_reconcilePreviewService r newRS (Some p) activeSvc (world st))
    as [[switched [e|]] w'] eqn:E; cbn [fst snd]; [discriminate|].
  destruct switched; [discriminate|]. intros [= <-]. cbn [world].
  by eapply Hpreview.
Qed.

Lemma stepVerifyGate_state r previewSvc activeSvc (st st' : State W) o :
  stepVerifyGate r previewSvc activeSvc st = (o, st') -> st' = st.
Proof.
  unfold stepVerifyGate. destruct previewSvc; [|by intros [= _ ->]].
  rewrite bind_eq. unfold eval.
  destruct (reconcileVerifyingPreview activeSvc r); by intros [= _ ->].
Qed.

Lemma stepActiveCutover_continue r newRS previewSvc activeSvc (st st' : State W) :
  reportsChanges ->
  stepActiveCutover r newRS previewSvc activeSvc st = (Some Continue, st') ->
  world st' = world st.
Proof.
  intros (_ & _ & Hactive). unfold stepActiveCutover.
  rewrite bind_eq. unfold reconcileActiveService. rewrite call_run. cbn [ret].
  unfold verdict.
  destruct (do_reconcileActiveService r newRS previewSvc activeSvc (world st))
    as [[switched [e|]] w'] eqn:E; cbn [fst snd]; [discriminate|].
  destruct switched; [discriminate|]. intros [= <-]. cbn [world].
  by eapply Hactive.
Qed.

Lemma before_ScaleOldDown_unchanged r newRS oldRSs previewSvc activeSvc
    (k : nat) (st1 stk : State W) :
  reportsChanges ->
  (k <= 4)%nat ->
  allContinue (take k (passSteps r newRS oldRSs previewSvc activeSvc)) st1 = Some stk ->
  world stk = world st1.
Proof.
  intros Hrep Hk. unfold passSteps.
  assert (k = 0 \/ k = 1 \/ k = 2 \/ k = 3 \/ k = 4)%nat
    as [-> | [-> | [-> | [-> | ->]]]] by lia;
    cbn [take allContinue].
  - by intros [= ->].
  - destruct (stepScaleNewUp _ _ _ _) as [[[]|] s1] eqn:E1; try discriminate.
    intros [= <-]. by eapply stepScaleNewUp_continue.
  - destruct (stepScaleNewUp _ _ _ _) as [[[]|] s1] eqn:E1; try discriminate.
    destruct (stepPreviewCutover _ _ _ _ _) as [[[]|] s2] eqn:E2; try discriminate.
    intros [= <-].
    rewrite (stepPreviewCutover_continue _ _ _ _ _ _ Hrep E2).
    by eapply stepScaleNewUp_continue.
  - destruct (stepScaleNewUp _ _ _ _) as [[[]|] s1] eqn:E1; try discriminate.
    destruct (stepPreviewCutover _ _ _ _ _) as [[[]|] s2] eqn:E2; try discriminate.
    destruct (stepVerifyGate _ _ _ _) as [[[]|] s3] eqn:E3; try discriminate.
    intros [= <-].
    rewrite (stepVerifyGate_state _ _ _ _ _ _ E3).
    rewrite (stepPreviewCutover_continue _ _ _ _ _ _ Hrep E2).
    by eapply stepScaleNewUp_continue.
  - destruct (stepScaleNewUp _ _ _ _) as [[[]|] s1] eqn:E1; try discriminate.
    destruct (stepPreviewCutover _ _ _ _ _) as [[[]|] s2] eqn:E2; try discriminate.
    destruct (stepVerifyGate _ _ _ _) as [[[]|] s3] eqn:E3; try discriminate.
    destruct (stepActiveCutover _ _ _ _ _) as [[[]|] s4] eqn:E4; try discriminate.
    intros [= <-].
    rewrite (stepActiveCutover_continue _ _ _ _ _ _ Hrep E4).
    rewrite (stepVerifyGate_state _ _ _ _ _ _ E3).
    rewrite (stepPreviewCutover_continue _ _ _ _ _ _ Hrep E2).
    by eapply stepScaleNewUp_continue.
Qed.

Lemma rolloutBlueGreen_fetch r rsList (st : State W) :
  (exists e st', fetchFailed r rsList st e st'
                 /\ rolloutBlueGreen r rsList st = (Some (Some e), st'))
  \/ (exists newRS oldRSs previewSvc activeSvc st1,
        fetched r rsList st newRS oldRSs previewSvc activeSvc st1).
Proof.
  destruct (getAllReplicaSetsAndSyncRevision r rsList true st)
    as [[[[newRS oldRSs] [e|]]|] st0] eqn:H0.
  - left. exists e, st0. split; [left; by eexists _, _|].
    unfold rolloutBlueGreen. by rewrite bind_eq, H0.
  - destruct (getPreviewAndActiveServices r st0)
      as [[[[previewSvc activeSvc] [e|]]|] st1] eqn:H1.
    + left. exists e, st1. split; [right; by eexists _, _, _, _, _|].
      unfold rolloutBlueGreen. by rewrite bind_eq, H0, bind_eq, H1.
    + right. exists newRS, oldRSs, previewSvc, activeSvc, st1. by exists st0.
    + unfold getPreviewAndActiveServices in H1. rewrite call_run in H1. discriminate.
  - unfold getAllReplicaSetsAndSyncRevision in H0. rewrite call_run in H0. discriminate.
Qed.

(** C3. Single mutating step.  In every pass either one of the two fetches
    fails and the pass returns its error at once, before any step; or the
    groups and the services are fetched and the pass runs its steps in order
    (scale the new group up, preview cutover, verification gate, active
    cutover, scale the old groups down, cleanup).  Then the first step that
    reports a mutation (or the held gate) is followed by the status sync and
    by nothing else: the pass returns what the sync returns.  When every step
    asks to go on, the status sync runs at the end.  So at most one step
    reports a mutation; and with collaborators that report their changes,
    every step up to the scale-down of the old groups starts on an unchanged
    cluster when the steps before it asked to go on, so at most one of the
    four mutating steps changes the cluster. *)
Theorem rolloutBlueGreen_single_mutating_step
    (r : Rollout) (rsList : list ReplicaSet) (st : State W) :
  (exists e st', fetchFailed r rsList st e st'
                 /\ rolloutBlueGreen r rsList st = (Some (Some e), st'))
  \/ (exists newRS oldRSs previewSvc activeSvc st1,
        fetched r rsList st newRS oldRSs previewSvc activeSvc st1
        /\ let sync :=
             syncRolloutStatus (oldRSs ++ [newRS]) newRS previewSvc activeSvc r in
           let steps := passSteps r newRS oldRSs previewSvc activeSvc in
           (forall pre step post stk st',
               steps = pre ++ step :: post ->
               allContinue pre st1 = Some stk ->
               step stk = (Some SyncAndStop, st') ->
               rolloutBlueGreen r rsList st = sync st')
           /\ (forall st',
                 allContinue steps st1 = Some st' ->
                 rolloutBlueGreen r rsList st = sync st')
           /\ (reportsChanges ->
               forall (k : nat) stk,
                 (k <= 4)%nat ->
                 allContinue (take k steps) st1 = Some stk ->
                 world stk = world st1)).
Proof.
  destruct (rolloutBlueGreen_fetch r rsList st)
    as [Hfailed | (newRS & oldRSs & previewSvc & activeSvc & st1 & Hfetched)];
    [by left | right].
  exists newRS, oldRSs, previewSvc, activeSvc, st1. split; [exact Hfetched|].
  destruct Hfetched as (st0 & H0 & H1). intros sync steps.
  pose proof (rolloutBlueGreen_machine _ _ _ _ _ _ _ _ _ H0 H1) as Hm.
  fold sync steps in Hm. split; [|split].
  - intros pre step post stk st' Hsteps Hpre Hstep.
    rewrite Hm, Hsteps. by eapply runSteps_stop.
  - intros st' Hall. rewrite Hm. by apply runSteps_through.
  - intros Hrep k stk Hk Hpre. by eapply before_ScaleOldDown_unchanged.
Qed.

(** The scale-down of the old groups always returns, never returns an
    error, and only makes scale calls. *)
Lemma reconcileOldReplicaSets_run allRSs oldRSs newRS rollout (st : State W) :
  exists scaledDown w cs,
    reconcileOldReplicaSets allRSs oldRSs newRS rollout st
    = (Some (scaledDown, None), mkState w (calls st ++ cs))
    /\ Forall (fun c => isScale c = true) cs.
Proof.
  unfold reconcileOldReplicaSets.
  destruct (GetReplicaCountForReplicaSets oldRSs =? 0).
  { exists false, (world st), []. rewrite app_nil_r, state_eta. by split. }
  destruct (IsSaturated rollout newRS); cbn [negb].
  2: { exists false, (world st), []. rewrite app_nil_r, state_eta. by split. }
  rewrite bind_eq.
  destruct (cleanupUnhealthyReplicas_run oldRSs rollout st)
    as ([[rss cleanupCount] err] & w1 & cs1 & -> & Htr1).
  assert (Hs1 : Forall (fun c => isScale c = true) cs1).
  { eapply Forall_impl; [exact (EvictionRun_calls _ _ _ _ _ _ Htr1)|].
    by intros c (rs & reply & -> & _). }
  destruct err as [e|]; cbn [ret].
  { by exists false, w1, cs1. }
  rewrite bind_eq.
  destruct (scaleDownOldReplicaSetsForBlueGreen_run (rss ++ [newRS]) rss rollout
              (mkState w1 (calls st ++ cs1)))
    as (n & err & w2 & cs2 & -> & Hcases).
  cbn [calls]. rewrite <- app_assoc.
  assert (Hs2 : Forall (fun c => isScale c = true) cs2).
  { destruct Hcases as [(-> & _) | (_ & Htr2)]; [constructor|].
    apply (ScaleDownRun_targets _ _ _ _ _ _ Htr2). }
  destruct err as [e|]; eexists _, w2, (cs1 ++ cs2);
    (split; [reflexivity | by apply Forall_app]).
Qed.

(** The error of a step that gives up is returned as it is, and ends the
    pass on the spot. *)
Lemma rolloutBlueGreen_step_abort r rsList (st st0 st1 stk st' : State W)
    newRS oldRSs previewSvc activeSvc pre step post e :
  getAllReplicaSetsAndSyncRevision r rsList true st
    = (Some (newRS, oldRSs, None), st0) ->
  getPreviewAndActiveServices r st0 = (Some (previewSvc, activeSvc, None), st1) ->
  passSteps r newRS oldRSs previewSvc activeSvc = pre ++ step :: post ->
  allContinue pre st1 = Some stk ->
  step stk = (Some (Abort e), st') ->
  rolloutBlueGreen r rsList st = (Some (Some e), st').
Proof.
  intros H0 H1 Hsteps Hpre Hstep.
  rewrite (rolloutBlueGreen_machine _ _ _ _ _ _ _ _ _ H0 H1), Hsteps.
  by eapply runSteps_abort.
Qed.

(** The scale-down of the old groups is the one step that cannot give up:
    the errors of its calls are dropped. *)
Lemma stepScaleOldDown_never_aborts r newRS oldRSs (st : State W) :
  exists o st',
    stepScaleOldDown r newRS oldRSs st = (Some o, st')
    /\ (o = Continue \/ o = SyncAndStop).
Proof.
  unfold stepScaleOldDown. rewrite bind_eq.
  destruct (reconcileOldReplicaSets_run (oldRSs ++ [newRS])
              (FilterActiveReplicaSets oldRSs) newRS r st)
    as (scaledDown & w & cs & -> & _).
  cbn [ret verdict fst snd]. unfold verdict. cbn [fst snd].
  destruct scaledDown; eauto.
Qed.

Lemma syncRolloutStatus_run allRSs newRS previewSvc activeSvc r (st : State W) :
  syncRolloutStatus allRSs newRS previewSvc activeSvc r st
  = (Some (do_syncRolloutStatus allRSs newRS previewSvc activeSvc r (world st)).1,
     mkState (do_syncRolloutStatus allRSs newRS previewSvc activeSvc r (world st)).2
       (calls st
        ++ [CallSyncRolloutStatus allRSs newRS previewSvc activeSvc r
              (do_syncRolloutStatus allRSs newRS previewSvc activeSvc r (world st)).1])).
Proof. unfold syncRolloutStatus. by rewrite call_run. Qed.

Lemma scaleCalls_app cs1 cs2 :
  scaleCalls (cs1 ++ cs2) = scaleCalls cs1 ++ scaleCalls cs2.
Proof.
  induction cs1 as [|c cs1 IH]; [reflexivity|].
  destruct c; cbn [app scaleCalls]; by rewrite IH.
Qed.

(** The tail of proofs about the calls of a pass: the pass has been run to
    its end in [Hout]; the calls are listed and the facts read off. *)
Ltac pass_end Hout Hcalls :=
  unfold ret in Hout; injection Hout as <- <-;
  cbn [fst snd calls world];
  rewrite ?Hcalls; rewrite <- ?app_assoc; rewrite drop_app_length;
  cbn [app scaleCalls last].

(** The calls of a pass that the gate holds. *)
Lemma rolloutBlueGreen_gate_calls
    (r : Rollout) (rsList : list ReplicaSet) (st st0 st1 : State W)
    (newRS : ReplicaSet) (oldRSs : list ReplicaSet) (p a : Service) :
  getAllReplicaSetsAndSyncRevision r rsList true st
    = (Some (newRS, oldRSs, None), st0) ->
  getPreviewAndActiveServices r st0 = (Some (Some p, Some a, None), st1) ->
  PreviewService r <> ""%string ->
  is_Some (SpecSelector a !! DefaultRolloutUniqueLabelKey) ->
  VerifyingPreview r = Some true ->
  let cs := callsOf (rolloutBlueGreen r rsList) st in
  Forall (fun c => isActiveCutover c = false /\ isCleanup c = false) cs
  /\ (scaleCalls cs = [] \/ exists n, scaleCalls cs = [(newRS, n)])
  /\ exists err,
       (rolloutBlueGreen r rsList st).1 = Some err
       /\ ((exists c, last cs = Some c /\ isSync c = true /\ callErr c = err)
           \/ (err <> None /\ Forall (fun c => isSync c = false) cs)).
Proof.
  intros H0 H1 Hname Hkey Hver.
  assert (Hgate : reconcileVerifyingPreview (Some a) r = Some true).
  { apply reconcileVerifyingPreview_true. split; [exact Hname|]. split; [|exact Hver].
    by exists a. }
  pose proof (call_inv _ _ _ _ _ H0) as Hc0.
  pose proof (call_inv _ _ _ _ _ H1) as Hc1.
  rewrite Hc0, <- app_assoc in Hc1. cbn [app] in Hc1.
  unfold callsOf.
  destruct (rolloutBlueGreen r rsList st) as [res stf] eqn:Hout.
  rewrite (rolloutBlueGreen_machine _ _ _ _ _ _ _ _ _ H0 H1) in Hout.
  unfold passSteps in Hout. cbn [runSteps] in Hout. rewrite bind_eq in Hout.
  unfold stepScaleNewUp in Hout. rewrite bind_eq in Hout.
  assert (Hrest : forall (s : State W) cs1,
    calls s = calls st ++ cs1 ->
    Forall (fun c => isActiveCutover c = false /\ isCleanup c = false
                     /\ isSync c = false) cs1 ->
    bind (stepPreviewCutover r newRS (Some p) (Some a))
     (fun o => match o with
        | Continue =>
            bind (stepVerifyGate r (Some p) (Some a))
              (fun o0 => match o0 with
                 | Continue =>
                     runSteps
                       (syncRolloutStatus (oldRSs ++ [newRS]) newRS (Some p) (Some a) r)
                       [stepActiveCutover r newRS (Some p) (Some a);
                        stepScaleOldDown r newRS oldRSs; stepCleanup r oldRSs]
                 | SyncAndStop =>
                     syncRolloutStatus (oldRSs ++ [newRS]) newRS (Some p) (Some a) r
                 | Abort e => ret (Some e)
                 end)
        | SyncAndStop =>
            syncRolloutStatus (oldRSs ++ [newRS]) newRS (Some p) (Some a) r
        | Abort e => ret (Some e)
        end) s = (res, stf) ->
    Forall (fun c => isActiveCutover c = false /\ isCleanup c = false)
      (drop (length (calls st)) (calls stf))
    /\ scaleCalls (drop (length (calls st)) (calls stf)) = scaleCalls cs1
    /\ exists err,
         res = Some err
         /\ ((exists c, last (drop (length (calls st)) (calls stf)) = Some c
                        /\ isSync c = true /\ callErr c = err)
             \/ (err <> None
                 /\ Forall (fun c => isSync c = false)
                      (drop (length (calls st)) (calls stf))))).
  { intros s cs1 Hs Hcs1. rewrite bind_eq.
    unfold stepPreviewCutover. rewrite bind_eq.
    unfold reconcilePreviewService. rewrite call_run. cbn [ret].
    unfold verdict.
    assert (Hweak : Forall (fun c => isActiveCutover c = false /\ isCleanup c = false) cs1).
    { eapply Forall_impl; [exact Hcs1 | by intros ? (? & ? & ?)]. }
    assert (Hnosync : Forall (fun c => isSync c = false) cs1).
    { eapply Forall_impl; [exact Hcs1 | by intros ? (? & ? & ?)]. }
    destruct (do_reconcilePreviewService r newRS (Some p) (Some a) (world s))
      as [[switched [e|]] w2]; cbn [fst snd].
    - intros Hend. pass_end Hend Hs.
      split; [apply Forall_app; split; [exact Hweak | by repeat constructor]|].
      split; [rewrite scaleCalls_app; cbn [scaleCalls]; by rewrite app_nil_r|].
      eexists; split; [reflexivity|]. right. split; [discriminate|].
      apply Forall_app; split; [exact Hnosync | by repeat constructor].
    - destruct switched.
      + rewrite syncRolloutStatus_run. intros Hend. pass_end Hend Hs.
        split; [apply Forall_app; split; [exact Hweak | by repeat constructor]|].
        split; [rewrite scaleCalls_app; cbn [scaleCalls]; by rewrite app_nil_r|].
        eexists; split; [reflexivity|]. left.
        eexists. rewrite last_app_cons. cbn [last]. by repeat split.
      + rewrite bind_eq. unfold stepVerifyGate. rewrite bind_eq.
        unfold eval. rewrite Hgate. cbn [ret].
        rewrite syncRolloutStatus_run. intros Hend. pass_end Hend Hs.
        split; [apply Forall_app; split; [exact Hweak | by repeat constructor]|].
        split; [rewrite scaleCalls_app; cbn [scaleCalls]; by rewrite app_nil_r|].
        eexists; split; [reflexivity|]. left.
        eexists. rewrite last_app_cons. cbn [last]. by repeat split. }
  destruct (reconcileNewReplicaSet_cases (oldRSs ++ [newRS]) newRS r st1)
    as [[err Hnew] | [n Hnew]]; rewrite Hnew in Hout; clear Hnew;
    cbn [ret fst snd].
  - unfold verdict at 1 in Hout. cbn [fst snd ret] in Hout. destruct err as [e|].
    + pass_end Hout Hc1.
      split; [by repeat constructor|]. split; [by left|].
      eexists; split; [reflexivity|]. right. split; [discriminate | by repeat constructor].
    + destruct (Hrest st1 _ Hc1 ltac:(by repeat constructor) Hout)
        as (Hno & Hsc & Hres).
      split; [exact Hno|]. split; [left; by rewrite Hsc | exact Hres].
  - unfold reported, afterScale, verdict at 1 in Hout.
    destruct (do_scaleReplicaSetAndRecordEvent newRS n r (world st1))
      as [[[changed updated] [e|]] w2]; cbn [fst snd ret] in Hout.
    + pass_end Hout Hc1.
      split; [by repeat constructor|]. split; [right; by exists n|].
      eexists; split; [reflexivity|]. right. split; [discriminate | by repeat constructor].
    + destruct changed.
      * rewrite syncRolloutStatus_run in Hout. pass_end Hout Hc1.
        split; [by repeat constructor|]. split; [right; by exists n|].
        eexists; split; [reflexivity|]. left. eexists. by repeat split.
      * match type of Hout with
        | _ ?s = _ =>
            assert (Hs : calls s = calls st
              ++ [CallGetAllReplicaSetsAndSyncRevision r rsList true (newRS, oldRSs, None);
                  CallGetPreviewAndActiveServices r (Some p, Some a, None);
                  CallScaleReplicaSetAndRecordEvent newRS n r (false, updated, None)])
              by (cbn [calls]; by rewrite Hc1, <- app_assoc);
            destruct (Hrest s _ Hs ltac:(by repeat constructor) Hout)
              as (Hno & Hsc & Hres)
        end.
        split; [exact Hno|]. split; [right; exists n; by rewrite Hsc | exact Hres].
Qed.
Lemma stepVerifyGate_held r (p a : Service) (st : State W) :
  PreviewService r <> ""%string ->
  is_Some (SpecSelector a !! DefaultRolloutUniqueLabelKey) ->
  VerifyingPreview r = Some true ->
  stepVerifyGate r (Some p) (Some a) st = (Some SyncAndStop, st).
Proof.
  intros Hname Hkey Hver. unfold stepVerifyGate. rewrite bind_eq. unfold eval.
  assert (Hgate : reconcileVerifyingPreview (Some a) r = Some true).
  { apply reconcileVerifyingPreview_true. split; [exact Hname|]. split; [|exact Hver].
    by exists a. }
  by rewrite Hgate.
Qed.

(** C7, as amended.  Gate precedence.  In a pass that finds a preview and
    an active service, on a rollout that names a preview service and is
    verifying its preview, with the revision key in the selector of the
    active service: no call is an active cutover or a cleanup; the only
    scale call there can be is the one of the new group scaler, for the new
    group; the pass returns, either after a status sync, its last call, whose
    error it returns, or, without any sync, with an error; and when the new
    group scaler and the preview cutover report neither a mutation nor an
    error, the pass syncs the status and stops at the gate. *)
Theorem rolloutBlueGreen_gate_precedence
    (r : Rollout) (rsList : list ReplicaSet) (st st1 : State W)
    (newRS : ReplicaSet) (oldRSs : list ReplicaSet) (p a : Service) :
  fetched r rsList st newRS oldRSs (Some p) (Some a) st1 ->
  PreviewService r <> ""%string ->
  is_Some (SpecSelector a !! DefaultRolloutUniqueLabelKey) ->
  VerifyingPreview r = Some true ->
  let cs := callsOf (rolloutBlueGreen r rsList) st in
  Forall (fun c => isActiveCutover c = false /\ isCleanup c = false) cs
  /\ (scaleCalls cs = [] \/ exists n, scaleCalls cs = [(newRS, n)])
  /\ (exists err,
        (rolloutBlueGreen r rsList st).1 = Some err
        /\ ((exists c, last cs = Some c /\ isSync c = true /\ callErr c = err)
            \/ (err <> None /\ Forall (fun c => isSync c = false) cs)))
  /\ (forall stk,
        allContinue [stepScaleNewUp r newRS oldRSs;
                     stepPreviewCutover r newRS (Some p) (Some a)] st1 = Some stk ->
        rolloutBlueGreen r rsList st
        = syncRolloutStatus (oldRSs ++ [newRS]) newRS (Some p) (Some a) r stk).
Proof.
  intros (st0 & H0 & H1) Hname Hkey Hver.
  destruct (rolloutBlueGreen_gate_calls r rsList st st0 st1 newRS oldRSs p a
              H0 H1 Hname Hkey Hver) as (Hcalls & Hscale & Hret).
  cbv zeta. split; [exact Hcalls|]. split; [exact Hscale|]. split; [exact Hret|].
  intros stk Hpre.
  rewrite (rolloutBlueGreen_machine _ _ _ _ _ _ _ _ _ H0 H1). unfold passSteps.
  apply (runSteps_stop _ [_; _] _ [_; _; _] st1 stk stk Hpre).
  by apply stepVerifyGate_held.
Qed.

End Orchestrator.


(** * Further properties of the steps *)

(** ** int32 sums of differences *)

Lemma wrap32_add_r a b : wrap32 (a + wrap32 b) = wrap32 (a + b).
Proof. rewrite (Z.add_comm a), wrap32_add_l. f_equal. lia. Qed.

Lemma wrap32_sumZ_wrap {A} (g : A -> Z) (l : list A) :
  wrap32 (sumZ ((fun x => wrap32 (g x)) <$> l)) = wrap32 (sumZ (g <$> l)).
Proof.
  induction l as [|x l IH]; [reflexivity|].
  rewrite !fmap_cons. unfold sumZ in *. cbn [foldr].
  rewrite wrap32_add_l. rewrite <- wrap32_add_r, IH, wrap32_add_r. reflexivity.
Qed.

Lemma fold_evicted (l : list ReplicaSet) (t : Z) :
  wrap32
    (fold_left
       (fun t rs => add32 t (sub32 (SpecReplicas rs) (StatusAvailableReplicas rs)))
       l t)
  = wrap32 (t + sumZ ((fun rs => SpecReplicas rs - StatusAvailableReplicas rs) <$> l)).
Proof.
  rewrite (fold_add32
             (fun rs => sub32 (SpecReplicas rs) (StatusAvailableReplicas rs)) l t).
  rewrite <- wrap32_add_r. unfold sub32.
  rewrite (wrap32_sumZ_wrap
             (fun rs => SpecReplicas rs - StatusAvailableReplicas rs) l).
  apply wrap32_add_r.
Qed.

Lemma fold_evicted_0 (l : list ReplicaSet) :
  fold_left
    (fun t rs => add32 t (sub32 (SpecReplicas rs) (StatusAvailableReplicas rs)))
    l 0
  = evictedCount l.
Proof.
  unfold evictedCount.
  change (sumZ ((fun rs => SpecReplicas rs - StatusAvailableReplicas rs) <$> l))
    with (0 + sumZ ((fun rs => SpecReplicas rs - StatusAvailableReplicas rs) <$> l)).
  rewrite <- fold_evicted. symmetry.
  apply wrap32_small, fold_add32_range. int32. lia.
Qed.

Lemma sumZ_app (l1 l2 : list Z) : sumZ (l1 ++ l2) = sumZ l1 + sumZ l2.
Proof. unfold sumZ. induction l1 as [|x l1 IH]; cbn [app foldr]; lia. Qed.

(** ** The eviction step, further *)

Section EvictionMore.
Context {W : Type} `{!Collaborators W} `{!ByCreationTimestamp}.

Lemma cleanupUnhealthyReplicas_loop_healthy rollout todo :
  forall done total (st : State W),
  Forall (fun rs => unhealthy rs = false) todo ->
  cleanupUnhealthyReplicas_loop rollout done todo total st
  = (Some (done ++ todo, total, None), st).
Proof.
  induction todo as [|rs todo IH]; intros done total st Hall;
    cbn [cleanupUnhealthyReplicas_loop].
  - by rewrite app_nil_r.
  - apply Forall_cons in Hall as [Hrs Hall].
    apply unhealthy_false in Hrs.
    destruct (Z.eqb_spec (SpecReplicas rs) 0) as [E0|E0].
    { rewrite IH by exact Hall. by rewrite <- app_assoc. }
    destruct (Z.eqb_spec (SpecReplicas rs) (StatusAvailableReplicas rs)) as [Ea|Ea].
    { rewrite IH by exact Hall. by rewrite <- app_assoc. }
    by destruct Hrs.
Qed.

(** X1. Nothing to evict: when every old group has a zero desired count or
    as many available units as desired (also when there is no old group),
    the eviction step makes no call and returns the collection sorted, a
    zero count and no error. *)
Theorem cleanupUnhealthyReplicas_nothing_to_evict
    (oldRSs : list ReplicaSet) (rollout : Rollout) (st : State W) :
  Forall (fun rs => SpecReplicas rs = 0
                    \/ SpecReplicas rs = StatusAvailableReplicas rs) oldRSs ->
  cleanupUnhealthyReplicas oldRSs rollout st
  = (Some (sortByCreationTimestamp oldRSs, 0, None), st).
Proof.
  intros Hall. unfold cleanupUnhealthyReplicas.
  apply (cleanupUnhealthyReplicas_loop_healthy rollout _ [] 0 st).
  rewrite (sortByCreationTimestamp_perm oldRSs).
  eapply Forall_impl; [exact Hall|]. intros rs Hrs. by apply unhealthy_false.
Qed.

(** A run that returns an error without the invalid-request check having
    fired ends with the failing call; the calls before it succeeded and the
    count is that of the groups they evicted. *)
Lemma EvictionRun_failure rollout done todo total cs out e :
  EvictionRun rollout done todo total cs out ->
  out.2 = Some e ->
  (exists pre c,
      cs = pre ++ [c] /\ callErr c = Some e
      /\ Forall (fun c => callErr c = None) pre
      /\ out.1.2
         = fold_left
             (fun t rs => add32 t (sub32 (SpecReplicas rs) (StatusAvailableReplicas rs)))
             (scaleCalls pre).*1 total)
  \/ (Forall (fun c => callErr c = None) cs /\ out.1.2 = 0
      /\ exists bad,
           bad ∈ todo /\ unhealthy bad = true
           /\ SpecReplicas bad < StatusAvailableReplicas bad
           /\ e = invalidScaleDownError bad (StatusAvailableReplicas bad)).
Proof.
  induction 1 as [ done total | done rs todo total cs out Hu _ IH | done rs todo total Hu Hlt
                 | done rs todo total changed updated e' Hu Hle
                 | done rs todo total changed updated cs out Hu Hle _ IH ];
    cbn [fst snd]; intros Herr; try discriminate.
  - destruct (IH Herr) as [Hfail | (Hall & H0 & bad & Hin & Hrest)]; [by left | right].
    repeat split; try assumption.
    exists bad. split; [by apply list_elem_of_further | exact Hrest].
  - injection Herr as <-. right. repeat split; [constructor|].
    exists rs. repeat split; try assumption. apply list_elem_of_here.
  - injection Herr as <-. left. eexists [], _.
    split; [reflexivity|]. by repeat split.
  - destruct (IH Herr) as [(pre & c & -> & Hc & Hpre & Hn)
                          | (Hall & H0 & bad & Hin & Hrest)]; [left | right].
    + eexists (_ :: pre), c. split; [reflexivity|]. split; [exact Hc|].
      split; [by constructor | exact Hn].
    + repeat split; try assumption; [by constructor|].
      exists bad. split; [by apply list_elem_of_further | exact Hrest].
Qed.

(** X2. The eviction step stops at the first failure.  When it returns an
    error, the collection returned is nil, and either the error is that of
    its last call, every earlier call succeeded and the count returned is
    that of the groups evicted by these earlier calls; or no call failed and
    the error is the invalid-request error of an old group, returned with a
    zero count whatever was evicted before. *)
Theorem cleanupUnhealthyReplicas_stops_at_first_failure
    (oldRSs : list ReplicaSet) (rollout : Rollout) (st : State W)
    (rss : list ReplicaSet) (n : Z) (e : string) :
  (cleanupUnhealthyReplicas oldRSs rollout st).1 = Some (rss, n, Some e) ->
  let cs := callsOf (cleanupUnhealthyReplicas oldRSs rollout) st in
  rss = []
  /\ ((exists pre c,
         cs = pre ++ [c] /\ callErr c = Some e
         /\ Forall (fun c => callErr c = None) pre
         /\ n = evictedCount (scaleCalls pre).*1)
      \/ (Forall (fun c => callErr c = None) cs /\ n = 0
          /\ exists bad,
               bad ∈ oldRSs /\ unhealthy bad = true
               /\ SpecReplicas bad < StatusAvailableReplicas bad
               /\ e = invalidScaleDownError bad (StatusAvailableReplicas bad))).
Proof.
  destruct (cleanupUnhealthyReplicas_run oldRSs rollout st)
    as (out & w & cs & Hrun & Htr).
  rewrite Hrun. cbn [fst]. intros [= ->]. cbv zeta.
  rewrite (callsOf_eq _ st cs) by (by rewrite Hrun).
  destruct (EvictionRun_error _ _ _ _ _ _ e Htr eq_refl) as (Hnil & _).
  split; [exact Hnil|].
  destruct (EvictionRun_failure _ _ _ _ _ _ e Htr eq_refl)
    as [(pre & c & -> & Hc & Hpre & Hn) | (Hall & H0 & bad & Hin & Hrest)];
    [left | right].
  - exists pre, c. repeat split; try assumption.
    cbn in Hn. by rewrite Hn, fold_evicted_0.
  - repeat split; try assumption. exists bad. split; [|exact Hrest].
    by rewrite <- (sortByCreationTimestamp_perm oldRSs).
Qed.

Lemma evictedCount_Permutation l1 l2 : l1 ≡ₚ l2 -> evictedCount l1 = evictedCount l2.
Proof.
  intros Hp. unfold evictedCount. f_equal. apply sumZ_Permutation.
  by apply fmap_Permutation.
Qed.

Lemma sumZ_evicted_filter l :
  sumZ ((fun rs => SpecReplicas rs - StatusAvailableReplicas rs)
          <$> List.filter unhealthy l)
  = sumZ ((fun rs => SpecReplicas rs - StatusAvailableReplicas rs)
            <$> List.filter nonzero l).
Proof.
  unfold sumZ. induction l as [|rs l IH]; [reflexivity|].
  cbn [List.filter]. unfold unhealthy at 1.
  destruct (nonzero rs); cbn [andb]; [|exact IH].
  destruct (Z.eqb_spec (SpecReplicas rs) (StatusAvailableReplicas rs)) as [E|E];
    cbn [negb]; rewrite ?fmap_cons; cbn [foldr]; lia.
Qed.

(** X3. What a successful eviction reports.  When the step returns no
    error, the collection returned has as many groups as the one given, and
    the count returned is the int32 sum of desired minus available over the
    old groups with a nonzero desired count different from the available
    count; the groups with as many available units as desired add nothing,
    so this is also the sum over all old groups with a nonzero desired
    count. *)
Theorem cleanupUnhealthyReplicas_evicted_count
    (oldRSs : list ReplicaSet) (rollout : Rollout) (st : State W)
    (rss : list ReplicaSet) (n : Z) :
  (cleanupUnhealthyReplicas oldRSs rollout st).1 = Some (rss, n, None) ->
  length rss = length oldRSs
  /\ n = evictedCount (List.filter unhealthy oldRSs)
  /\ n = evictedCount (List.filter nonzero oldRSs).
Proof.
  destruct (cleanupUnhealthyReplicas_run oldRSs rollout st)
    as (out & w & cs & Hrun & Htr).
  rewrite Hrun. cbn [fst]. intros [= ->].
  destruct (EvictionRun_ok _ _ _ _ _ _ Htr eq_refl)
    as (_ & _ & Hn & rss' & Hrss & Hkept).
  cbn in Hn, Hrss. subst rss'.
  assert (Hcount : n = evictedCount (List.filter unhealthy oldRSs)).
  { rewrite Hn, fold_evicted_0. unfold evictedCount. f_equal.
    rewrite !sumZ_evicted_filter.
    assert (Hperm : forall l1 l2 : list ReplicaSet, l1 ≡ₚ l2 ->
              sumZ ((fun rs => SpecReplicas rs - StatusAvailableReplicas rs)
                      <$> List.filter nonzero l1)
              = sumZ ((fun rs => SpecReplicas rs - StatusAvailableReplicas rs)
                        <$> List.filter nonzero l2)).
    { clear. unfold sumZ. induction 1 as [|x l1 l2 _ IH|x y l|l1 l2 l3 _ IH1 _ IH2].
      - reflexivity.
      - cbn [List.filter]. destruct (nonzero x); rewrite ?fmap_cons; cbn [foldr]; lia.
      - cbn [List.filter]. destruct (nonzero x), (nonzero y);
          rewrite ?fmap_cons; cbn [foldr]; lia.
      - lia. }
    apply Hperm, sortByCreationTimestamp_perm. }
  split; [|split; [exact Hcount|]].
  - rewrite <- (Forall2_length _ _ _ Hkept).
    by rewrite (sortByCreationTimestamp_perm oldRSs).
  - rewrite Hcount. unfold evictedCount. by rewrite sumZ_evicted_filter.
Qed.
End EvictionMore.

(** ** The scale-down step, further *)

Section ScaleDownMore.
Context {W : Type} `{!Collaborators W} `{!ByCreationTimestamp}.

Lemma ScaleDownRun_calls rollout todo total cs n err :
  ScaleDownRun rollout todo total cs n err ->
  Forall (zeroes rollout todo) cs.
Proof.
  assert (Hcons : forall rs l c, zeroes rollout l c -> zeroes rollout (rs :: l) c).
  { intros rs l c (rs' & reply & -> & Hin & Hnz). exists rs', reply.
    repeat split; try assumption. by apply list_elem_of_further. }
  induction 1 as [total | rs todo total cs n err E _ IH
                 | rs todo total changed updated e E
                 | rs todo total changed updated cs n err E _ IH].
  - constructor.
  - eapply Forall_impl; [exact IH | apply Hcons].
  - constructor; [|constructor].
    eexists rs, _. repeat split; [apply list_elem_of_here | exact E].
  - constructor.
    + eexists rs, _. repeat split; [apply list_elem_of_here | exact E].
    + eapply Forall_impl; [exact IH | apply Hcons].
Qed.

(** X4. What the scale-down step can do.  Whatever the collaborator
    replies, every call of the step scales to zero an old group that has a
    nonzero desired count: it never scales a group up, never touches a group
    outside the old groups and never calls for a group that is already at
    zero.  The groups called for, in the order of the calls, are taken from
    the sorted old groups without repetition of a position. *)
Theorem scaleDownOldReplicaSetsForBlueGreen_only_zeroes_old_groups
    (allRSs oldRSs : list ReplicaSet) (rollout : Rollout) (st : State W) :
  let cs := callsOf (scaleDownOldReplicaSetsForBlueGreen allRSs oldRSs rollout) st in
  Forall (zeroes rollout oldRSs) cs
  /\ (scaleCalls cs).*1 `sublist_of` sortByCreationTimestamp oldRSs
  /\ (length cs <= length oldRSs)%nat.
Proof.
  cbv zeta.
  destruct (scaleDownOldReplicaSetsForBlueGreen_run allRSs oldRSs rollout st)
    as (n & err & w & cs & Hrun & [(-> & _) | (_ & Htr)]).
  { rewrite (callsOf_eq _ st []) by (by rewrite Hrun).
    split; [constructor|]. split; [apply sublist_nil_l | cbn; lia]. }
  rewrite (callsOf_eq _ st cs) by (by rewrite Hrun).
  pose proof (ScaleDownRun_targets _ _ _ _ _ _ Htr) as (Hscale & _ & Hprefix).
  assert (Hsub : (scaleCalls cs).*1 `sublist_of` sortByCreationTimestamp oldRSs)
    by (by eapply prefix_filter_sublist).
  split; [|split; [exact Hsub|]].
  - eapply Forall_impl; [exact (ScaleDownRun_calls _ _ _ _ _ _ Htr)|].
    intros c (rs & reply & -> & Hin & Hnz). exists rs, reply.
    repeat split; try assumption.
    by rewrite <- (sortByCreationTimestamp_perm oldRSs).
  - apply sublist_length in Hsub.
    rewrite (sortByCreationTimestamp_perm oldRSs) in Hsub.
    rewrite length_fmap in Hsub.
    assert (Hlen : forall l, Forall (fun c => isScale c = true) l ->
                             length (scaleCalls l) = length l).
    { clear. induction 1 as [|c l Hc _ IH]; [reflexivity|].
      destruct c; try discriminate. cbn. by rewrite IH. }
    rewrite (Hlen cs Hscale) in Hsub. lia.
Qed.

Lemma ScaleDownRun_failure rollout todo total cs n err e :
  ScaleDownRun rollout todo total cs n err ->
  err = Some e ->
  exists pre c,
    cs = pre ++ [c] /\ callErr c = Some e
    /\ Forall (fun c => callErr c = None) pre
    /\ n = fold_left (fun t rs => add32 t (SpecReplicas rs)) (scaleCalls pre).*1 total.
Proof.
  induction 1 as [total | rs todo total cs n err E _ IH
                 | rs todo total changed updated e' E
                 | rs todo total changed updated cs n err E _ IH];
    intros Herr; try discriminate.
  - by apply IH.
  - injection Herr as <-. eexists [], _. split; [reflexivity|]. by repeat split.
  - destruct (IH Herr) as (pre & c & -> & Hc & Hpre & Hn).
    eexists (_ :: pre), c. split; [reflexivity|]. split; [exact Hc|].
    split; [by constructor | exact Hn].
Qed.

(** X5. The scale-down step stops at the first failure.  When it returns
    an error, this is the error of its last call, every earlier call
    succeeded, and the count returned is the int32 sum of the desired counts
    of the groups scaled by these earlier calls: the group of the failing
    call is not counted, and no later group is tried. *)
Theorem scaleDownOldReplicaSetsForBlueGreen_stops_at_first_failure
    (allRSs oldRSs : list ReplicaSet) (rollout : Rollout) (st : State W)
    (n : Z) (e : string) :
  (scaleDownOldReplicaSetsForBlueGreen allRSs oldRSs rollout st).1
    = Some (n, Some e) ->
  exists pre c,
    callsOf (scaleDownOldReplicaSetsForBlueGreen allRSs oldRSs rollout) st
      = pre ++ [c]
    /\ callErr c = Some e
    /\ Forall (fun c => callErr c = None) pre
    /\ n = GetReplicaCountForReplicaSets (scaleCalls pre).*1.
Proof.
  destruct (scaleDownOldReplicaSetsForBlueGreen_run allRSs oldRSs rollout st)
    as (n' & err & w & cs & Hrun & [(_ & _ & -> & _) | (_ & Htr)]);
    rewrite Hrun; cbn [fst]; intros [= -> ->].
  rewrite (callsOf_eq _ st cs) by (by rewrite Hrun).
  destruct (ScaleDownRun_failure _ _ _ _ _ _ e Htr eq_refl)
    as (pre & c & -> & Hc & Hpre & Hn).
  exists pre, c. by repeat split.
Qed.

Lemma scaleDownOldReplicaSetsForBlueGreen_loop_zero rollout todo :
  forall total (st : State W),
  Forall (fun rs => SpecReplicas rs = 0) todo ->
  scaleDownOldReplicaSetsForBlueGreen_loop rollout todo total st
  = (Some (total, None), st).
Proof.
  induction todo as [|rs todo IH]; intros total st Hall;
    cbn [scaleDownOldReplicaSetsForBlueGreen_loop]; [reflexivity|].
  apply Forall_cons in Hall as [-> Hall]. cbn. by apply IH.
Qed.

(** X6. Nothing left to scale down: when every old group already has a zero
    desired count (also when there is no old group), the step makes no call
    and returns 0 and no error, however large the surplus is. *)
Theorem scaleDownOldReplicaSetsForBlueGreen_nothing_to_scale
    (allRSs oldRSs : list ReplicaSet) (rollout : Rollout) (st : State W) :
  Forall (fun rs => SpecReplicas rs = 0) oldRSs ->
  scaleDownOldReplicaSetsForBlueGreen allRSs oldRSs rollout st
  = (Some (0, None), st).
Proof.
  intros Hall. unfold scaleDownOldReplicaSetsForBlueGreen.
  destruct (_ <=? _); [reflexivity|].
  apply scaleDownOldReplicaSetsForBlueGreen_loop_zero.
  by rewrite (sortByCreationTimestamp_perm oldRSs).
Qed.
End ScaleDownMore.

(** ** The scale-down of the old groups, further *)

Section OldReplicaSetsMore.
Context {W : Type} `{!Collaborators W} `{!ByCreationTimestamp}.

(** The calls of [reconcileOldReplicaSets]: the evictions, then the scalings
    to zero. *)
Lemma reconcileOldReplicaSets_detail allRSs oldRSs newRS rollout (st : State W) :
  exists flag w cs1 cs2,
    reconcileOldReplicaSets allRSs oldRSs newRS rollout st
    = (Some (flag, None), mkState w (calls st ++ cs1 ++ cs2))
    /\ Forall (evicts rollout oldRSs) cs1
    /\ Forall (scalesToZero rollout) cs2
    /\ (cs1 ++ cs2 <> [] ->
        IsSaturated rollout newRS = true
        /\ GetReplicaCountForReplicaSets oldRSs <> 0)
    /\ (cs2 <> [] -> Forall (fun c => callErr c = None) cs1)
    /\ (flag = true ->
        cs1 ++ cs2 <> [] /\ Forall (fun c => callErr c = None) (cs1 ++ cs2)).
Proof.
  unfold reconcileOldReplicaSets.
  destruct (Z.eqb_spec (GetReplicaCountForReplicaSets oldRSs) 0) as [E0|E0].
  { exists false, (world st), [], []. cbn [app]. rewrite app_nil_r, state_eta.
    repeat split; try constructor; try done. }
  destruct (IsSaturated rollout newRS) eqn:Esat; cbn [negb].
  2: { exists false, (world st), [], []. cbn [app]. rewrite app_nil_r, state_eta.
       repeat split; try constructor; try done. }
  rewrite bind_eq.
  destruct (cleanupUnhealthyReplicas_run oldRSs rollout st)
    as ([[rss cleanupCount] err] & w1 & cs1 & -> & Htr1).
  assert (Hev : Forall (evicts rollout oldRSs) cs1).
  { eapply Forall_impl; [exact (EvictionRun_calls _ _ _ _ _ _ Htr1)|].
    intros c (rs & reply & -> & Hin & Hu & Hle). exists rs, reply.
    repeat split; try assumption.
    by rewrite <- (sortByCreationTimestamp_perm oldRSs). }
  destruct err as [e|]; cbn [ret].
  { exists false, w1, cs1, []. rewrite app_nil_r.
    repeat split; try constructor; try done. }
  destruct (EvictionRun_ok _ _ _ _ _ _ Htr1 eq_refl)
    as (Hok1 & Hcalls1 & Hcount1 & _).
  cbn [fst snd] in Hcount1.
  rewrite bind_eq.
  destruct (scaleDownOldReplicaSetsForBlueGreen_run (rss ++ [newRS]) rss rollout
              (mkState w1 (calls st ++ cs1)))
    as (n & err & w2 & cs2 & -> & Hcases).
  cbn [calls]. rewrite <- app_assoc.
  assert (Hz : Forall (scalesToZero rollout) cs2).
  { destruct Hcases as [(-> & _) | (_ & Htr2)]; [constructor|].
    eapply Forall_impl; [exact (ScaleDownRun_calls _ _ _ _ _ _ Htr2)|].
    intros c (rs & reply & -> & _). by exists rs, reply. }
  destruct err as [e|]; cbn [ret].
  { exists false, w2, cs1, cs2. repeat split; try done. }
  exists (add32 cleanupCount n >? 0), w2, cs1, cs2.
  split; [reflexivity|]. split; [exact Hev|]. split; [exact Hz|].
  split; [done|]. split; [done|].
  assert (Hok2 : Forall (fun c => callErr c = None) cs2).
  { destruct Hcases as [(-> & _) | (_ & Htr2)]; [constructor|].
    by apply (ScaleDownRun_total _ _ _ _ _ _ Htr2). }
  intros Hflag. split; [|by apply Forall_app].
  intros [-> ->]%app_eq_nil.
  assert (cleanupCount = 0) as ->.
  { cbn [scaleCalls] in Hcalls1. symmetry in Hcalls1.
    apply fmap_nil_inv in Hcalls1. by rewrite Hcalls1 in Hcount1. }
  assert (n = 0) as ->.
  { destruct Hcases as [(_ & -> & _) | (_ & Htr2)]; [reflexivity|].
    destruct (ScaleDownRun_total _ _ _ _ _ _ Htr2) as (_ & Hsum).
    destruct (Hsum eq_refl) as (Hempty & ->).
    cbn in Hempty. by rewrite <- Hempty. }
  discriminate.
Qed.

(** X7. The scale-down of the old groups never fails: for every input and
    whatever its collaborators return, [reconcileOldReplicaSets] returns, with
    a nil error, and all it calls is the scale-and-record collaborator. *)
Theorem reconcileOldReplicaSets_never_fails
    (allRSs oldRSs : list ReplicaSet) (newRS : ReplicaSet) (rollout : Rollout)
    (st : State W) :
  exists scaledDown,
    (reconcileOldReplicaSets allRSs oldRSs newRS rollout st).1
    = Some (scaledDown, None)
  /\ Forall (fun c => isScale c = true)
       (callsOf (reconcileOldReplicaSets allRSs oldRSs newRS rollout) st).
Proof.
  destruct (reconcileOldReplicaSets_detail allRSs oldRSs newRS rollout st)
    as (flag & w & cs1 & cs2 & Hrun & Hev & Hz & _).
  exists flag. rewrite (callsOf_eq _ st (cs1 ++ cs2)) by (by rewrite Hrun).
  rewrite Hrun. split; [reflexivity|]. apply Forall_app. split.
  - eapply Forall_impl; [exact Hev|]. by intros c (rs & reply & -> & _).
  - eapply Forall_impl; [exact Hz|]. by intros c (rs & reply & ->).
Qed.

(** X8. Old groups are left alone until the new group is saturated: when the
    new group is not saturated, or the desired counts of the old groups add
    up to zero, [reconcileOldReplicaSets] returns false and leaves the state
    as it was; so any call it makes is made for a saturated new group. *)
Theorem reconcileOldReplicaSets_waits_for_saturation
    (allRSs oldRSs : list ReplicaSet) (newRS : ReplicaSet) (rollout : Rollout)
    (st : State W) :
  (IsSaturated rollout newRS = false \/ GetReplicaCountForReplicaSets oldRSs = 0 ->
   reconcileOldReplicaSets allRSs oldRSs newRS rollout st = (Some (false, None), st))
  /\ (callsOf (reconcileOldReplicaSets allRSs oldRSs newRS rollout) st <> [] ->
      IsSaturated rollout newRS = true
      /\ GetReplicaCountForReplicaSets oldRSs <> 0).
Proof.
  split.
  - intros Hskip. unfold reconcileOldReplicaSets.
    destruct (Z.eqb_spec (GetReplicaCountForReplicaSets oldRSs) 0) as [E0|E0];
      [reflexivity|].
    destruct Hskip as [-> | ?]; [reflexivity | contradiction].
  - destruct (reconcileOldReplicaSets_detail allRSs oldRSs newRS rollout st)
      as (flag & w & cs1 & cs2 & Hrun & _ & _ & Hsat & _).
    by rewrite (callsOf_eq _ st (cs1 ++ cs2)) by (by rewrite Hrun).
Qed.

(** X9. Unhealthy units go first.  The calls of [reconcileOldReplicaSets]
    are evictions of old groups, each down to the available count of its
    group, followed by scalings to zero; and a scaling to zero is only made
    once every eviction of the pass has succeeded. *)
Theorem reconcileOldReplicaSets_evicts_before_scaling_down
    (allRSs oldRSs : list ReplicaSet) (newRS : ReplicaSet) (rollout : Rollout)
    (st : State W) :
  exists evictions scalings,
    callsOf (reconcileOldReplicaSets allRSs oldRSs newRS rollout) st
      = evictions ++ scalings
    /\ Forall (evicts rollout oldRSs) evictions
    /\ Forall (scalesToZero rollout) scalings
    /\ (scalings <> [] -> Forall (fun c => callErr c = None) evictions).
Proof.
  destruct (reconcileOldReplicaSets_detail allRSs oldRSs newRS rollout st)
    as (flag & w & cs1 & cs2 & Hrun & Hev & Hz & _ & Hfirst & _).
  exists cs1, cs2. split; [|done].
  by rewrite (callsOf_eq _ st (cs1 ++ cs2)) by (by rewrite Hrun).
Qed.

(** X10. [reconcileOldReplicaSets] reports a scale-down only when it made at
    least one call and none of its calls returned an error: a failing call
    turns the report to false, also when earlier calls of the same pass did
    scale groups down. *)
Theorem reconcileOldReplicaSets_reports_only_clean_runs
    (allRSs oldRSs : list ReplicaSet) (newRS : ReplicaSet) (rollout : Rollout)
    (st : State W) :
  let cs := callsOf (reconcileOldReplicaSets allRSs oldRSs newRS rollout) st in
  ((reconcileOldReplicaSets allRSs oldRSs newRS rollout st).1 = Some (true, None) ->
   cs <> [] /\ Forall (fun c => callErr c = None) cs)
  /\ (Exists (fun c => callErr c <> None) cs ->
      (reconcileOldReplicaSets allRSs oldRSs newRS rollout st).1
      = Some (false, None)).
Proof.
  cbv zeta.
  destruct (reconcileOldReplicaSets_detail allRSs oldRSs newRS rollout st)
    as (flag & w & cs1 & cs2 & Hrun & _ & _ & _ & _ & Hflag).
  rewrite (callsOf_eq _ st (cs1 ++ cs2)) by (by rewrite Hrun).
  rewrite Hrun. cbn [fst]. split.
  - intros [= ->]. by apply Hflag.
  - intros Hex. destruct flag; [|reflexivity].
    destruct (Hflag eq_refl) as (_ & Hall).
    apply Exists_exists in Hex as (c & Hc & Herr).
    rewrite Forall_forall in Hall. by specialize (Hall c Hc).
Qed.
End OldReplicaSetsMore.

(** ** The calls of a pass *)

Section PassTrace.
Context {W : Type} `{!Collaborators W} `{!ByCreationTimestamp}.
Variables (r : Rollout) (newRS : ReplicaSet) (oldRSs : list ReplicaSet)
  (previewSvc activeSvc : option Service).

Local Abbreviation sync :=
  (syncRolloutStatus (oldRSs ++ [newRS]) newRS previewSvc activeSvc r).

Lemma sync_trace (st : State W) :
  exists res w cs,
    sync st = (res, mkState w (calls st ++ cs))
    /\ SyncRun r newRS oldRSs previewSvc activeSvc cs res.
Proof.
  rewrite syncRolloutStatus_run. eexists _, _, _. split; [reflexivity|].
  constructor.
Qed.

Lemma tail_trace (st : State W) :
  exists res w cs,
    runSteps sync [stepCleanup r oldRSs] st = (res, mkState w (calls st ++ cs))
    /\ TailRun r newRS oldRSs previewSvc activeSvc cs res.
Proof.
  cbn [runSteps]. rewrite bind_eq. unfold stepCleanup.
  destruct (RolloutComplete r) eqn:Hc.
  - rewrite bind_eq. unfold cleanupRollouts. rewrite call_run. cbn [ret].
    destruct (do_cleanupRollouts oldRSs r (world st)) as [[e|] w1]; cbn [fst snd].
    + eexists _, _, _. split; [reflexivity|]. by constructor.
    + destruct (sync_trace (mkState w1 (calls st ++ [CallCleanupRollouts oldRSs r None])))
        as (res & w & cs & -> & Hs).
      cbn [calls]. rewrite <- app_assoc. eexists _, _, _. split; [reflexivity|].
      by apply TailRun_cleanup.
  - cbn [ret]. destruct (sync_trace st) as (res & w & cs & -> & Hs).
    eexists _, _, _. split; [reflexivity|]. by apply TailRun_incomplete.
Qed.

Lemma old_trace (st : State W) :
  exists res w cs,
    runSteps sync [stepScaleOldDown r newRS oldRSs; stepCleanup r oldRSs] st
    = (res, mkState w (calls st ++ cs))
    /\ OldRun r newRS oldRSs previewSvc activeSvc cs res.
Proof.
  cbn [runSteps]. rewrite bind_eq. unfold stepScaleOldDown at 1. rewrite bind_eq.
  destruct (reconcileOldReplicaSets_detail (oldRSs ++ [newRS])
              (FilterActiveReplicaSets oldRSs) newRS r st)
    as (flag & w1 & cs1 & cs2 & -> & Hev & Hz & Hsat & Hfirst & Hflag).
  assert (Hshape : OldScaling r newRS oldRSs cs1 cs2) by done.
  cbn [ret]. unfold verdict. cbn [fst snd]. destruct flag.
  - destruct (sync_trace (mkState w1 (calls st ++ cs1 ++ cs2)))
      as (res & w & cs & -> & Hs).
    cbn [calls]. rewrite <- !app_assoc. eexists _, _, _. split; [reflexivity|].
    destruct (Hflag eq_refl). by apply OldRun_scaled.
  - destruct (tail_trace (mkState w1 (calls st ++ cs1 ++ cs2)))
      as (res & w & cs & Hrun & Hs).
    cbn [runSteps] in Hrun. rewrite Hrun.
    cbn [calls]. rewrite <- !app_assoc. eexists _, _, _. split; [reflexivity|].
    by apply OldRun_unscaled.
Qed.

Lemma active_trace (st : State W) :
  exists res w cs,
    runSteps sync
      [stepActiveCutover r newRS previewSvc activeSvc;
       stepScaleOldDown r newRS oldRSs; stepCleanup r oldRSs] st
    = (res, mkState w (calls st ++ cs))
    /\ ActiveRun r newRS oldRSs previewSvc activeSvc cs res.
Proof.
  cbn [runSteps]. rewrite bind_eq. unfold stepActiveCutover at 1.
  rewrite bind_eq. unfold reconcileActiveService. rewrite call_run. cbn [ret].
  destruct (do_reconcileActiveService r newRS previewSvc activeSvc (world st))
    as [[switched [e|]] w1]; unfold verdict; cbn [fst snd].
  - eexists _, _, _. split; [reflexivity|]. constructor.
  - destruct switched; cbv beta iota.
    + edestruct sync_trace as (res & w & cs & Hrun & Hs); rewrite Hrun; clear Hrun.
      cbn [calls]. rewrite <- app_assoc. eexists _, _, _. split; [reflexivity|].
      by apply ActiveRun_switched.
    + edestruct old_trace as (res & w & cs & Hrun & Hs).
      cbn [runSteps] in Hrun. rewrite Hrun.
      cbn [calls]. rewrite <- app_assoc. eexists _, _, _. split; [reflexivity|].
      by apply ActiveRun_kept.
Qed.

Lemma preview_trace (st : State W) :
  exists res w cs,
    runSteps sync
      [stepPreviewCutover r newRS previewSvc activeSvc;
       stepVerifyGate r previewSvc activeSvc;
       stepActiveCutover r newRS previewSvc activeSvc;
       stepScaleOldDown r newRS oldRSs; stepCleanup r oldRSs] st
    = (res, mkState w (calls st ++ cs))
    /\ PreviewRun r newRS oldRSs previewSvc activeSvc cs res.
Proof.
  pose proof active_trace as Hactive. cbn [runSteps] in Hactive |- *.
  rewrite bind_eq. unfold stepPreviewCutover at 1, stepVerifyGate at 1.
  destruct previewSvc as [p|] eqn:Hp.
  2: { cbn [ret]. rewrite bind_eq. cbn [ret].
       destruct (Hactive st) as (res & w & cs & -> & Hs).
       eexists _, _, _. split; [reflexivity|]. by apply PreviewRun_none. }
  rewrite bind_eq. unfold reconcilePreviewService. rewrite call_run. cbn [ret].
  destruct (do_reconcilePreviewService r newRS (Some p) activeSvc (world st))
    as [[switched [e|]] w1]; unfold verdict; cbn [fst snd].
  - eexists _, _, _. split; [reflexivity|]. by constructor.
  - destruct switched; cbv beta iota.
    + edestruct sync_trace as (res & w & cs & Hrun & Hs).
      rewrite Hp in Hrun, Hs. rewrite Hrun.
      cbn [calls]. rewrite <- app_assoc. eexists _, _, _. split; [reflexivity|].
      by apply PreviewRun_switched.
    + rewrite !bind_eq. unfold eval.
      destruct (reconcileVerifyingPreview activeSvc r) as [[]|] eqn:Hgate; cbn [ret].
      * edestruct sync_trace as (res & w & cs & Hrun & Hs).
        rewrite Hp in Hrun, Hs. rewrite Hrun.
        cbn [calls]. rewrite <- app_assoc. eexists _, _, _. split; [reflexivity|].
        by apply PreviewRun_held.
      * edestruct Hactive as (res & w & cs & Hrun & Hs); rewrite Hrun; clear Hrun.
        cbn [calls]. rewrite <- app_assoc. eexists _, _, _. split; [reflexivity|].
        by apply PreviewRun_open.
      * eexists _, _, _. split; [reflexivity|]. by apply PreviewRun_panic.
Qed.

Lemma reconcileNewReplicaSet_shape (st : State W) :
  (SpecReplicas newRS = GetRolloutReplicasOrDefault r
   /\ reconcileNewReplicaSet (oldRSs ++ [newRS]) newRS r st
      = (Some (false, None), st))
  \/ (exists count e,
        SpecReplicas newRS < GetRolloutReplicasOrDefault r
        /\ NewRSNewReplicas r (oldRSs ++ [newRS]) newRS = (count, Some e)
        /\ reconcileNewReplicaSet (oldRSs ++ [newRS]) newRS r st
           = (Some (false, Some e), st))
  \/ (SpecReplicas newRS <> GetRolloutReplicasOrDefault r
      /\ exists n,
          reconcileNewReplicaSet (oldRSs ++ [newRS]) newRS r st
          = (Some (reported (do_scaleReplicaSetAndRecordEvent newRS n r (world st)).1),
             afterScale newRS n r st)).
Proof.
  unfold reconcileNewReplicaSet, reported.
  destruct (Z.eqb_spec (SpecReplicas newRS) (GetRolloutReplicasOrDefault r))
    as [E|E]; [by left|].
  destruct (Z.gtb_spec (SpecReplicas newRS) (GetRolloutReplicasOrDefault r))
    as [G|G].
  - right. right. split; [exact E|]. exists (GetRolloutReplicasOrDefault r).
    rewrite bind_eq, scaleReplicaSetAndRecordEvent_run.
    by destruct (do_scaleReplicaSetAndRecordEvent _ _ _ _) as [[[? ?] ?] ?].
  - destruct (NewRSNewReplicas r (oldRSs ++ [newRS]) newRS) as [cnt [e|]] eqn:Hramp.
    + right. left. exists cnt, e. split; [lia|]. by split.
    + right. right. split; [exact E|]. exists cnt.
      rewrite bind_eq, scaleReplicaSetAndRecordEvent_run.
      by destruct (do_scaleReplicaSetAndRecordEvent _ _ _ _) as [[[? ?] ?] ?].
Qed.

Lemma new_trace (st : State W) :
  exists res w cs,
    runSteps sync (passSteps r newRS oldRSs previewSvc activeSvc) st
    = (res, mkState w (calls st ++ cs))
    /\ NewRun r newRS oldRSs previewSvc activeSvc cs res.
Proof.
  pose proof preview_trace as Hpreview. unfold passSteps.
  cbn [runSteps] in Hpreview |- *.
  rewrite bind_eq. unfold stepScaleNewUp at 1. rewrite bind_eq.
  destruct (reconcileNewReplicaSet_shape st)
    as [(Heq & ->) | [(count & e & Hlt & Hramp & ->) | (Hne & n & ->)]];
    cbn [ret]; unfold verdict; cbn [fst snd].
  - destruct (Hpreview st) as (res & w & cs & -> & Hs).
    eexists _, _, _. split; [reflexivity|]. by apply NewRun_settled.
  - exists (Some (Some e)), (world st), []. rewrite app_nil_r, state_eta.
    split; [reflexivity|]. by eapply NewRun_ramp_failed.
  - unfold reported, afterScale.
    destruct (do_scaleReplicaSetAndRecordEvent newRS n r (world st))
      as [[[changed updated] [e|]] w1]; cbn [fst snd].
    + eexists _, _, _. split; [reflexivity|]. by constructor.
    + destruct changed; cbv beta iota.
      * edestruct sync_trace as (res & w & cs & Hrun & Hs); rewrite Hrun; clear Hrun.
        cbn [calls]. rewrite <- app_assoc. eexists _, _, _. split; [reflexivity|].
        by apply NewRun_scaled.
      * edestruct Hpreview as (res & w & cs & Hrun & Hs); rewrite Hrun; clear Hrun.
        cbn [calls]. rewrite <- app_assoc. eexists _, _, _. split; [reflexivity|].
        by apply NewRun_unscaled.
Qed.
End PassTrace.

Section PassTraceWhole.
Context {W : Type} `{!Collaborators W} `{!ByCreationTimestamp}.

(** The calls and the result of a pass have one of the shapes of [PassRun]. *)
Lemma rolloutBlueGreen_trace r rsList (st : State W) :
  PassRun r rsList (callsOf (rolloutBlueGreen r rsList) st)
    (rolloutBlueGreen r rsList st).1.
Proof.
  destruct (getAllReplicaSetsAndSyncRevision r rsList true st)
    as [res0 st0] eqn:H0.
  pose proof H0 as H0'.
  unfold getAllReplicaSetsAndSyncRevision in H0'. rewrite call_run in H0'.
  destruct (do_getAllReplicaSetsAndSyncRevision r rsList true (world st))
    as [[[newRS oldRSs] err0] w0]. cbn [fst snd] in H0'.
  injection H0' as <- <-.
  destruct err0 as [e|].
  { unfold rolloutBlueGreen. rewrite (callsOf_eq _ st
      [CallGetAllReplicaSetsAndSyncRevision r rsList true (newRS, oldRSs, Some e)])
      by (by rewrite bind_eq, H0).
    rewrite bind_eq, H0. constructor. }
  match type of H0 with _ = (_, ?s) => set (st0 := s) in * end.
  destruct (getPreviewAndActiveServices r st0) as [res1 st1] eqn:H1.
  pose proof H1 as H1'.
  unfold getPreviewAndActiveServices in H1'. rewrite call_run in H1'.
  destruct (do_getPreviewAndActiveServices r (world st0))
    as [[[previewSvc activeSvc] err1] w1]. cbn [fst snd] in H1'.
  injection H1' as <- <-.
  destruct err1 as [e|].
  { unfold rolloutBlueGreen. rewrite (callsOf_eq _ st
      [CallGetAllReplicaSetsAndSyncRevision r rsList true (newRS, oldRSs, None);
       CallGetPreviewAndActiveServices r (previewSvc, activeSvc, Some e)])
      by (rewrite bind_eq, H0, bind_eq, H1; cbn [ret snd calls]; subst st0;
          cbn [calls]; by rewrite <- app_assoc).
    rewrite bind_eq, H0, bind_eq, H1. constructor. }
  rewrite (rolloutBlueGreen_machine _ _ _ _ _ _ _ _ _ H0 H1).
  match type of H1 with _ = (_, ?s) => set (st1 := s) in * end.
  destruct (new_trace r newRS oldRSs previewSvc activeSvc st1)
    as (res & w & cs & Hrun & Hs).
  erewrite callsOf_eq; last first.
  { rewrite (rolloutBlueGreen_machine _ _ _ _ _ _ _ _ _ H0 H1), Hrun.
    subst st1 st0. cbn [snd calls]. rewrite <- !app_assoc. reflexivity. }
  rewrite Hrun. cbn [fst app]. by constructor.
Qed.
End PassTraceWhole.

(** ** What the shapes of a pass give *)

Section Order.

Lemma ordered_nil k : ordered k [].
Proof. split; constructor. Qed.

Lemma ordered_cons k c cs :
  notScale c = true ->
  (k <= phase c)%nat ->
  ordered (S (phase c)) cs ->
  ordered k (c :: cs).
Proof.
  intros Hc Hk (Hlow & Hsorted). unfold ordered. cbn [List.filter].
  rewrite Hc, fmap_cons. split.
  - constructor; [exact Hk|]. eapply Forall_impl; [exact Hlow|].
    intros n Hn. cbv beta in Hn. lia.
  - constructor; [exact Hsorted|]. eapply Forall_impl; [exact Hlow|].
    intros n Hn. cbv beta in Hn. lia.
Qed.

Lemma ordered_scale k c cs :
  isScale c = true -> ordered k cs -> ordered k (c :: cs).
Proof.
  intros Hc H. unfold ordered, notScale in *. cbn [List.filter].
  by rewrite Hc.
Qed.

Lemma ordered_scales k l cs :
  Forall (fun c => isScale c = true) l -> ordered k cs -> ordered k (l ++ cs).
Proof.
  induction 1 as [|c l Hc _ IH]; intros H; [exact H|].
  cbn [app]. apply ordered_scale; [exact Hc | by apply IH].
Qed.

Lemma ordered_le k k' cs : (k <= k')%nat -> ordered k' cs -> ordered k cs.
Proof.
  intros Hk (Hlow & Hsorted). split; [|exact Hsorted].
  eapply Forall_impl; [exact Hlow|]. intros n Hn. cbv beta in Hn. lia.
Qed.

Lemma evicts_isScale rollout l c : evicts rollout l c -> isScale c = true.
Proof. by intros (rs & reply & -> & _). Qed.

Lemma scalesToZero_isScale rollout c : scalesToZero rollout c -> isScale c = true.
Proof. by intros (rs & reply & ->). Qed.

Context {W : Type} `{!Collaborators W}.

Lemma OldScaling_isScale r newRS oldRSs evictions scalings :
  OldScaling r newRS oldRSs evictions scalings ->
  Forall (fun c => isScale c = true) evictions
  /\ Forall (fun c => isScale c = true) scalings.
Proof.
  intros (Hev & Hz & _). split; (eapply Forall_impl; [eassumption|]);
    eauto using evicts_isScale, scalesToZero_isScale.
Qed.

Lemma SyncRun_ordered r newRS oldRSs p a cs res :
  SyncRun r newRS oldRSs p a cs res -> ordered 6 cs.
Proof.
  intros H. inversion H; subst.
  apply ordered_cons; [reflexivity | cbn; lia | apply ordered_nil].
Qed.

Lemma TailRun_ordered r newRS oldRSs p a cs res :
  TailRun r newRS oldRSs p a cs res -> ordered 5 cs.
Proof.
  intros H. inversion H; subst.
  - eapply ordered_le; [|by eapply SyncRun_ordered]. lia.
  - apply ordered_cons; [reflexivity | cbn; lia | apply ordered_nil].
  - apply ordered_cons; [reflexivity | cbn; lia | by eapply SyncRun_ordered].
Qed.

Lemma OldRun_ordered r newRS oldRSs p a cs res :
  OldRun r newRS oldRSs p a cs res -> ordered 5 cs.
Proof.
  intros H. inversion H as [ev sc cs' res' Hshape _ _ Hs | ev sc cs' res' Hshape Ht];
    subst; destruct (OldScaling_isScale _ _ _ _ _ Hshape) as (He & Hz);
    do 2 (apply ordered_scales; [assumption|]).
  - eapply ordered_le; [|by eapply SyncRun_ordered]. lia.
  - by eapply TailRun_ordered.
Qed.

Lemma ActiveRun_ordered r newRS oldRSs p a cs res :
  ActiveRun r newRS oldRSs p a cs res -> ordered 4 cs.
Proof.
  intros H. inversion H; subst;
    (apply ordered_cons; [reflexivity | cbn; lia | cbn [phase]]).
  - apply ordered_nil.
  - eapply ordered_le; [|by eapply SyncRun_ordered]. lia.
  - by eapply OldRun_ordered.
Qed.

Lemma PreviewRun_ordered r newRS oldRSs p a cs res :
  PreviewRun r newRS oldRSs p a cs res -> ordered 3 cs.
Proof.
  intros H. inversion H; subst;
    try (apply ordered_cons; [reflexivity | cbn; lia | cbn [phase]]).
  - eapply ordered_le; [|by eapply ActiveRun_ordered]. lia.
  - apply ordered_nil.
  - eapply ordered_le; [|by eapply SyncRun_ordered]. lia.
  - apply ordered_nil.
  - eapply ordered_le; [|by eapply SyncRun_ordered]. lia.
  - by eapply ActiveRun_ordered.
Qed.

Lemma NewRun_ordered r newRS oldRSs p a cs res :
  NewRun r newRS oldRSs p a cs res -> ordered 2 cs.
Proof.
  intros H. inversion H; subst; try (apply ordered_scale; [reflexivity|]).
  - eapply ordered_le; [|by eapply PreviewRun_ordered]. lia.
  - apply ordered_nil.
  - apply ordered_nil.
  - eapply ordered_le; [|by eapply SyncRun_ordered]. lia.
  - eapply ordered_le; [|by eapply PreviewRun_ordered]. lia.
Qed.

Lemma PassRun_ordered r rsList cs res :
  PassRun r rsList cs res -> ordered 0 cs.
Proof.
  intros H. inversion H; subst.
  - apply ordered_cons; [reflexivity | cbn; lia | apply ordered_nil].
  - apply ordered_cons; [reflexivity | cbn; lia |].
    apply ordered_cons; [reflexivity | cbn; lia | apply ordered_nil].
  - apply ordered_cons; [reflexivity | cbn; lia |].
    apply ordered_cons; [reflexivity | cbn; lia |]. by eapply NewRun_ordered.
Qed.

Context `{!ByCreationTimestamp}.

(** X12. The order of a pass.  Leaving the scale calls aside, the calls of a
    pass are in the order: fetch of the groups, fetch of the services,
    preview cutover, active cutover, cleanup, status sync; and none of these
    collaborators is called twice in a pass. *)
Theorem rolloutBlueGreen_call_order
    (r : Rollout) (rsList : list ReplicaSet) (st : State W) :
  StronglySorted lt
    (phase <$> List.filter notScale (callsOf (rolloutBlueGreen r rsList) st)).
Proof.
  exact (proj2 (PassRun_ordered _ _ _ _ (rolloutBlueGreen_trace r rsList st))).
Qed.
End Order.

Section SyncLast.

Lemma syncedLast_cons c cs res :
  isSync c = false -> syncedLast cs res -> syncedLast (c :: cs) res.
Proof.
  intros Hc [(pre & c' & -> & Hs & Hpre & Hres) | (Hall & Hres)].
  - left. exists (c :: pre), c'. repeat split; try assumption. by constructor.
  - right. split; [by constructor | exact Hres].
Qed.

Lemma syncedLast_app l cs res :
  Forall (fun c => isScale c = true) l ->
  syncedLast cs res -> syncedLast (l ++ cs) res.
Proof.
  induction 1 as [|c l Hc _ IH]; intros H; [exact H|].
  cbn [app]. apply syncedLast_cons; [by destruct c | by apply IH].
Qed.

Lemma syncedLast_failed c e :
  isSync c = false -> syncedLast [c] (Some (Some e)).
Proof. intros Hc. right. split; [by repeat constructor | discriminate]. Qed.

Context {W : Type} `{!Collaborators W}.

Lemma SyncRun_syncedLast r newRS oldRSs p a cs res :
  SyncRun r newRS oldRSs p a cs res -> syncedLast cs res.
Proof.
  intros H. inversion H; subst. left. eexists [], _.
  repeat split; constructor.
Qed.

Lemma TailRun_syncedLast r newRS oldRSs p a cs res :
  TailRun r newRS oldRSs p a cs res -> syncedLast cs res.
Proof.
  intros H. inversion H; subst.
  - by eapply SyncRun_syncedLast.
  - by apply syncedLast_failed.
  - apply syncedLast_cons; [reflexivity | by eapply SyncRun_syncedLast].
Qed.

Lemma OldRun_syncedLast r newRS oldRSs p a cs res :
  OldRun r newRS oldRSs p a cs res -> syncedLast cs res.
Proof.
  intros H. inversion H as [ev sc cs' res' Hshape _ _ Hs | ev sc cs' res' Hshape Ht];
    subst; destruct (OldScaling_isScale _ _ _ _ _ Hshape) as (He & Hz);
    do 2 (apply syncedLast_app; [assumption|]).
  - by eapply SyncRun_syncedLast.
  - by eapply TailRun_syncedLast.
Qed.

Lemma ActiveRun_syncedLast r newRS oldRSs p a cs res :
  ActiveRun r newRS oldRSs p a cs res -> syncedLast cs res.
Proof.
  intros H. inversion H; subst.
  - by apply syncedLast_failed.
  - apply syncedLast_cons; [reflexivity | by eapply SyncRun_syncedLast].
  - apply syncedLast_cons; [reflexivity | by eapply OldRun_syncedLast].
Qed.

Lemma PreviewRun_syncedLast r newRS oldRSs p a cs res :
  PreviewRun r newRS oldRSs p a cs res -> syncedLast cs res.
Proof.
  intros H. inversion H; subst.
  - by eapply ActiveRun_syncedLast.
  - by apply syncedLast_failed.
  - apply syncedLast_cons; [reflexivity | by eapply SyncRun_syncedLast].
  - right. split; [by repeat constructor | discriminate].
  - apply syncedLast_cons; [reflexivity | by eapply SyncRun_syncedLast].
  - apply syncedLast_cons; [reflexivity | by eapply ActiveRun_syncedLast].
Qed.

Lemma NewRun_syncedLast r newRS oldRSs p a cs res :
  NewRun r newRS oldRSs p a cs res -> syncedLast cs res.
Proof.
  intros H. inversion H; subst.
  - by eapply PreviewRun_syncedLast.
  - right. split; [constructor | discriminate].
  - by apply syncedLast_failed.
  - apply syncedLast_cons; [reflexivity | by eapply SyncRun_syncedLast].
  - apply syncedLast_cons; [reflexivity | by eapply PreviewRun_syncedLast].
Qed.

Context `{!ByCreationTimestamp}.

(** X13. No success without a status sync.  A pass either ends with the
    status sync, which is then its last call and its only sync call, and
    returns what the sync returned; or it makes no sync call, and then it
    returns an error or panics.  So a pass that returns nil has synced the
    status, and nothing is called after the status sync. *)
Theorem rolloutBlueGreen_status_sync_last
    (r : Rollout) (rsList : list ReplicaSet) (st : State W) :
  let cs := callsOf (rolloutBlueGreen r rsList) st in
  let res := (rolloutBlueGreen r rsList st).1 in
  (exists pre c,
      cs = pre ++ [c] /\ isSync c = true
      /\ Forall (fun c' => isSync c' = false) pre
      /\ res = Some (callErr c))
  \/ (Forall (fun c' => isSync c' = false) cs /\ res <> Some None).
Proof.
  cbv zeta. pose proof (rolloutBlueGreen_trace r rsList st) as Htr.
  inversion Htr as [newRS oldRSs e Hcs Hres
                 | newRS oldRSs p a e Hcs Hres
                 | newRS oldRSs p a cs res Hnew Hcs Hres].
  - right. split; [by repeat constructor | discriminate].
  - right. split; [by repeat constructor | discriminate].
  - do 2 (apply syncedLast_cons; [reflexivity|]). by eapply NewRun_syncedLast.
Qed.
End SyncLast.

Section Errors.

Lemma blamesLast_cons c cs res :
  blamesLast cs res -> blamesLast (c :: cs) res.
Proof.
  intros Hb e He. destruct (Hb e He) as (c' & Hlast & Herr).
  exists c'. by rewrite last_cons, Hlast.
Qed.

Lemma blamesLast_app l cs res :
  blamesLast cs res -> blamesLast (l ++ cs) res.
Proof.
  intros Hb. induction l as [|c l IH]; [exact Hb|].
  cbn [app]. by apply blamesLast_cons.
Qed.

Lemma blamesLast_failed c e :
  callErr c = Some e -> blamesLast [c] (Some (Some e)).
Proof. intros Hc e' [= <-]. by exists c. Qed.

Lemma stopsOnError_failed c e :
  callErr c = Some e -> stopsOnError [c] (Some (Some e)).
Proof.
  intros Hc pre c' post Hcs _. left.
  destruct pre as [|? [|? ?]]; simplify_eq/=. by rewrite Hc.
Qed.

Lemma stopsOnError_cons_ok c cs res :
  callErr c = None -> stopsOnError cs res -> stopsOnError (c :: cs) res.
Proof.
  intros Hc Hs pre c' post Hcs Herr.
  destruct pre as [|c0 pre]; simplify_eq/=; try done. by eapply Hs.
Qed.

Lemma stopsOnError_cons_scale c cs res :
  isScale c = true -> stopsOnError cs res -> stopsOnError (c :: cs) res.
Proof.
  intros Hc Hs pre c' post Hcs Herr.
  destruct pre as [|c0 pre]; simplify_eq/=; [by right|]. by eapply Hs.
Qed.

Lemma stopsOnError_app l cs res :
  Forall (fun c => isScale c = true) l ->
  stopsOnError cs res -> stopsOnError (l ++ cs) res.
Proof.
  induction 1 as [|c l Hc _ IH]; intros Hs; [exact Hs|].
  cbn [app]. apply stopsOnError_cons_scale; [exact Hc | by apply IH].
Qed.

Lemma stopsOnErrorBeforeOld_failed c e :
  callErr c = Some e -> stopsOnErrorBeforeOld [c] (Some (Some e)).
Proof.
  intros Hc pre c' post Hcs _. left.
  destruct pre as [|? [|? ?]]; simplify_eq/=. by rewrite Hc.
Qed.

Lemma stopsOnErrorBeforeOld_cons_ok c cs res :
  callErr c = None ->
  stopsOnErrorBeforeOld cs res -> stopsOnErrorBeforeOld (c :: cs) res.
Proof.
  intros Hc Hs pre c' post Hcs Herr.
  destruct pre as [|c0 pre]; simplify_eq/=; try done.
  destruct (Hs pre c' post eq_refl Herr) as [? | (? & ?)]; [by left|].
  right. split; [assumption | by apply Exists_cons_tl].
Qed.

Lemma stopsOnErrorBeforeOld_active c cs res :
  callErr c = None -> isActiveCutover c = true ->
  stopsOnError cs res -> stopsOnErrorBeforeOld (c :: cs) res.
Proof.
  intros Hc Ha Hs pre c' post Hcs Herr.
  destruct pre as [|c0 pre]; simplify_eq/=; try done.
  destruct (Hs pre c' post eq_refl Herr) as [? | ?]; [by left|].
  right. split; [assumption | by apply Exists_cons_hd].
Qed.

Context {W : Type} `{!Collaborators W}.

Lemma SyncRun_errors r newRS oldRSs p a cs res :
  SyncRun r newRS oldRSs p a cs res -> blamesLast cs res /\ stopsOnError cs res.
Proof.
  intros H. inversion H as [err]; subst. split.
  - intros e [= ->]. by eexists.
  - intros pre c post Hcs _. left.
    destruct pre as [|? [|? ?]]; simplify_eq/=. done.
Qed.

Lemma TailRun_errors r newRS oldRSs p a cs res :
  TailRun r newRS oldRSs p a cs res -> blamesLast cs res /\ stopsOnError cs res.
Proof.
  intros H. inversion H; subst.
  - by eapply SyncRun_errors.
  - split; [by apply blamesLast_failed | by apply stopsOnError_failed].
  - edestruct SyncRun_errors as (Hb & Hs); [eassumption|]. split.
    + by apply blamesLast_cons.
    + by apply stopsOnError_cons_ok.
Qed.

Lemma OldRun_errors r newRS oldRSs p a cs res :
  OldRun r newRS oldRSs p a cs res -> blamesLast cs res /\ stopsOnError cs res.
Proof.
  intros H. inversion H as [ev sc cs' res' Hshape _ _ Hs | ev sc cs' res' Hshape Ht];
    subst; destruct (OldScaling_isScale _ _ _ _ _ Hshape) as (He & Hz).
  - edestruct SyncRun_errors as (Hb & Hstop); [eassumption|]. split.
    + by do 2 apply blamesLast_app.
    + by do 2 (apply stopsOnError_app; [assumption|]).
  - edestruct TailRun_errors as (Hb & Hstop); [eassumption|]. split.
    + by do 2 apply blamesLast_app.
    + by do 2 (apply stopsOnError_app; [assumption|]).
Qed.

Lemma ActiveRun_errors r newRS oldRSs p a cs res :
  ActiveRun r newRS oldRSs p a cs res ->
  blamesLast cs res /\ stopsOnErrorBeforeOld cs res.
Proof.
  intros H. inversion H; subst.
  - split; [by apply blamesLast_failed | by apply stopsOnErrorBeforeOld_failed].
  - edestruct SyncRun_errors as (Hb & Hstop); [eassumption|]. split.
    + by apply blamesLast_cons.
    + by apply stopsOnErrorBeforeOld_active.
  - edestruct OldRun_errors as (Hb & Hstop); [eassumption|]. split.
    + by apply blamesLast_cons.
    + by apply stopsOnErrorBeforeOld_active.
Qed.

Lemma SyncRun_stopsOnErrorBeforeOld r newRS oldRSs p a cs res :
  SyncRun r newRS oldRSs p a cs res -> stopsOnErrorBeforeOld cs res.
Proof.
  intros H. inversion H as [err]; subst. intros pre c post Hcs _. left.
  destruct pre as [|? [|? ?]]; simplify_eq/=. done.
Qed.
Lemma PreviewRun_errors r newRS oldRSs p a cs res :
  PreviewRun r newRS oldRSs p a cs res ->
  blamesLast cs res /\ stopsOnErrorBeforeOld cs res.
Proof.
  intros H. inversion H; subst.
  - by eapply ActiveRun_errors.
  - split; [by apply blamesLast_failed | by apply stopsOnErrorBeforeOld_failed].
  - split.
    + apply blamesLast_cons. by eapply SyncRun_errors.
    + apply stopsOnErrorBeforeOld_cons_ok; [reflexivity|].
      by eapply SyncRun_stopsOnErrorBeforeOld.
  - split; [by intros e [=]|]. intros pre c post Hcs Herr.
    by destruct pre as [|? [|? ?]]; simplify_eq/=.
  - split.
    + apply blamesLast_cons. by eapply SyncRun_errors.
    + apply stopsOnErrorBeforeOld_cons_ok; [reflexivity|].
      by eapply SyncRun_stopsOnErrorBeforeOld.
  - edestruct ActiveRun_errors as (Hb & Hstop); [eassumption|]. split.
    + by apply blamesLast_cons.
    + by apply stopsOnErrorBeforeOld_cons_ok.
Qed.

Lemma NewRun_errors r newRS oldRSs p a cs res :
  NewRun r newRS oldRSs p a cs res ->
  (forall e, res = Some (Some e) ->
     (exists c, last cs = Some c /\ callErr c = Some e)
     \/ (cs = []
         /\ exists count,
             NewRSNewReplicas r (oldRSs ++ [newRS]) newRS = (count, Some e)))
  /\ stopsOnErrorBeforeOld cs res.
Proof.
  intros H. inversion H; subst.
  - edestruct PreviewRun_errors as (Hb & Hstop); [eassumption|].
    split; [|exact Hstop]. intros e He. left. by apply Hb.
  - split.
    + intros e' [= <-]. right. split; [reflexivity | by eexists].
    + intros pre c post Hcs. by destruct pre.
  - split; [|by apply stopsOnErrorBeforeOld_failed].
    intros e' He. left. by apply (blamesLast_failed _ e).
  - split.
    + intros e He. left. eapply blamesLast_cons; [|exact He].
      by eapply SyncRun_errors.
    + apply stopsOnErrorBeforeOld_cons_ok; [reflexivity|].
      by eapply SyncRun_stopsOnErrorBeforeOld.
  - edestruct PreviewRun_errors as (Hb & Hstop); [eassumption|]. split.
    + intros e He. left. by eapply blamesLast_cons.
    + by apply stopsOnErrorBeforeOld_cons_ok.
Qed.

Context `{!ByCreationTimestamp}.

(** X14. Where an error comes from.  An error returned by a pass is the
    error its last call returned; or it is the error of the ramp function
    ([NewRSNewReplicas]), and then the pass has made the two fetches and
    nothing else. *)
Theorem rolloutBlueGreen_error_provenance
    (r : Rollout) (rsList : list ReplicaSet) (st : State W) (e : string) :
  (rolloutBlueGreen r rsList st).1 = Some (Some e) ->
  let cs := callsOf (rolloutBlueGreen r rsList) st in
  (exists c, last cs = Some c /\ callErr c = Some e)
  \/ (exists newRS oldRSs previewSvc activeSvc count,
        cs = [CallGetAllReplicaSetsAndSyncRevision r rsList true
                (newRS, oldRSs, None);
              CallGetPreviewAndActiveServices r (previewSvc, activeSvc, None)]
        /\ NewRSNewReplicas r (oldRSs ++ [newRS]) newRS = (count, Some e)).
Proof.
  intros He. cbv zeta. pose proof (rolloutBlueGreen_trace r rsList st) as Htr.
  rewrite He in Htr.
  inversion Htr as [newRS oldRSs e' Hcs Hres
                   | newRS oldRSs p a e' Hcs Hres
                   | newRS oldRSs p a cs res Hnew Hcs Hres].
  - left. by eexists.
  - left. by eexists.
  - subst res. destruct (proj1 (NewRun_errors _ _ _ _ _ _ _ Hnew) e eq_refl)
      as [(c & Hlast & Herr) | (-> & count & Hramp)].
    + left. exists c. split; [|exact Herr].
      by rewrite !last_cons, Hlast.
    + right. by exists newRS, oldRSs, p, a, count.
Qed.

(** X15. A failing call ends the pass.  A call of a pass that returns an
    error is the last call of the pass, and the pass returns that error;
    the one exception is a scale call made after the cutover of the active
    service, that is, a scale call of the scale-down of the old groups. *)
Theorem rolloutBlueGreen_failing_call_ends_pass
    (r : Rollout) (rsList : list ReplicaSet) (st : State W)
    (pre : list Call) (c : Call) (post : list Call) :
  callsOf (rolloutBlueGreen r rsList) st = pre ++ c :: post ->
  callErr c <> None ->
  (post = [] /\ (rolloutBlueGreen r rsList st).1 = Some (callErr c))
  \/ (isScale c = true /\ Exists (fun c' => isActiveCutover c' = true) pre).
Proof.
  pose proof (rolloutBlueGreen_trace r rsList st) as Htr.
  revert pre c post.
  change (stopsOnErrorBeforeOld (callsOf (rolloutBlueGreen r rsList) st)
            (rolloutBlueGreen r rsList st).1).
  inversion Htr as [newRS oldRSs e' Hcs Hres
                   | newRS oldRSs p a e' Hcs Hres
                   | newRS oldRSs p a cs res Hnew Hcs Hres].
  - by apply stopsOnErrorBeforeOld_failed.
  - apply stopsOnErrorBeforeOld_cons_ok; [reflexivity|].
    by apply stopsOnErrorBeforeOld_failed.
  - do 2 (apply stopsOnErrorBeforeOld_cons_ok; [reflexivity|]).
    by eapply NewRun_errors.
Qed.
End Errors.

Section Panic.
Context {W : Type} `{!Collaborators W}.

Lemma reconcileVerifyingPreview_panics activeSvc rollout :
  reconcileVerifyingPreview activeSvc rollout = None ->
  activeSvc = None /\ PreviewService rollout <> ""%string.
Proof.
  unfold reconcileVerifyingPreview.
  destruct (String.eqb (PreviewService rollout) "") eqn:En; [discriminate|].
  apply String.eqb_neq in En. destruct activeSvc as [svc|]; [|done].
  destruct (_ !! _); [|discriminate].
  by destruct (VerifyingPreview rollout).
Qed.

Lemma SyncRun_returns r newRS oldRSs p a cs res :
  SyncRun r newRS oldRSs p a cs res -> res <> None.
Proof. intros H. by inversion H. Qed.

Lemma TailRun_returns r newRS oldRSs p a cs res :
  TailRun r newRS oldRSs p a cs res -> res <> None.
Proof. intros H. inversion H; subst; eauto using SyncRun_returns. Qed.

Lemma OldRun_returns r newRS oldRSs p a cs res :
  OldRun r newRS oldRSs p a cs res -> res <> None.
Proof.
  intros H. inversion H; subst; eauto using SyncRun_returns, TailRun_returns.
Qed.

Lemma ActiveRun_returns r newRS oldRSs p a cs res :
  ActiveRun r newRS oldRSs p a cs res -> res <> None.
Proof.
  intros H. inversion H; subst; eauto using SyncRun_returns, OldRun_returns.
Qed.

Lemma PreviewRun_panic_inv r newRS oldRSs p a cs :
  PreviewRun r newRS oldRSs p a cs None ->
  cs = [CallReconcilePreviewService r newRS p a (false, None)]
  /\ p <> None /\ a = None /\ PreviewService r <> ""%string.
Proof.
  intros H. inversion H as [ ? ? ? Ha | | ? ? ? Hs | Hp Hgate | ? ? ? ? Hs | ? ? ? ? Ha];
    subst.
  - by apply ActiveRun_returns in Ha.
  - by apply SyncRun_returns in Hs.
  - destruct (reconcileVerifyingPreview_panics _ _ Hgate). done.
  - by apply SyncRun_returns in Hs.
  - by apply ActiveRun_returns in Ha.
Qed.

Lemma NewRun_panic_inv r newRS oldRSs p a cs :
  NewRun r newRS oldRSs p a cs None ->
  exists scaling,
    cs = scaling ++ [CallReconcilePreviewService r newRS p a (false, None)]
    /\ (scaling = []
        \/ exists n updated,
            scaling = [CallScaleReplicaSetAndRecordEvent newRS n r
                         (false, updated, None)])
    /\ p <> None /\ a = None /\ PreviewService r <> ""%string.
Proof.
  intros H. inversion H as [ ? ? ? Hp | | | ? ? ? ? ? Hs | n updated ? ? ? Hp];
    subst.
  - destruct (PreviewRun_panic_inv _ _ _ _ _ _ Hp) as (-> & ?).
    exists []. split; [reflexivity|]. split; [by left | done].
  - by apply SyncRun_returns in Hs.
  - destruct (PreviewRun_panic_inv _ _ _ _ _ _ Hp) as (-> & ?).
    eexists [_]. split; [reflexivity|]. split; [right; by eexists _, _ | done].
Qed.

Context `{!ByCreationTimestamp}.

(** X16. When a pass panics.  A pass panics only at the gate: the rollout
    names a preview service, the fetch returned a preview service and a nil
    active service, the scaling of the new group (if any) and the cutover of
    the preview service reported no change and no error, and the cutover of
    the preview service is the last call: the pass ends without a cutover of
    the active service, a cleanup or a status sync. *)
Theorem rolloutBlueGreen_panics_only_at_gate
    (r : Rollout) (rsList : list ReplicaSet) (st : State W) :
  (rolloutBlueGreen r rsList st).1 = None ->
  exists newRS oldRSs previewSvc scaling,
    callsOf (rolloutBlueGreen r rsList) st
    = CallGetAllReplicaSetsAndSyncRevision r rsList true (newRS, oldRSs, None)
      :: CallGetPreviewAndActiveServices r (Some previewSvc, None, None)
      :: scaling
      ++ [CallReconcilePreviewService r newRS (Some previewSvc) None (false, None)]
    /\ (scaling = []
        \/ exists n updated,
            scaling = [CallScaleReplicaSetAndRecordEvent newRS n r
                         (false, updated, None)])
    /\ PreviewService r <> ""%string.
Proof.
  intros Hres. pose proof (rolloutBlueGreen_trace r rsList st) as Htr.
  rewrite Hres in Htr.
  inversion Htr as [ | | newRS oldRSs p a cs res Hnew Hcs Hnone].
  destruct (NewRun_panic_inv _ _ _ _ _ _ Hnew)
    as (scaling & -> & Hscaling & Hp & -> & Hname).
  destruct p as [p|]; [|done].
  by exists newRS, oldRSs, p, scaling.
Qed.
End Panic.

Section Snapshot.
Context {W : Type} `{!Collaborators W}.

Lemma OldScaling_onSnapshot r newRS oldRSs p a evictions scalings :
  OldScaling r newRS oldRSs evictions scalings ->
  Forall (onSnapshot r newRS oldRSs p a) (evictions ++ scalings).
Proof.
  intros (Hev & Hz & _). apply Forall_app. split.
  - eapply Forall_impl; [exact Hev|]. by intros c (rs & reply & -> & _).
  - eapply Forall_impl; [exact Hz|]. by intros c (rs & reply & ->).
Qed.

Lemma SyncRun_onSnapshot r newRS oldRSs p a cs res :
  SyncRun r newRS oldRSs p a cs res ->
  Forall (onSnapshot r newRS oldRSs p a) cs.
Proof. intros H. inversion H; subst. by repeat constructor. Qed.

Lemma TailRun_onSnapshot r newRS oldRSs p a cs res :
  TailRun r newRS oldRSs p a cs res ->
  Forall (onSnapshot r newRS oldRSs p a) cs.
Proof.
  intros H. inversion H; subst.
  - by eapply SyncRun_onSnapshot.
  - by repeat constructor.
  - constructor; [done | by eapply SyncRun_onSnapshot].
Qed.

Lemma OldRun_onSnapshot r newRS oldRSs p a cs res :
  OldRun r newRS oldRSs p a cs res ->
  Forall (onSnapshot r newRS oldRSs p a) cs.
Proof.
  intros H. inversion H; subst; rewrite app_assoc; apply Forall_app; split;
    eauto using OldScaling_onSnapshot, SyncRun_onSnapshot, TailRun_onSnapshot.
Qed.

Lemma ActiveRun_onSnapshot r newRS oldRSs p a cs res :
  ActiveRun r newRS oldRSs p a cs res ->
  Forall (onSnapshot r newRS oldRSs p a) cs.
Proof.
  intros H. inversion H; subst; (constructor; [done|]);
    eauto using SyncRun_onSnapshot, OldRun_onSnapshot.
Qed.

Lemma PreviewRun_onSnapshot r newRS oldRSs p a cs res :
  PreviewRun r newRS oldRSs p a cs res ->
  Forall (onSnapshot r newRS oldRSs p a) cs.
Proof.
  intros H. inversion H; subst; try (constructor; [done|]);
    eauto using SyncRun_onSnapshot, ActiveRun_onSnapshot.
Qed.

Lemma NewRun_onSnapshot r newRS oldRSs p a cs res :
  NewRun r newRS oldRSs p a cs res ->
  Forall (onSnapshot r newRS oldRSs p a) cs.
Proof.
  intros H. inversion H; subst; try (constructor; [done|]);
    eauto using SyncRun_onSnapshot, PreviewRun_onSnapshot.
Qed.

Context `{!ByCreationTimestamp}.

(** X17. A pass works on what it fetched.  The first call of a pass fetches
    the groups, for the rollout and the list given and asking for the
    creation of the new group; when it succeeds the second call fetches the
    services.  Every later call is given the rollout, the new group, the old
    groups and the services as these two calls returned them, also after
    scale calls have updated groups: the cutovers get the new group and both
    services, the cleanup gets all the old groups (not only the active
    ones) and is only called for a complete rollout, and the status sync
    gets the old groups followed by the new group.  (The collaborators are
    taken to leave the objects they are handed as they are: a scale call
    returns the updated group as a new object.) *)
Theorem rolloutBlueGreen_works_on_fetched_snapshot
    (r : Rollout) (rsList : list ReplicaSet) (st : State W) :
  let cs := callsOf (rolloutBlueGreen r rsList) st in
  (exists newRS oldRSs e,
      cs = [CallGetAllReplicaSetsAndSyncRevision r rsList true
              (newRS, oldRSs, Some e)])
  \/ (exists newRS oldRSs previewSvc activeSvc err rest,
        cs = CallGetAllReplicaSetsAndSyncRevision r rsList true
               (newRS, oldRSs, None)
             :: CallGetPreviewAndActiveServices r (previewSvc, activeSvc, err)
             :: rest
        /\ Forall (onSnapshot r newRS oldRSs previewSvc activeSvc) rest
        /\ (err <> None -> rest = [])).
Proof.
  cbv zeta. pose proof (rolloutBlueGreen_trace r rsList st) as Htr.
  inversion Htr as [newRS oldRSs e' Hcs Hres
                   | newRS oldRSs p a e' Hcs Hres
                   | newRS oldRSs p a cs res Hnew Hcs Hres].
  - left. by eexists _, _, _.
  - right. eexists _, _, _, _, _, []. by repeat split.
  - right. eexists _, _, _, _, _, cs. split; [reflexivity|].
    split; [by eapply NewRun_onSnapshot | done].
Qed.
End Snapshot.

Section ScaleCalls.
Context {W : Type} `{!Collaborators W}.

Lemma SyncRun_no_scale r newRS oldRSs p a cs res :
  SyncRun r newRS oldRSs p a cs res -> Forall (fun c => isScale c = false) cs.
Proof. intros H. inversion H; subst. by repeat constructor. Qed.

Lemma TailRun_no_scale r newRS oldRSs p a cs res :
  TailRun r newRS oldRSs p a cs res -> Forall (fun c => isScale c = false) cs.
Proof.
  intros H. inversion H; subst; repeat constructor;
    eauto using SyncRun_no_scale.
Qed.

Lemma no_scale_mid cs pre c post :
  Forall (fun c' => isScale c' = false) cs ->
  cs = pre ++ c :: post -> isScale c = true -> False.
Proof.
  intros Hall -> Hc. rewrite Forall_app, Forall_cons in Hall.
  destruct Hall as (_ & Hc' & _). congruence.
Qed.

Lemma OldRun_scale r newRS oldRSs p a cs res c :
  OldRun r newRS oldRSs p a cs res ->
  c ∈ cs -> isScale c = true ->
  IsSaturated r newRS = true
  /\ (evicts r (FilterActiveReplicaSets oldRSs) c \/ scalesToZero r c).
Proof.
  intros Hrun Hin Hc.
  assert (Hgen : forall ev sc rest,
    OldScaling r newRS oldRSs ev sc ->
    Forall (fun c' => isScale c' = false) rest ->
    c ∈ ev ++ sc ++ rest ->
    IsSaturated r newRS = true
    /\ (evicts r (FilterActiveReplicaSets oldRSs) c \/ scalesToZero r c)).
  { intros ev sc rest (Hev & Hz & Hsat & _) Hrest
      [Hi | [Hi | Hi]%elem_of_app]%elem_of_app.
    - split.
      + apply Hsat. intros [-> _]%app_eq_nil. by apply elem_of_nil in Hi.
      + left. by apply (proj1 (Forall_forall _ _) Hev).
    - split.
      + apply Hsat. intros [_ ->]%app_eq_nil. by apply elem_of_nil in Hi.
      + right. by apply (proj1 (Forall_forall _ _) Hz).
    - apply (proj1 (Forall_forall _ _) Hrest) in Hi. congruence. }
  inversion Hrun as [ev sc rest ? Hshape _ _ Hs | ev sc rest ? Hshape Ht]; subst.
  - eapply (Hgen ev sc rest); [exact Hshape | by eapply SyncRun_no_scale | exact Hin].
  - eapply (Hgen ev sc rest); [exact Hshape | by eapply TailRun_no_scale | exact Hin].
Qed.

Lemma ActiveRun_scale r newRS oldRSs p a cs res pre c post :
  ActiveRun r newRS oldRSs p a cs res ->
  cs = pre ++ c :: post -> isScale c = true ->
  scalesOldDown r newRS oldRSs p a pre c.
Proof.
  intros Hrun Hcs Hc. inversion Hrun as [ | ? ? Hs | cs' ? Hold]; subst.
  - by destruct pre as [|? [|? ?]]; simplify_eq/=.
  - destruct pre as [|c0 pre]; simplify_eq/=.
    destruct (no_scale_mid _ _ _ _ (SyncRun_no_scale _ _ _ _ _ _ _ Hs) eq_refl Hc).
  - destruct pre as [|c0 pre]; simplify_eq/=.
    destruct (OldRun_scale _ _ _ _ _ _ _ c Hold) as (Hsat & Hkind);
      [set_solver | exact Hc |].
    split; [by left | done].
Qed.

Lemma PreviewRun_scale r newRS oldRSs p a cs res pre c post :
  PreviewRun r newRS oldRSs p a cs res ->
  cs = pre ++ c :: post -> isScale c = true ->
  scalesOldDown r newRS oldRSs p a pre c
  /\ (p = None \/ reconcileVerifyingPreview a r = Some false).
Proof.
  intros Hrun Hcs Hc.
  inversion Hrun as [ ? ? Hp Ha | | ? ? ? Hs | | ? ? ? ? Hs | cs' ? ? Hgate Ha];
    subst.
  - split; [by eapply ActiveRun_scale | by left].
  - by destruct pre as [|? [|? ?]]; simplify_eq/=.
  - destruct pre as [|c0 pre]; simplify_eq/=.
    destruct (no_scale_mid _ _ _ _ (SyncRun_no_scale _ _ _ _ _ _ _ Hs) eq_refl Hc).
  - by destruct pre as [|? [|? ?]]; simplify_eq/=.
  - destruct pre as [|c0 pre]; simplify_eq/=.
    destruct (no_scale_mid _ _ _ _ (SyncRun_no_scale _ _ _ _ _ _ _ Hs) eq_refl Hc).
  - destruct pre as [|c0 pre]; simplify_eq/=.
    destruct (ActiveRun_scale _ _ _ _ _ _ _ _ _ _ Ha eq_refl Hc)
      as (Hin & Hsat & Hkind).
    split; [|by right]. split; [by right | done].
Qed.

Lemma NewRun_scale r newRS oldRSs p a cs res pre c post :
  NewRun r newRS oldRSs p a cs res ->
  cs = pre ++ c :: post -> isScale c = true ->
  (pre = []
   /\ SpecReplicas newRS <> GetRolloutReplicasOrDefault r
   /\ exists n reply, c = CallScaleReplicaSetAndRecordEvent newRS n r reply)
  \/ (scalesOldDown r newRS oldRSs p a pre c
      /\ (p = None \/ reconcileVerifyingPreview a r = Some false)).
Proof.
  intros Hrun Hcs Hc.
  inversion Hrun as [ ? ? ? Hp | | | ? ? ? ? ? Hs | ? ? cs' ? ? Hp]; subst.
  - right. by eapply PreviewRun_scale.
  - by destruct pre.
  - left. destruct pre as [|? [|? ?]]; simplify_eq/=.
    split; [reflexivity|]. split; [assumption | by eexists _, _].
  - destruct pre as [|c0 pre]; simplify_eq/=.
    + left. split; [reflexivity|]. split; [assumption | by eexists _, _].
    + destruct (no_scale_mid _ _ _ _ (SyncRun_no_scale _ _ _ _ _ _ _ Hs) eq_refl Hc).
  - destruct pre as [|c0 pre]; simplify_eq/=.
    + left. split; [reflexivity|]. split; [assumption | by eexists _, _].
    + right.
      destruct (PreviewRun_scale _ _ _ _ _ _ _ _ _ _ Hp eq_refl Hc)
        as ((Hin & Hsat & Hkind) & Hgate).
      split; [|exact Hgate]. split; [by right | done].
Qed.

Context `{!ByCreationTimestamp}.

(** X18. What a pass scales, and when.  A scale call of a pass is either
    the scaling of the new group, made right after the two fetches for a
    new group whose desired count differs from the rollout's; or it belongs
    to the scale-down of the old groups: then the active service has been
    reconciled before it without a switch and without an error, the gate is
    open (or there is no preview service), the new group is saturated, and
    the call evicts the unhealthy units of an active old group or scales a
    group to zero. *)
Theorem rolloutBlueGreen_scale_calls
    (r : Rollout) (rsList : list ReplicaSet) (st : State W)
    (pre : list Call) (c : Call) (post : list Call) :
  callsOf (rolloutBlueGreen r rsList) st = pre ++ c :: post ->
  isScale c = true ->
  exists newRS oldRSs previewSvc activeSvc mid,
    pre = CallGetAllReplicaSetsAndSyncRevision r rsList true (newRS, oldRSs, None)
          :: CallGetPreviewAndActiveServices r (previewSvc, activeSvc, None)
          :: mid
    /\ ((mid = []
         /\ SpecReplicas newRS <> GetRolloutReplicasOrDefault r
         /\ exists n reply, c = CallScaleReplicaSetAndRecordEvent newRS n r reply)
        \/ (CallReconcileActiveService r newRS previewSvc activeSvc (false, None)
              ∈ mid
            /\ (previewSvc = None
                \/ reconcileVerifyingPreview activeSvc r = Some false)
            /\ IsSaturated r newRS = true
            /\ (evicts r (FilterActiveReplicaSets oldRSs) c
                \/ scalesToZero r c))).
Proof.
  intros Hcs Hc. pose proof (rolloutBlueGreen_trace r rsList st) as Htr.
  rewrite Hcs in Htr.
  inversion Htr as [newRS oldRSs e' Heq Hres
                   | newRS oldRSs p a e' Heq Hres
                   | newRS oldRSs p a cs res Hnew Heq Hres].
  - by destruct pre as [|? [|? ?]]; simplify_eq/=.
  - by destruct pre as [|? [|? [|? ?]]]; simplify_eq/=.
  - destruct pre as [|c0 [|c1 mid]]; simplify_eq/=.
    exists newRS, oldRSs, p, a, mid. split; [reflexivity|].
    destruct (NewRun_scale _ _ _ _ _ _ _ _ _ _ Hnew eq_refl Hc)
      as [? | ((Hin & Hsat & Hkind) & Hgate)]; [by left | by right].
Qed.
End ScaleCalls.

(** ** The gate reads the presence of one label *)

Section GateMore.
Context {W : Type} `{!Collaborators W}.

(** X11. What the gate reads of the active service.  With an active service
    at hand the gate always answers (it does not panic), and its answer
    depends on the service only through the presence of the unique-label key
    in its selector: neither the value under the key, nor the other labels,
    nor the name of the service matter. *)
Theorem reconcileVerifyingPreview_reads_key_presence
    (svc svc' : Service) (rollout : Rollout) :
  (is_Some (SpecSelector svc !! DefaultRolloutUniqueLabelKey)
   <-> is_Some (SpecSelector svc' !! DefaultRolloutUniqueLabelKey)) ->
  reconcileVerifyingPreview (Some svc) rollout
  = reconcileVerifyingPreview (Some svc') rollout
  /\ is_Some (reconcileVerifyingPreview (Some svc) rollout).
Proof.
  intros Hkey. split.
  - unfold reconcileVerifyingPreview.
    destruct (String.eqb (PreviewService rollout) ""); [reflexivity|].
    destruct (SpecSelector svc !! DefaultRolloutUniqueLabelKey) as [v|] eqn:E;
      destruct (SpecSelector svc' !! DefaultRolloutUniqueLabelKey) as [v'|] eqn:E';
      try reflexivity.
    + destruct (proj1 Hkey) as [? [=]]. by eexists.
    + destruct (proj2 Hkey) as [? [=]]. by eexists.
  - apply reconcileVerifyingPreview_defined. right. by eexists.
Qed.
End GateMore.

(** * The controller on the in-memory cluster *)

Module Examples.
Import InMemory Samples.

(** ** Error of the scale-down step *)

(** C2. The scale-down step fails on the old group and returns the error
    of the collaborator; the pass makes this failing call, goes on to the
    cleanup and the status sync, and returns a nil error. *)
Theorem rolloutBlueGreen_swallows_scale_down_error :
  (scaleDownOldReplicaSetsForBlueGreen [staleOld; readyNew] [staleOld]
     oneReplica rejectingOld).1 = Some (0, Some modified)
  /\ CallScaleReplicaSetAndRecordEvent staleOld 0 oneReplica
       (false, staleOld, Some modified)
     ∈ callsOf (rolloutBlueGreen oneReplica [readyNew; staleOld]) rejectingOld
  /\ (rolloutBlueGreen oneReplica [readyNew; staleOld] rejectingOld).1 = Some None
  /\ callErr <$> callsOf (rolloutBlueGreen oneReplica [readyNew; staleOld]) rejectingOld
     = [None; None; None; Some modified; None; None].
Proof.
  split; [by vm_compute|]. split; [|split; by vm_compute].
  assert (Hcalls : exists pre post,
    callsOf (rolloutBlueGreen oneReplica [readyNew; staleOld]) rejectingOld
    = pre ++ CallScaleReplicaSetAndRecordEvent staleOld 0 oneReplica
               (false, staleOld, Some modified) :: post).
  { eexists [_; _; _], [_; _]. by vm_compute. }
  destruct Hcalls as (pre & post & ->).
  apply elem_of_app. right. apply list_elem_of_here.
Qed.

(** ** The verification gate *)

(** C5, counterexample.  A rollout that names a preview service and is
    verifying, with a nil active service: the active selector has no
    selector map with the revision key, so a condition of the gate is
    missing, and yet the gate does not return false: it panics. *)
Lemma reconcileVerifyingPreview_missing_condition_counterexample :
  ~ gateHeld (W := Cluster) None verifying
  /\ reconcileVerifyingPreview (W := Cluster) None verifying <> Some false
  /\ reconcileVerifyingPreview (W := Cluster) None verifying = None.
Proof.
  split; [|split; by vm_compute].
  intros (_ & (svc & Hsvc & _) & _). discriminate.
Qed.

Lemma reconcileVerifyingPreview_spec_witness :
  reconcileVerifyingPreview (W := Cluster) (Some (service "active" None)) verifying
  = Some false.
Proof.
  apply (proj1 (proj2 (reconcileVerifyingPreview_spec
                         (Some (service "active" None)) verifying
                         (cluster [] [] None None)))).
  - right. by eexists.
  - intros (_ & (svc & [= <-] & Hkey) & _). vm_compute in Hkey.
    by destruct Hkey.
Defined.

Lemma reconcileVerifyingPreview_nil_active_witness :
  reconcileVerifyingPreview (W := Cluster) None verifying = None.
Proof.
  apply (reconcileVerifyingPreview_nil_active (W := Cluster) verifying).
  discriminate.
Defined.

(** With a nil active service the whole pass panics at the gate, after the
    preview cutover. *)
Example rolloutBlueGreen_panics_at_gate :
  let current := group "new" 2 2 2 in
  let st := cluster [current] [] (previewFor "new") None in
  (rolloutBlueGreen verifying [current] st).1 = None
  /\ isPreviewCutover
       <$> last (callsOf (rolloutBlueGreen verifying [current]) st) = Some true.
Proof. by vm_compute. Qed.

(** ** Gate precedence *)

(** C7, counterexample.  All conditions of the gate hold, and the pass
    stops on the error of the new group scaler: it returns this error and
    never syncs the status. *)
Lemma rolloutBlueGreen_gate_without_sync_counterexample :
  VerifyingPreview verifying = Some true
  /\ PreviewService verifying <> ""%string
  /\ fetched verifying [freshNew; servingOld] rejectingNew
       freshNew [servingOld] (previewFor "new") (activeFor "old") rejectingNew1
  /\ is_Some (SpecSelector (service "active" (Some "old"%string)) !! labelKey)
  /\ (rolloutBlueGreen verifying [freshNew; servingOld] rejectingNew).1
     = Some (Some modified)
  /\ isSync <$> callsOf (rolloutBlueGreen verifying [freshNew; servingOld]) rejectingNew
     = [false; false; false].
Proof.
  split; [reflexivity|]. split; [discriminate|].
  split; [exists rejectingNew0; split; by vm_compute|].
  split; [vm_compute; by eexists|]. split; by vm_compute.
Qed.

Lemma rolloutBlueGreen_gate_precedence_witness :
  Forall (fun c => isActiveCutover c = false /\ isCleanup c = false)
    (callsOf (rolloutBlueGreen verifying [freshNew; servingOld]) rejectingNew).
Proof.
  refine (proj1 (rolloutBlueGreen_gate_precedence verifying [freshNew; servingOld]
                   rejectingNew rejectingNew1 freshNew [servingOld]
                   (service "preview" (Some "new"%string))
                   (service "active" (Some "old"%string)) _ _ _ _)).
  - exists rejectingNew0. split; by vm_compute.
  - discriminate.
  - vm_compute. by eexists.
  - reflexivity.
Defined.

(** The gate holds a pass that nothing stops before it: the new group is
    at its count, the preview service already points to it. *)
Example rolloutBlueGreen_held_at_gate :
  let current := group "new" 2 2 2 in
  let st := cluster [current; servingOld] [] (previewFor "new") (activeFor "old") in
  (rolloutBlueGreen verifying [current; servingOld] st).1 = Some None
  /\ world (rolloutBlueGreen verifying [current; servingOld] st).2 = world st
  /\ isSync <$> callsOf (rolloutBlueGreen verifying [current; servingOld]) st
     = [false; false; false; true].
Proof. by vm_compute. Qed.

(** ** Safe scale-down *)

Lemma scaleDownOldReplicaSetsForBlueGreen_capacity_safety_witness :
  scaleDownOldReplicaSetsForBlueGreen [downOld; downNew] [downOld]
    fourReplicas noSurplus
  = (Some (0, None), noSurplus).
Proof.
  apply (proj1 (scaleDownOldReplicaSetsForBlueGreen_capacity_safety
                  [downOld; downNew] [downOld] fourReplicas noSurplus)).
  vm_compute. discriminate.
Defined.

(** C10, counterexample.  Without surplus the step returns 0 although no
    call failed (none was made) and the old group has a desired count of
    two. *)
Lemma scaleDownOldReplicaSetsForBlueGreen_total_counterexample :
  (scaleDownOldReplicaSetsForBlueGreen [downOld; downNew] [downOld]
     fourReplicas noSurplus).1 = Some (0, None)
  /\ callsOf (scaleDownOldReplicaSetsForBlueGreen [downOld; downNew] [downOld]
                fourReplicas) noSurplus = []
  /\ GetReplicaCountForReplicaSets (List.filter nonzero [downOld]) = 2
  /\ sumZ (SpecReplicas <$> List.filter nonzero [downOld]) = 2.
Proof. by vm_compute. Qed.

Lemma scaleDownOldReplicaSetsForBlueGreen_accounting_witness :
  exists st',
    scaleDownOldReplicaSetsForBlueGreen [groupX; fullNew] [groupX]
      fourReplicas surplus
    = (Some (4, None), st').
Proof.
  destruct (scaleDownOldReplicaSetsForBlueGreen_accounting
              [groupX; fullNew] [groupX] fourReplicas surplus)
    as (n & err & st' & Hrun & Herr & Hsum); [by vm_compute|].
  exists st'. rewrite Hrun.
  assert (Hnone : err = None).
  { apply Herr. vm_compute. by repeat constructor. }
  subst err. destruct (Hsum eq_refl) as (-> & _). reflexivity.
Defined.

(** The surplus scenario of the spec: X goes to zero and four units are
    reported. *)
Example scaleDownOldReplicaSetsForBlueGreen_surplus_scenario :
  (scaleDownOldReplicaSetsForBlueGreen [groupX; fullNew] [groupX]
     fourReplicas surplus).1 = Some (4, None)
  /\ scaleCalls (callsOf (scaleDownOldReplicaSetsForBlueGreen [groupX; fullNew]
                            [groupX] fourReplicas) surplus)
     = [(groupX, 0)]
  /\ SpecReplicas
       <$> groups (world (scaleDownOldReplicaSetsForBlueGreen [groupX; fullNew]
                            [groupX] fourReplicas surplus).2)
     = [4; 0].
Proof. by vm_compute. Qed.

(** The total counts groups that did not change: the controller still sees
    four desired replicas on X, which the cluster has at zero already; the
    collaborator reports no change, and four units are reported. *)
Example scaleDownOldReplicaSetsForBlueGreen_counts_unchanged_groups :
  let st := cluster [fullNew; group "x" 1 0 4] [] None (activeFor "new") in
  let out := scaleDownOldReplicaSetsForBlueGreen [groupX; fullNew] [groupX]
               fourReplicas st in
  out.1 = Some (4, None)
  /\ world out.2 = world st
  /\ callsOf (scaleDownOldReplicaSetsForBlueGreen [groupX; fullNew] [groupX]
                fourReplicas) st
     = [CallScaleReplicaSetAndRecordEvent groupX 0 fourReplicas
          (false, group "x" 1 0 4, None)].
Proof. by vm_compute. Qed.

(** ** Unhealthy eviction *)

Example cleanupUnhealthyReplicas_ordering_scenario :
  (cleanupUnhealthyReplicas [groupB; groupA] fourReplicas twoOld).1
  = Some ([group "a" 1 1 1; groupB], 2, None)
  /\ scaleCalls (callsOf (cleanupUnhealthyReplicas [groupB; groupA] fourReplicas) twoOld)
     = [(groupA, 1)].
Proof. by vm_compute. Qed.

(** The oldest group reports more available replicas than it wants: the
    step gives up with the invalid-request error, before any call. *)
Example cleanupUnhealthyReplicas_invalid_scenario :
  let odd := group "odd" 0 1 3 in
  let st := cluster [fullNew; odd; groupA] [] None (activeFor "new") in
  (cleanupUnhealthyReplicas [groupA; odd] fourReplicas st).1
  = Some ([], 0,
          Some "when cleaning up unhealthy replicas, got invalid request to scale down default/odd 1 -> 3"%string)
  /\ (cleanupUnhealthyReplicas [groupA; odd] fourReplicas st).2 = st.
Proof. by vm_compute. Qed.

Lemma cleanupUnhealthyReplicas_monotonic_witness :
  exists rss total err st',
    cleanupUnhealthyReplicas [groupB; groupA] fourReplicas twoOld
    = (Some (rss, total, err), st')
    /\ Forall (evicts fourReplicas [groupB; groupA])
         (callsOf (cleanupUnhealthyReplicas [groupB; groupA] fourReplicas) twoOld).
Proof.
  destruct (cleanupUnhealthyReplicas_monotonic [groupB; groupA] fourReplicas twoOld)
    as (rss & total & err & st' & Hrun & Hcalls & _).
  by exists rss, total, err, st'.
Defined.

Lemma old_groups_oldest_first_witness :
  StronglySorted older
    (scaleCalls (callsOf (cleanupUnhealthyReplicas [groupB; groupA] fourReplicas)
                   twoOld)).*1.
Proof.
  refine (proj1 (old_groups_oldest_first [groupB; groupA; fullNew] [groupB; groupA]
                   fourReplicas twoOld _)).
  apply (bool_decide_unpack _). by vm_compute.
Defined.

(** Both old groups have surplus replicas and are scaled down, the older
    one first, although it comes second in the collection. *)
Example scaleDownOldReplicaSetsForBlueGreen_ordering_scenario :
  scaleCalls (callsOf (scaleDownOldReplicaSetsForBlueGreen
                         [groupB; groupA; fullNew] [groupB; groupA] fourReplicas)
                twoOld)
  = [(groupA, 0); (groupB, 0)].
Proof. by vm_compute. Qed.

(** ** New group scaler *)

(** The over-provisioned scenario of the spec. *)
Lemma reconcileNewReplicaSet_trichotomy_witness :
  (reconcileNewReplicaSet [overNew] overNew twoReplicas overProvisioned).1
  = Some (true, None)
  /\ scaleCalls
       (calls (reconcileNewReplicaSet [overNew] overNew twoReplicas overProvisioned).2)
     = [(overNew, 2)].
Proof.
  rewrite (proj1 (proj2 (reconcileNewReplicaSet_trichotomy
                           [overNew] overNew twoReplicas overProvisioned)))
    by (by vm_compute).
  by vm_compute.
Defined.

(** The fresh-rollout scenario of the spec: the new group is scaled to the
    count of the ramp function and the pass stops after the sync. *)
Example rolloutBlueGreen_fresh_scenario :
  let fresh := group "new" 1 0 0 in
  let st := cluster [fresh] [] None (activeFor "new") in
  (rolloutBlueGreen fourReplicas [fresh] st).1 = Some None
  /\ scaleCalls (callsOf (rolloutBlueGreen fourReplicas [fresh]) st) = [(fresh, 4)]
  /\ isSync <$> callsOf (rolloutBlueGreen fourReplicas [fresh]) st
     = [false; false; false; true].
Proof. by vm_compute. Qed.

(** ** Single mutating step *)

(** The in-memory collaborators report their changes. *)
Lemma inMemory_reportsChanges : reportsChanges (W := Cluster).
Proof.
  split; [|split]; cbn.
  - intros rs n r w updated w'. unfold scale.
    destruct (bool_decide _); [by intros [= _ _ ->]|].
    destruct (_ =? _); [by intros [= _ ->] | discriminate].
  - intros r newRS p a w w'. unfold switchPreview.
    destruct p as [svc|]; [|by intros [= ->]].
    destruct (pointsTo svc newRS); [by intros [= ->] | discriminate].
  - intros r newRS p a w w'. unfold switchActive.
    destruct a as [svc|]; [|discriminate].
    destruct (pointsTo svc newRS); [by intros [= ->] | discriminate].
Qed.

(** In the surplus scenario the steps before the scale-down ask to go on,
    leaving the cluster as it was, and the scale-down of the old groups
    reports a mutation: the status sync follows at once. *)
Lemma rolloutBlueGreen_single_mutating_step_witness :
  world surplus2 = world surplus1
  /\ exists st',
      stepScaleOldDown fourReplicas fullNew [groupX] surplus2 = (Some SyncAndStop, st')
      /\ rolloutBlueGreen fourReplicas [fullNew; groupX] surplus
         = syncRolloutStatus [groupX; fullNew] fullNew None (activeFor "new")
             fourReplicas st'.
Proof.
  assert (H0 : getAllReplicaSetsAndSyncRevision fourReplicas [fullNew; groupX] true
                 surplus = (Some (fullNew, [groupX], None), surplus0))
    by (by vm_compute).
  assert (H1 : getPreviewAndActiveServices fourReplicas surplus0
               = (Some (None, activeFor "new", None), surplus1))
    by (by vm_compute).
  destruct (rolloutBlueGreen_single_mutating_step fourReplicas [fullNew; groupX]
              surplus)
    as [(e & st' & Hfailed & _)
       | (newRS & oldRSs & p & a & st1 & (st0 & H0' & H1') & Hstop & _ & Hunchanged)].
  { exfalso.
    destruct Hfailed as [(n & o & Hf) | (n & o & s0 & p & a & Hf0 & Hf1)].
    - rewrite H0 in Hf. discriminate.
    - rewrite H0 in Hf0. injection Hf0 as <- <- <-.
      rewrite H1 in Hf1. discriminate. }
  rewrite H0 in H0'. injection H0' as <- <- <-.
  rewrite H1 in H1'. injection H1' as <- <- <-.
  split.
  - apply (Hunchanged inMemory_reportsChanges 4%nat); [lia | by vm_compute].
  - destruct (stepScaleOldDown fourReplicas fullNew [groupX] surplus2)
      as [o st'] eqn:Hstep.
    assert (Ho : o = Some SyncAndStop).
    { apply (f_equal fst) in Hstep. vm_compute in Hstep. congruence. }
    subst o. exists st'. split; [reflexivity|].
    apply Hstop
      with (pre := [stepScaleNewUp fourReplicas fullNew [groupX];
                    stepPreviewCutover fourReplicas fullNew None (activeFor "new");
                    stepVerifyGate fourReplicas None (activeFor "new");
                    stepActiveCutover fourReplicas fullNew None (activeFor "new")])
           (step := stepScaleOldDown fourReplicas fullNew [groupX])
           (post := [stepCleanup fourReplicas [groupX]])
           (stk := surplus2).
    + reflexivity.
    + by vm_compute.
    + exact Hstep.
Defined.

End Examples.

(** * More runs on the in-memory cluster *)

Module MoreExamples.
Import InMemory Samples MoreSamples.

(** ** Unhealthy eviction *)

Lemma cleanupUnhealthyReplicas_nothing_to_evict_witness :
  cleanupUnhealthyReplicas [groupB; groupX; idleOld] fourReplicas surplus
  = (Some ([idleOld; groupX; groupB], 0, None), surplus).
Proof.
  rewrite (cleanupUnhealthyReplicas_nothing_to_evict [groupB; groupX; idleOld]
             fourReplicas surplus).
  - by vm_compute.
  - repeat constructor; vm_compute; tauto.
Defined.

Lemma cleanupUnhealthyReplicas_stops_at_first_failure_witness :
  let cs := callsOf (cleanupUnhealthyReplicas [groupB; groupA] fourReplicas)
              rejectingA in
  ([] : list ReplicaSet) = []
  /\ ((exists pre c,
         cs = pre ++ [c] /\ callErr c = Some modified
         /\ Forall (fun c => callErr c = None) pre
         /\ 0 = evictedCount (scaleCalls pre).*1)
      \/ (Forall (fun c => callErr c = None) cs /\ 0 = 0
          /\ exists bad,
               bad ∈ [groupB; groupA] /\ unhealthy bad = true
               /\ SpecReplicas bad < StatusAvailableReplicas bad
               /\ modified = invalidScaleDownError bad (StatusAvailableReplicas bad))).
Proof.
  apply (cleanupUnhealthyReplicas_stops_at_first_failure [groupB; groupA]
           fourReplicas rejectingA [] 0 modified).
  by vm_compute.
Defined.

Lemma cleanupUnhealthyReplicas_evicted_count_witness :
  length [group "a" 1 1 1; groupB] = length [groupB; groupA]
  /\ 2 = evictedCount (List.filter unhealthy [groupB; groupA])
  /\ 2 = evictedCount (List.filter nonzero [groupB; groupA]).
Proof.
  apply (cleanupUnhealthyReplicas_evicted_count [groupB; groupA] fourReplicas
           twoOld [group "a" 1 1 1; groupB] 2).
  by vm_compute.
Defined.

(** ** Safe scale-down *)

Lemma scaleDownOldReplicaSetsForBlueGreen_stops_at_first_failure_witness :
  exists pre c,
    callsOf (scaleDownOldReplicaSetsForBlueGreen [groupX; fullNew] [groupX]
               fourReplicas) rejectingX
      = pre ++ [c]
    /\ callErr c = Some modified
    /\ Forall (fun c => callErr c = None) pre
    /\ 0 = GetReplicaCountForReplicaSets (scaleCalls pre).*1.
Proof.
  apply (scaleDownOldReplicaSetsForBlueGreen_stops_at_first_failure
           [groupX; fullNew] [groupX] fourReplicas rejectingX 0 modified).
  by vm_compute.
Defined.

Lemma scaleDownOldReplicaSetsForBlueGreen_nothing_to_scale_witness :
  scaleDownOldReplicaSetsForBlueGreen [idleOld; fullNew] [idleOld]
    twoReplicas surplus
  = (Some (0, None), surplus).
Proof.
  apply (scaleDownOldReplicaSetsForBlueGreen_nothing_to_scale
           [idleOld; fullNew] [idleOld] twoReplicas surplus).
  by repeat constructor.
Defined.

(** ** The verification gate *)

Lemma reconcileVerifyingPreview_reads_key_presence_witness :
  reconcileVerifyingPreview (W := Cluster)
    (Some (service "active" (Some "new"%string))) verifying
  = reconcileVerifyingPreview (W := Cluster)
      (Some (service "other" (Some "old"%string))) verifying
  /\ is_Some (reconcileVerifyingPreview (W := Cluster)
                (Some (service "active" (Some "new"%string))) verifying).
Proof.
  apply (reconcileVerifyingPreview_reads_key_presence (W := Cluster)
           (service "active" (Some "new"%string))
           (service "other" (Some "old"%string)) verifying).
  split; intros _; vm_compute; by eexists.
Defined.

(** ** The calls of a pass *)

Lemma rolloutBlueGreen_error_provenance_witness :
  let cs := callsOf (rolloutBlueGreen verifying [freshNew; servingOld])
              rejectingNew in
  (exists c, last cs = Some c /\ callErr c = Some modified)
  \/ (exists newRS oldRSs previewSvc activeSvc count,
        cs = [CallGetAllReplicaSetsAndSyncRevision verifying
                [freshNew; servingOld] true (newRS, oldRSs, None);
              CallGetPreviewAndActiveServices verifying
                (previewSvc, activeSvc, None)]
        /\ NewRSNewReplicas verifying (oldRSs ++ [newRS]) newRS
           = (count, Some modified)).
Proof.
  apply (rolloutBlueGreen_error_provenance verifying [freshNew; servingOld]
           rejectingNew modified).
  by vm_compute.
Defined.

Lemma rolloutBlueGreen_failing_call_ends_pass_witness :
  (([] : list Call) = []
   /\ (rolloutBlueGreen verifying [freshNew; servingOld] rejectingNew).1
      = Some (callErr rejectedScale))
  \/ (isScale rejectedScale = true
      /\ Exists (fun c' => isActiveCutover c' = true) rejectingNewBefore).
Proof.
  apply (rolloutBlueGreen_failing_call_ends_pass verifying
           [freshNew; servingOld] rejectingNew rejectingNewBefore rejectedScale []).
  - by vm_compute.
  - discriminate.
Defined.

Lemma rolloutBlueGreen_panics_only_at_gate_witness :
  exists newRS oldRSs previewSvc scaling,
    callsOf (rolloutBlueGreen verifying [currentNew]) noActive
    = CallGetAllReplicaSetsAndSyncRevision verifying [currentNew] true
        (newRS, oldRSs, None)
      :: CallGetPreviewAndActiveServices verifying (Some previewSvc, None, None)
      :: scaling
      ++ [CallReconcilePreviewService verifying newRS (Some previewSvc) None
            (false, None)]
    /\ (scaling = []
        \/ exists n updated,
            scaling = [CallScaleReplicaSetAndRecordEvent newRS n verifying
                         (false, updated, None)])
    /\ PreviewService verifying <> ""%string.
Proof.
  apply (rolloutBlueGreen_panics_only_at_gate verifying [currentNew] noActive).
  by vm_compute.
Defined.

Lemma rolloutBlueGreen_scale_calls_witness :
  exists newRS oldRSs previewSvc activeSvc mid,
    surplusBefore
    = CallGetAllReplicaSetsAndSyncRevision fourReplicas [fullNew; groupX] true
        (newRS, oldRSs, None)
      :: CallGetPreviewAndActiveServices fourReplicas (previewSvc, activeSvc, None)
      :: mid
    /\ ((mid = []
         /\ SpecReplicas newRS <> GetRolloutReplicasOrDefault fourReplicas
         /\ exists n reply,
             surplusScale
             = CallScaleReplicaSetAndRecordEvent newRS n fourReplicas reply)
        \/ (CallReconcileActiveService fourReplicas newRS previewSvc activeSvc
              (false, None) ∈ mid
            /\ (previewSvc = None
                \/ reconcileVerifyingPreview activeSvc fourReplicas = Some false)
            /\ IsSaturated fourReplicas newRS = true
            /\ (evicts fourReplicas (FilterActiveReplicaSets oldRSs) surplusScale
                \/ scalesToZero fourReplicas surplusScale))).
Proof.
  apply (rolloutBlueGreen_scale_calls fourReplicas [fullNew; groupX] surplus
           surplusBefore surplusScale surplusAfter).
  - by vm_compute.
  - reflexivity.
Defined.

End MoreExamples.
